(** * The ray-traced room (exp3/src/main.cpp): a shallow embedding

    The program is a recursive analytic ray tracer over C++ [float].
    Every function of the kernel is embedded once, over an abstract scalar
    type, and read at two instances:

    - [binary32]: IEEE 754 single precision, the arithmetic the compiled
      program runs (round to nearest even, signed zeros, infinities, NaN).
      It is executable, so every function can be evaluated on concrete rays.
      Expressions are evaluated operation by operation, in the order C++
      fixes, without fused multiply-add.
    - [real_arith]: exact real arithmetic, the reading under which the
      geometric identities of the kernel are stated.

    The libm functions [std::pow] and [std::tan] and the conversion of a
    [float] to [unsigned char] are not fixed by IEEE 754: they are the
    interface [Libm]. *)

From Stdlib Require Import ZArith List Bool Lia Permutation Ascii.
From Stdlib Require Import Reals Lra.
From Stdlib Require Import Floats.SpecFloat.
Import ListNotations.

Local Open Scope Z_scope.

(** ** Scalars *)

(** What the kernel needs from [float]. [flit num den] is the value of the
    literal [num/den] (so [flit 1 10000] is [1e-4f]), and of an [int]
    converted to [float] ([flit n 1]). *)
Class Scalar (F : Type) : Type := {
  flit : Z -> Z -> F;
  fadd : F -> F -> F;
  fsub : F -> F -> F;
  fmul : F -> F -> F;
  fdiv : F -> F -> F;
  fneg : F -> F;
  fabs : F -> F;
  fsqrt : F -> F;
  fltb : F -> F -> bool;
  fleb : F -> F -> bool
}.

Arguments flit {F _} _%_Z _%_Z.

(** [std::pow], [std::tan] and [static_cast<unsigned char>]. *)
Class Libm (F : Type) : Type := {
  fpow : F -> F -> F;
  ftan : F -> F;
  to_uchar : F -> Z
}.

Declare Scope sc_scope.
Delimit Scope sc_scope with sc.
Infix "+" := fadd : sc_scope.
Infix "-" := fsub : sc_scope.
Infix "*" := fmul : sc_scope.
Infix "/" := fdiv : sc_scope.
Notation "- x" := (fneg x) : sc_scope.
Infix "<?" := fltb : sc_scope.
Infix "<=?" := fleb : sc_scope.
Notation "x >? y" := (fltb y x) (only parsing) : sc_scope.

(** *** IEEE 754 binary32 *)

Definition prec32 : Z := 24.
Definition emax32 : Z := 128.
Definition float32 : Type := spec_float.

(** The literal [num/den], rounded once to the nearest binary32 value. *)
Definition b32_lit (num den : Z) : float32 :=
  match num, den with
  | Z0, Zpos _ => S754_zero false
  | Zpos n, Zpos d =>
      SFdiv prec32 emax32 (S754_finite false n 0) (S754_finite false d 0)
  | Zneg n, Zpos d =>
      SFdiv prec32 emax32 (S754_finite true n 0) (S754_finite false d 0)
  | _, _ => S754_nan
  end.

#[export] Instance binary32 : Scalar float32 := {
  flit := b32_lit;
  fadd := SFadd prec32 emax32;
  fsub := SFsub prec32 emax32;
  fmul := SFmul prec32 emax32;
  fdiv := SFdiv prec32 emax32;
  fneg := SFopp;
  fabs := SFabs;
  fsqrt := SFsqrt prec32 emax32;
  fltb := SFltb;
  fleb := SFleb
}.

(** The integer part of a binary32 value, truncated toward zero; [None] for
    infinities and NaN. *)
Definition b32_trunc (f : float32) : option Z :=
  match f with
  | S754_zero _ => Some 0
  | S754_finite s m e =>
      let a := match e with
               | Zneg p => Z.shiftr (Zpos m) (Zpos p)
               | _ => Z.shiftl (Zpos m) e
               end in
      Some (if s then - a else a)
  | _ => None
  end.

(** [static_cast<unsigned char>(f)]: the truncated value when it fits in
    0..255. Outside that range, and for NaN, C++ leaves the conversion
    undefined; the model returns 0 there. *)
Definition b32_to_uchar (f : float32) : Z :=
  match b32_trunc f with
  | Some a => if (0 <=? a) && (a <=? 255) then a else 0
  | None => 0
  end.

(** *** Exact real arithmetic *)

#[export] Instance real_arith : Scalar R := {
  flit := fun num den => (IZR num / IZR den)%R;
  fadd := Rplus;
  fsub := Rminus;
  fmul := Rmult;
  fdiv := Rdiv;
  fneg := Ropp;
  fabs := Rabs;
  fsqrt := sqrt;
  fltb := fun x y => if Rlt_dec x y then true else false;
  fleb := fun x y => if Rle_dec x y then true else false
}.

(** ** The vector kernel, the primitives and the intersection tests *)

Section Kernel.

Context {F : Type} {SC : Scalar F}.
Local Open Scope sc_scope.

Record Vec3 : Type := mkVec3 { v_x : F; v_y : F; v_z : F }.

Definition vzero : Vec3 := mkVec3 (flit 0 1) (flit 0 1) (flit 0 1).

(** [Vec3::operator+], [operator-], [operator*(float)], [operator/(float)]
    and the free [operator*(float, Vec3)]. *)
Definition vadd (a o : Vec3) : Vec3 :=
  mkVec3 (v_x a + v_x o) (v_y a + v_y o) (v_z a + v_z o).
Definition vsub (a o : Vec3) : Vec3 :=
  mkVec3 (v_x a - v_x o) (v_y a - v_y o) (v_z a - v_z o).
Definition vscale (a : Vec3) (s : F) : Vec3 :=
  mkVec3 (v_x a * s) (v_y a * s) (v_z a * s).
Definition vdiv (a : Vec3) (s : F) : Vec3 :=
  mkVec3 (v_x a / s) (v_y a / s) (v_z a / s).
Definition smul (s : F) (v : Vec3) : Vec3 :=
  mkVec3 (v_x v * s) (v_y v * s) (v_z v * s).

Definition dot (a b : Vec3) : F :=
  v_x a * v_x b + v_y a * v_y b + v_z a * v_z b.

Definition cross (a b : Vec3) : Vec3 :=
  mkVec3 (v_y a * v_z b - v_z a * v_y b)
         (v_z a * v_x b - v_x a * v_z b)
         (v_x a * v_y b - v_y a * v_x b).

Definition normalize (v : Vec3) : Vec3 :=
  let len2 := dot v v in
  if len2 <=? flit 1 100000000 then mkVec3 (flit 0 1) (flit 0 1) (flit 0 1)
  else
    let inv := flit 1 1 / fsqrt len2 in
    vscale v inv.

Definition length (v : Vec3) : F := fsqrt (dot v v).

Definition clamp (x : F) : F :=
  if x <? flit 0 1 then flit 0 1 else if x >? flit 1 1 then flit 1 1 else x.

Definition clamp01 (v : Vec3) : Vec3 :=
  mkVec3 (clamp (v_x v)) (clamp (v_y v)) (clamp (v_z v)).

(** [std::max(a, b)] is [(a < b) ? b : a]. *)
Definition fmax (a b : F) : F := if a <? b then b else a.

Record Ray : Type := mkRay { ray_o : Vec3; ray_d : Vec3 }.

Record Sphere : Type :=
  mkSphere { s_center : Vec3; s_radius : F; s_color : Vec3 }.

Record Plane : Type := mkPlane { pl_n : Vec3; pl_d : F; pl_color : Vec3 }.

(** The self-intersection threshold [1e-4f]. *)
Definition t_eps : F := flit 1 10000.

(** The locals of [intersect_sphere]. *)
Definition sphere_oc (ray : Ray) (s : Sphere) : Vec3 :=
  vsub (ray_o ray) (s_center s).
Definition sphere_a (ray : Ray) : F := dot (ray_d ray) (ray_d ray).
Definition sphere_b (ray : Ray) (s : Sphere) : F :=
  flit 2 1 * dot (sphere_oc ray s) (ray_d ray).
Definition sphere_c (ray : Ray) (s : Sphere) : F :=
  dot (sphere_oc ray s) (sphere_oc ray s) - s_radius s * s_radius s.
Definition sphere_disc (ray : Ray) (s : Sphere) : F :=
  sphere_b ray s * sphere_b ray s - flit 4 1 * sphere_a ray * sphere_c ray s.
Definition sphere_t0 (ray : Ray) (s : Sphere) : F :=
  (- sphere_b ray s - fsqrt (sphere_disc ray s)) / (flit 2 1 * sphere_a ray).
Definition sphere_t1 (ray : Ray) (s : Sphere) : F :=
  (- sphere_b ray s + fsqrt (sphere_disc ray s)) / (flit 2 1 * sphere_a ray).

(** [intersect_sphere]: the two out-parameters [t] and [normal] are written
    only on the path that returns [true]; [None] is [return false]. *)
Definition intersect_sphere (ray : Ray) (s : Sphere) : option (F * Vec3) :=
  if sphere_disc ray s <? flit 0 1 then None
  else
    let t0 := sphere_t0 ray s in
    let t1 := sphere_t1 ray s in
    let t_hit := t0 in
    let t_hit := if t_hit <? t_eps then t1 else t_hit in
    if t_hit <? t_eps then None
    else
      let hitPoint := vadd (ray_o ray) (vscale (ray_d ray) t_hit) in
      Some (t_hit, normalize (vsub hitPoint (s_center s))).

(** The room is the box x in [0,5], y in [0,3], z in [0,5]; a hit point is
    kept when it is inside the box widened by [1e-3f]. *)
Definition outside_room (p : Vec3) : bool :=
  (v_x p <? flit 0 1 - flit 1 1000) || (v_x p >? flit 5 1 + flit 1 1000) ||
  (v_y p <? flit 0 1 - flit 1 1000) || (v_y p >? flit 3 1 + flit 1 1000) ||
  (v_z p <? flit 0 1 - flit 1 1000) || (v_z p >? flit 5 1 + flit 1 1000).

Definition plane_denom (ray : Ray) (pl : Plane) : F := dot (pl_n pl) (ray_d ray).
Definition plane_num (ray : Ray) (pl : Plane) : F :=
  - (dot (pl_n pl) (ray_o ray) + pl_d pl).
Definition plane_t (ray : Ray) (pl : Plane) : F :=
  plane_num ray pl / plane_denom ray pl.

Definition intersect_plane (ray : Ray) (pl : Plane) : option (F * Vec3) :=
  let denom := plane_denom ray pl in
  if fabs denom <? flit 1 1000000 then None
  else
    let t_hit := plane_t ray pl in
    if t_hit <? t_eps then None
    else
      let hitPoint := vadd (ray_o ray) (vscale (ray_d ray) t_hit) in
      if outside_room hitPoint then None
      else Some (t_hit, pl_n pl).

End Kernel.

Arguments Vec3 F : clear implicits.
Arguments Ray F : clear implicits.
Arguments Sphere F : clear implicits.
Arguments Plane F : clear implicits.

(** ** The scene, the shading engine, the tracer and the renderer *)

Section Tracer.

Context {F : Type} {SC : Scalar F} {LM : Libm F}.
Local Open Scope sc_scope.

(** The globals the renderer reads. [g_colorBuffer] is kept apart: it is the
    only global that rendering writes. *)
Record Scene : Type := mkScene {
  g_width : Z;
  g_height : Z;
  g_camPos : Vec3 F;
  g_camLook : Vec3 F;
  g_lightPos : Vec3 F;
  g_spheres : list (Sphere F);
  g_planes : list (Plane F)
}.

(** The globals as their initialisers leave them, before [init_scene]. *)
Definition initial_scene : Scene :=
  mkScene 800 600
    (mkVec3 (flit 25 10) (flit 15 10) (flit 80 10))
    (mkVec3 (flit 25 10) (flit 15 10) (flit 0 10))
    (mkVec3 (flit 25 10) (flit 30 10) (flit 60 10))
    [] [].

(** [std::vector::resize]: truncates, or pads with zero bytes. *)
Definition resize (n : Z) (buf : list Z) : list Z :=
  firstn (Z.to_nat n) buf ++ repeat 0 (Z.to_nat n - List.length buf)%nat.

Definition init_spheres : list (Sphere F) :=
  let sphereRadius := flit 9 10 in
  [ mkSphere (mkVec3 (flit 15 10) sphereRadius (flit 25 10)) sphereRadius
      (mkVec3 (flit 10 10) (flit 1 10) (flit 1 10));
    mkSphere (mkVec3 (flit 35 10) sphereRadius (flit 35 10)) sphereRadius
      (mkVec3 (flit 1 10) (flit 1 10) (flit 10 10)) ].

Definition init_planes : list (Plane F) :=
  [ mkPlane (mkVec3 (flit 0 1) (flit 1 1) (flit 0 1)) (flit 0 10)
      (mkVec3 (flit 45 100) (flit 30 100) (flit 15 100));
    mkPlane (mkVec3 (flit 0 1) (flit (-1) 1) (flit 0 1)) (flit 30 10)
      (mkVec3 (flit 10 10) (flit 10 10) (flit 10 10));
    mkPlane (mkVec3 (flit 0 1) (flit 0 1) (flit 1 1)) (flit 0 10)
      (mkVec3 (flit 10 10) (flit 10 10) (flit 10 10));
    mkPlane (mkVec3 (flit (-1) 1) (flit 0 1) (flit 0 1)) (flit 50 10)
      (mkVec3 (flit 10 10) (flit 10 10) (flit 10 10));
    mkPlane (mkVec3 (flit 1 1) (flit 0 1) (flit 0 1)) (flit 0 10)
      (mkVec3 (flit 10 10) (flit 10 10) (flit 10 10)) ].

Definition init_scene (sc : Scene) (buf : list Z) : Scene * list Z :=
  (mkScene (g_width sc) (g_height sc) (g_camPos sc) (g_camLook sc)
     (g_lightPos sc) init_spheres init_planes,
   resize (g_width sc * g_height sc * 3) buf).

Definition INT_MAX : Z := 2147483647.

(** [reshape_cb] on the globals. The size [g_width * g_height * 3] is an
    [int] product: past [INT_MAX] it overflows, and the result is [None]
    (undefined behaviour). The allocation of [resize] is taken to succeed. *)
Definition reshape_cb (w h : Z) (sc : Scene) (buf : list Z)
  : option (Scene * list Z) :=
  if (w <=? 0)%Z || (h <=? 0)%Z then Some (sc, buf)
  else if (INT_MAX <? w * h * 3)%Z then None
  else
    Some (mkScene w h (g_camPos sc) (g_camLook sc) (g_lightPos sc)
            (g_spheres sc) (g_planes sc),
          resize (w * h * 3) buf).

Definition kMaxDepth : Z := 2.

(** [intersect(...) && tTmp < lightDist - 1e-3f], on the result of the
    intersection test. *)
Definition occludes (limit : F) (h : option (F * Vec3 F)) : bool :=
  match h with
  | Some (tTmp, _) => tTmp <? limit
  | None => false
  end.

(** The shadow test of [shade]: both loops leave at the first occluder, and
    the planes are visited only when no sphere occludes. *)
Definition in_shadow (sc : Scene) (hitPoint normal : Vec3 F) : bool :=
  let L := normalize (vsub (g_lightPos sc) hitPoint) in
  let lightDist := length (vsub (g_lightPos sc) hitPoint) in
  let shadowRay := mkRay (vadd hitPoint (vscale normal (flit 1 1000))) L in
  let inShadow :=
    existsb (fun s => occludes (lightDist - flit 1 1000)
                        (intersect_sphere shadowRay s)) (g_spheres sc) in
  if negb inShadow then
    existsb (fun pl => occludes (lightDist - flit 1 1000)
                         (intersect_plane shadowRay pl)) (g_planes sc)
  else inShadow.

Definition shade (sc : Scene) (hitPoint normal baseColor viewDir : Vec3 F)
  : Vec3 F :=
  let L := normalize (vsub (g_lightPos sc) hitPoint) in
  let inShadow := in_shadow sc hitPoint normal in
  let ndotl := fmax (flit 0 1) (dot normal L) in
  let ambient := flit 2 10 in
  let diff := if inShadow then flit 0 1 else ndotl in
  let color := vscale baseColor (ambient + diff * flit 8 10) in
  let H := normalize (vadd L viewDir) in
  let ndoth := fmax (flit 0 1) (dot normal H) in
  let spec := if inShadow then flit 0 1 else fpow ndoth (flit 32 1) in
  let specColor :=
    vscale (mkVec3 (flit 1 1) (flit 1 1) (flit 1 1)) (spec * flit 3 10) in
  let color := vadd color specColor in
  clamp01 color.

(** The locals of [trace] that its two loops update. *)
Record Hit : Type := mkHit {
  tMin : F;
  hitNormal : Vec3 F;
  hitColor : Vec3 F;
  hitReflectivity : F;
  hit : bool
}.

Definition no_hit : Hit :=
  mkHit (flit (10 ^ 30) 1) (mkVec3 (flit 0 1) (flit 0 1) (flit 0 1))
    (mkVec3 (flit 0 1) (flit 0 1) (flit 0 1)) (flit 0 1) false.

Definition sphere_step (ray : Ray F) (st : Hit) (s : Sphere F) : Hit :=
  match intersect_sphere ray s with
  | Some (t, n) =>
      if t <? tMin st then mkHit t n (s_color s) (flit 0 1) true else st
  | None => st
  end.

Definition plane_step (ray : Ray F) (st : Hit) (pl : Plane F) : Hit :=
  match intersect_plane ray pl with
  | Some (t, n) =>
      if t <? tMin st then mkHit t n (pl_color pl) (flit 5 100) true else st
  | None => st
  end.

(** The spheres first, then the planes. *)
Definition nearest_hit (sc : Scene) (ray : Ray F) : Hit :=
  fold_left (plane_step ray) (g_planes sc)
    (fold_left (sphere_step ray) (g_spheres sc) no_hit).

Definition background : Vec3 F := mkVec3 (flit 2 10) (flit 3 10) (flit 5 10).

(** The direction of the reflected ray. *)
Definition reflect_dir (d n : Vec3 F) : Vec3 F :=
  normalize (vsub d (smul (flit 2 1 * dot d n) n)).

(** The point hit and the colour [shade] gives it. *)
Definition hit_point (ray : Ray F) (h : Hit) : Vec3 F :=
  vadd (ray_o ray) (vscale (ray_d ray) (tMin h)).

Definition local_color (sc : Scene) (ray : Ray F) (h : Hit) : Vec3 F :=
  let viewDir := normalize (vscale (ray_d ray) (- flit 1 1)) in
  shade sc (hit_point ray h) (hitNormal h) (hitColor h) viewDir.

Definition reflected_ray (ray : Ray F) (h : Hit) : Ray F :=
  mkRay (vadd (hit_point ray h) (vscale (hitNormal h) (flit 1 1000)))
        (reflect_dir (ray_d ray) (hitNormal h)).

(** One node per invocation of [trace]: its depth, whether it called
    [shade], and the invocations it made itself. *)
#[warnings="-register-all"] Inductive CallTree : Type :=
  | Call (depth : Z) (shaded : bool) (calls : list CallTree).

(** [trace], with the record of its invocations. The recursion of the
    source is on [depth], which grows; the model recurses on [fuel] and
    answers [None] when the fuel is used up. *)
Fixpoint trace_fuel (fuel : nat) (sc : Scene) (ray : Ray F) (depth : Z)
  : option (Vec3 F * CallTree) :=
  match fuel with
  | O => None
  | S fuel' =>
      let h := nearest_hit sc ray in
      if negb (hit h) then Some (background, Call depth false [])
      else
        let localColor := local_color sc ray h in
        if (depth <? kMaxDepth)%Z && (hitReflectivity h >? flit 0 1) then
          match trace_fuel fuel' sc (reflected_ray ray h) (depth + 1) with
          | None => None
          | Some (reflColor, sub) =>
              let localColor :=
                vadd (smul (flit 1 1 - hitReflectivity h) localColor)
                     (smul (hitReflectivity h) reflColor) in
              Some (clamp01 localColor, Call depth true [sub])
          end
        else Some (clamp01 localColor, Call depth true [])
  end.

(** Fuel that covers every invocation below [depth]. *)
Definition trace_budget (depth : Z) : nat := S (Z.to_nat (kMaxDepth - depth)).

Definition trace_run (sc : Scene) (ray : Ray F) (depth : Z)
  : option (Vec3 F * CallTree) :=
  trace_fuel (trace_budget depth) sc ray depth.

(** [trace(ray, depth)]. The second branch is never taken
    ([trace_run_total]). *)
Definition trace (sc : Scene) (ray : Ray F) (depth : Z) : Vec3 F :=
  match trace_run sc ray depth with
  | Some (c, _) => c
  | None => vzero
  end.

(** [trace] without its reflection block: what the tracer computes when the
    branch guarded by [depth < kMaxDepth && hitReflectivity > 0.0f] is
    deleted. *)
Definition trace_noreflect (sc : Scene) (ray : Ray F) (depth : Z) : Vec3 F :=
  let h := nearest_hit sc ray in
  if negb (hit h) then background
  else clamp01 (local_color sc ray h).

(** The number of [shade] evaluations in a call tree. *)
Fixpoint shade_count (c : CallTree) : nat :=
  match c with
  | Call _ shaded calls =>
      ((if shaded then 1 else 0) + list_sum (map shade_count calls))%nat
  end.

(** The camera basis of [render_scene]. *)
Definition cam_forward (sc : Scene) : Vec3 F :=
  normalize (vsub (g_camLook sc) (g_camPos sc)).

Definition cam_right (sc : Scene) : Vec3 F :=
  let forward := cam_forward sc in
  let worldUp := mkVec3 (flit 0 1) (flit 1 1) (flit 0 1) in
  let right := normalize (cross forward worldUp) in
  if dot right right <? flit 1 1000000 then
    let worldUp := mkVec3 (flit 0 1) (flit 0 1) (flit 1 1) in
    normalize (cross forward worldUp)
  else right.

Definition cam_up (sc : Scene) : Vec3 F :=
  normalize (cross (cam_right sc) (cam_forward sc)).

Definition cam_fov : F := flit 45 1 * flit 31415926 10000000 / flit 180 1.
Definition cam_aspect (sc : Scene) : F :=
  flit (g_width sc) 1 / flit (g_height sc) 1.
Definition cam_scale : F := ftan (cam_fov * flit 5 10).

Definition pixel_u (sc : Scene) (x : Z) : F :=
  (flit 2 1 * ((flit x 1 + flit 5 10) / flit (g_width sc) 1) - flit 1 1)
  * cam_aspect sc * cam_scale.

Definition pixel_v (sc : Scene) (y : Z) : F :=
  (flit 2 1 * ((flit y 1 + flit 5 10) / flit (g_height sc) 1) - flit 1 1)
  * cam_scale.

Definition primary_ray (sc : Scene) (x y : Z) : Ray F :=
  let dir :=
    normalize (vadd (vadd (cam_forward sc) (smul (pixel_u sc x) (cam_right sc)))
                    (smul (pixel_v sc y) (cam_up sc))) in
  mkRay (g_camPos sc) dir.

(** The colour of a pixel after [col = clamp01(col)]. *)
Definition pixel_color (sc : Scene) (x y : Z) : Vec3 F :=
  clamp01 (trace sc (primary_ray sc x y) 0).

(** The colour buffer with the record of the indices written so far.
    [store] is [g_colorBuffer[idx] = v]; an index outside the vector is
    undefined behaviour, [None]. *)
Record Buffer : Type := mkBuffer { bytes : list Z; written : list Z }.

Fixpoint set_nth (l : list Z) (i : nat) (v : Z) : list Z :=
  match l, i with
  | [], _ => []
  | _ :: l', O => v :: l'
  | a :: l', S i' => a :: set_nth l' i' v
  end.

Definition store (idx v : Z) (b : Buffer) : option Buffer :=
  if (0 <=? idx)%Z && (idx <? Z.of_nat (List.length (bytes b)))%Z then
    Some (mkBuffer (set_nth (bytes b) (Z.to_nat idx) v) (idx :: written b))
  else None.

Definition render_pixel (sc : Scene) (y x : Z) (b : Buffer) : option Buffer :=
  let col := pixel_color sc x y in
  let idx := ((y * g_width sc + x) * 3)%Z in
  match store (idx + 0) (to_uchar (v_x col * flit 255 1)) b with
  | None => None
  | Some b =>
      match store (idx + 1) (to_uchar (v_y col * flit 255 1)) b with
      | None => None
      | Some b => store (idx + 2) (to_uchar (v_z col * flit 255 1)) b
      end
  end.

(** [for (int i = 0; i < n; ++i) body(i)], on a state that can fail. *)
Definition for_range {A : Type} (n : Z) (body : Z -> A -> option A) (a : A)
  : option A :=
  fold_left (fun acc i => match acc with
                          | Some s => body (Z.of_nat i) s
                          | None => None
                          end)
            (seq 0 (Z.to_nat n)) (Some a).

Definition render_row (sc : Scene) (y : Z) (b : Buffer) : option Buffer :=
  for_range (g_width sc) (render_pixel sc y) b.

Definition render_scene (sc : Scene) (b : Buffer) : option Buffer :=
  for_range (g_height sc) (render_row sc) b.

End Tracer.

Arguments Scene F : clear implicits.
Arguments Hit F : clear implicits.

(** ** A libm to run the model with

    [std::pow] by repeated multiplication for a non-negative integral
    exponent, [std::tan] by a rational approximation near the half field of
    view. The theorems below hold for every [Libm]; this one only serves to
    evaluate the model on concrete scenes. *)

Definition b32_pow (x y : float32) : float32 :=
  match b32_trunc y with
  | Some (Zpos n) => Pos.iter (fun acc : float32 => fmul acc x) (flit 1 1) n
  | Some Z0 => flit 1 1
  | _ => S754_nan
  end.

Definition b32_tan (x : float32) : float32 :=
  let x2 : float32 := fmul x x in
  fdiv (fmul x (fsub (flit 15 1) x2)) (fsub (flit 15 1) (fmul (flit 6 1) x2)).

Definition sample_libm : Libm float32 :=
  {| fpow := b32_pow; ftan := b32_tan; to_uchar := b32_to_uchar |}.

(** The scene of [init_scene] in binary32, and vectors from decimal
    literals. *)
Definition room : Scene float32 :=
  fst (init_scene initial_scene []).

Definition vec32 (x y z : Z * Z) : Vec3 float32 :=
  mkVec3 (flit (fst x) (snd x)) (flit (fst y) (snd y)) (flit (fst z) (snd z)).

(** ** The intersection tests *)

Section KernelFacts.

Context {F : Type} {SC : Scalar F}.
Local Open Scope sc_scope.

(** The root a sphere test selects, and the hit points of the two tests. *)
Definition sphere_t (ray : Ray F) (s : Sphere F) : F :=
  if sphere_t0 ray s <? t_eps then sphere_t1 ray s else sphere_t0 ray s.

Definition sphere_hit_point (ray : Ray F) (s : Sphere F) : Vec3 F :=
  vadd (ray_o ray) (vscale (ray_d ray) (sphere_t ray s)).

Definition plane_hit_point (ray : Ray F) (pl : Plane F) : Vec3 F :=
  vadd (ray_o ray) (vscale (ray_d ray) (plane_t ray pl)).

Lemma intersect_sphere_eq (ray : Ray F) (s : Sphere F) :
  intersect_sphere ray s =
  if sphere_disc ray s <? flit 0 1 then None
  else if (sphere_t0 ray s <? t_eps) && (sphere_t1 ray s <? t_eps) then None
  else Some (sphere_t ray s,
             normalize (vsub (sphere_hit_point ray s) (s_center s))).
Proof.
  unfold intersect_sphere, sphere_hit_point, sphere_t.
  destruct (sphere_disc ray s <? flit 0 1); [reflexivity|].
  destruct (sphere_t0 ray s <? t_eps) eqn:E0; cbn [andb].
  - reflexivity.
  - rewrite E0. reflexivity.
Qed.

Lemma intersect_plane_eq (ray : Ray F) (pl : Plane F) :
  intersect_plane ray pl =
  if (fabs (dot (pl_n pl) (ray_d ray)) <? flit 1 1000000)
     || (plane_t ray pl <? t_eps)
     || outside_room (plane_hit_point ray pl)
  then None
  else Some (plane_t ray pl, pl_n pl).
Proof.
  unfold intersect_plane, plane_hit_point, plane_denom.
  destruct (fabs (dot (pl_n pl) (ray_d ray)) <? flit 1 1000000);
    [reflexivity|].
  destruct (plane_t ray pl <? t_eps); [reflexivity|].
  destruct (outside_room _); reflexivity.
Qed.

Lemma normalize_small (v : Vec3 F) :
  (dot v v <=? flit 1 100000000) = true -> normalize v = vzero.
Proof. intros H. unfold normalize. rewrite H. reflexivity. Qed.

Lemma normalize_large (v : Vec3 F) :
  (dot v v <=? flit 1 100000000) = false ->
  normalize v = vscale v (flit 1 1 / fsqrt (dot v v)).
Proof. intros H. unfold normalize. rewrite H. reflexivity. Qed.

End KernelFacts.

(** C2. For every ray and every plane, [intersect_plane] misses when
    |dot(n,d)| < 1e-6, when t = -(dot(n,o)+d)/dot(n,d) is below 1e-4, or when
    the hit point o + t*d is outside the room widened by 1e-3; otherwise it
    hits with that t and the plane's own normal. A ray parallel to the
    plane, dot(n,d) = 0 of either sign, always misses. *)
Theorem intersect_plane_spec :
  (forall (F : Type) (SC : Scalar F) (ray : Ray F) (pl : Plane F),
      plane_t ray pl
      = fdiv (fneg (fadd (dot (pl_n pl) (ray_o ray)) (pl_d pl)))
             (dot (pl_n pl) (ray_d ray))
      /\ intersect_plane ray pl
         = if fltb (fabs (dot (pl_n pl) (ray_d ray))) (flit 1 1000000)
              || fltb (plane_t ray pl) (flit 1 10000)
              || outside_room
                   (vadd (ray_o ray) (vscale (ray_d ray) (plane_t ray pl)))
           then None
           else Some (plane_t ray pl, pl_n pl))
  /\ (forall (F : Type) (SC : Scalar F) (p : Vec3 F),
         outside_room p
         = fltb (v_x p) (fsub (flit 0 1) (flit 1 1000))
           || fltb (fadd (flit 5 1) (flit 1 1000)) (v_x p)
           || fltb (v_y p) (fsub (flit 0 1) (flit 1 1000))
           || fltb (fadd (flit 3 1) (flit 1 1000)) (v_y p)
           || fltb (v_z p) (fsub (flit 0 1) (flit 1 1000))
           || fltb (fadd (flit 5 1) (flit 1 1000)) (v_z p))
  /\ (forall (ray : Ray float32) (pl : Plane float32) (sign : bool),
         dot (pl_n pl) (ray_d ray) = S754_zero sign ->
         intersect_plane ray pl = None)
  /\ (forall (ray : Ray R) (pl : Plane R),
         dot (pl_n pl) (ray_d ray) = 0%R ->
         intersect_plane ray pl = None).
Proof.
  split; [|split; [|split]].
  - intros F SC ray pl. split; [reflexivity|].
    apply intersect_plane_eq.
  - intros F SC p. reflexivity.
  - intros ray pl sign H. rewrite intersect_plane_eq, H.
    destruct sign; reflexivity.
  - intros ray pl H. rewrite intersect_plane_eq, H.
    cbn [fabs fltb flit real_arith]. rewrite Rabs_R0.
    destruct (Rlt_dec 0 (1 / 1000000)) as [|N]; [reflexivity|].
    exfalso. apply N. lra.
Qed.

(** The floor of the room and a ray that runs along it. *)
Lemma intersect_plane_spec_witness :
  intersect_plane
    (mkRay (vec32 (25, 10) (15, 10) (25, 10)) (vec32 (0, 1) (0, 1) (1, 1)))
    (mkPlane (vec32 (0, 1) (1, 1) (0, 1)) (flit 0 1) (vec32 (1, 1) (1, 1) (1, 1)))
  = None.
Proof.
  apply (proj1 (proj2 (proj2 intersect_plane_spec))) with (sign := false).
  vm_compute. reflexivity.
Defined.

(** A ray straight down from (2.5, 2.9, 2.5) meets the floor at t = 2.9
    (to binary32 precision), with normal (0, 1, 0). *)
Example floor_hit_from_above :
  intersect_plane
    (mkRay (vec32 (25, 10) (29, 10) (25, 10)) (vec32 (0, 1) (-1, 1) (0, 1)))
    (mkPlane (vec32 (0, 1) (1, 1) (0, 1)) (flit 0 1) (vec32 (1, 1) (1, 1) (1, 1)))
  = Some (S754_finite false 12163482 (-22), vec32 (0, 1) (1, 1) (0, 1)).
Proof. vm_compute. reflexivity. Qed.

(** ** Comparisons in exact arithmetic *)

Section RealFacts.

Local Open Scope R_scope.

Lemma real_fltb_true (x y : R) : fltb x y = true <-> x < y.
Proof.
  cbn. destruct (Rlt_dec x y); split; intros;
    try discriminate; try reflexivity; try assumption; try contradiction.
Qed.

Lemma real_fltb_false (x y : R) : fltb x y = false <-> y <= x.
Proof.
  cbn. destruct (Rlt_dec x y); split; intros;
    try discriminate; try reflexivity; try lra.
Qed.

Lemma real_fleb_true (x y : R) : fleb x y = true <-> x <= y.
Proof.
  cbn. destruct (Rle_dec x y); split; intros;
    try discriminate; try reflexivity; try assumption; try contradiction.
Qed.

Lemma real_fleb_false (x y : R) : fleb x y = false <-> y < x.
Proof.
  cbn. destruct (Rle_dec x y); split; intros;
    try discriminate; try reflexivity; try lra.
Qed.

(** Both values the sphere test computes solve the quadratic. *)
Lemma real_root (a b c sd t : R) :
  0 < a -> sd * sd = b * b - 4 * a * c ->
  (t = (- b - sd) / (2 * a) \/ t = (- b + sd) / (2 * a)) ->
  a * t * t + b * t + c = 0.
Proof.
  intros Ha Hs [-> | ->].
  - assert (E : a * ((- b - sd) / (2 * a)) * ((- b - sd) / (2 * a))
                + b * ((- b - sd) / (2 * a)) + c
                = (sd * sd - (b * b - 4 * a * c)) / (4 * a)) by (field; lra).
    rewrite E, Hs. field. lra.
  - assert (E : a * ((- b + sd) / (2 * a)) * ((- b + sd) / (2 * a))
                + b * ((- b + sd) / (2 * a)) + c
                = (sd * sd - (b * b - 4 * a * c)) / (4 * a)) by (field; lra).
    rewrite E, Hs. field. lra.
Qed.

(** Of the two, [t0] is the smaller. *)
Lemma real_roots_ordered (ray : Ray R) (s : Sphere R) :
  0 < sphere_a ray -> 0 <= sphere_disc ray s ->
  sphere_t0 ray s <= sphere_t1 ray s.
Proof.
  intros Ha Hd. unfold sphere_t0, sphere_t1.
  cbn [fmul fsub fadd fdiv fneg fsqrt flit real_arith].
  pose proof (sqrt_pos (sphere_disc ray s)) as Hs.
  unfold Rdiv at 1 3. apply Rmult_le_compat_r; [|lra].
  left. apply Rinv_0_lt_compat. lra.
Qed.

(** In exact arithmetic a hit lies on the sphere, so normalising
    [hitPoint - center] divides it by the radius, unless the radius is so
    small that [normalize] takes its degenerate branch. *)
Lemma real_sphere_normal (ray : Ray R) (s : Sphere R) (t : R) (n : Vec3 R) :
  0 < sphere_a ray -> 0 < s_radius s ->
  1 / 100000000 < s_radius s * s_radius s ->
  intersect_sphere ray s = Some (t, n) ->
  sphere_t0 ray s <= sphere_t1 ray s
  /\ sphere_a ray * t * t + sphere_b ray s * t + sphere_c ray s = 0
  /\ n = vdiv (vsub (vadd (ray_o ray) (vscale (ray_d ray) t)) (s_center s))
              (s_radius s)
  /\ dot n n = 1.
Proof.
  intros Ha Hr Hr2 H. rewrite intersect_sphere_eq in H.
  destruct (fltb (sphere_disc ray s) (flit 0 1)) eqn:ED; [discriminate|].
  destruct (fltb (sphere_t0 ray s) t_eps && fltb (sphere_t1 ray s) t_eps);
    [discriminate|].
  injection H as Ht Hn.
  apply real_fltb_false in ED. cbn [flit real_arith] in ED.
  assert (HD : 0 <= sphere_disc ray s) by lra.
  assert (Hroot : sphere_a ray * t * t + sphere_b ray s * t + sphere_c ray s
                  = 0).
  { apply real_root with (sd := sqrt (sphere_disc ray s)); [assumption| |].
    - rewrite sqrt_sqrt by assumption. unfold sphere_disc.
      cbn [fmul fsub flit real_arith]. field.
    - subst t. unfold sphere_t, sphere_t0, sphere_t1.
      cbn [fmul fsub fadd fdiv fneg fsqrt flit real_arith].
      destruct (fltb _ _); [right|left]; f_equal; field. }
  split; [apply real_roots_ordered; assumption|].
  split; [assumption|].
  unfold sphere_hit_point in Hn. rewrite Ht in Hn.
  set (v := vsub (vadd (ray_o ray) (vscale (ray_d ray) t)) (s_center s)) in *.
  assert (Hlen : dot v v = s_radius s * s_radius s).
  { revert Hroot. unfold v, sphere_a, sphere_b, sphere_c, sphere_oc.
    destruct ray as [[ox oy oz] [dx dy dz]], s as [[cx cy cz] r col].
    cbn. intros Hroot.
    replace (2 / 1) with 2 in * by field. nra. }
  assert (Hsq : sqrt (dot v v) = s_radius s).
  { rewrite Hlen. apply sqrt_square. lra. }
  rewrite normalize_large in Hn.
  2:{ apply real_fleb_false. rewrite Hlen. cbn [flit real_arith]. lra. }
  cbn [fsqrt real_arith] in Hn. rewrite Hsq in Hn. subst n. split.
  - unfold vscale, vdiv. cbn [fmul fdiv flit real_arith]. f_equal; field; lra.
  - revert Hlen. destruct v as [x y z]. cbn. intros Hlen.
    assert (E : x * (1 / 1 / s_radius s) * (x * (1 / 1 / s_radius s))
                + y * (1 / 1 / s_radius s) * (y * (1 / 1 / s_radius s))
                + z * (1 / 1 / s_radius s) * (z * (1 / 1 / s_radius s))
                = (x * x + y * y + z * z) / (s_radius s * s_radius s))
      by (field; lra).
    rewrite E, Hlen. field. lra.
Qed.

End RealFacts.

(** C1, as the code has it. For every ray and sphere [intersect_sphere]
    misses exactly when the discriminant b*b - 4*a*c' is negative or both
    t0 = (-b - sqrt disc)/(2a) and t1 = (-b + sqrt disc)/(2a) are below 1e-4;
    otherwise it returns t0 when t0 is not below 1e-4 and t1 otherwise,
    together with normalize(hitPoint - center) at hitPoint = o + t*d. That
    normal is the zero vector when dot(hitPoint - center, hitPoint - center)
    <= 1e-8. In exact arithmetic, for a nonzero direction and a radius with
    r*r > 1e-8, t0 <= t1, t solves the quadratic and the normal is the unit
    vector (hitPoint - center)/r. *)
Theorem intersect_sphere_spec :
  (forall (F : Type) (SC : Scalar F) (ray : Ray F) (s : Sphere F),
      let t0 := sphere_t0 ray s in
      let t1 := sphere_t1 ray s in
      let t := if fltb t0 (flit 1 10000) then t1 else t0 in
      let hitPoint := vadd (ray_o ray) (vscale (ray_d ray) t) in
      intersect_sphere ray s
      = if fltb (sphere_disc ray s) (flit 0 1) then None
        else if fltb t0 (flit 1 10000) && fltb t1 (flit 1 10000) then None
        else Some (t, normalize (vsub hitPoint (s_center s))))
  /\ (forall (F : Type) (SC : Scalar F) (ray : Ray F) (s : Sphere F)
             (t : F) (n : Vec3 F),
         intersect_sphere ray s = Some (t, n) ->
         let w := vsub (vadd (ray_o ray) (vscale (ray_d ray) t)) (s_center s) in
         fleb (dot w w) (flit 1 100000000) = true ->
         n = vzero)
  /\ (forall (ray : Ray R) (s : Sphere R) (t : R) (n : Vec3 R),
         (0 < dot (ray_d ray) (ray_d ray))%R ->
         (0 < s_radius s)%R ->
         (1 / 100000000 < s_radius s * s_radius s)%R ->
         intersect_sphere ray s = Some (t, n) ->
         (sphere_t0 ray s <= sphere_t1 ray s)%R
         /\ (sphere_a ray * t * t + sphere_b ray s * t + sphere_c ray s
             = 0)%R
         /\ n = vdiv (vsub (vadd (ray_o ray) (vscale (ray_d ray) t))
                           (s_center s))
                     (s_radius s)
         /\ dot n n = 1%R).
Proof.
  split; [|split].
  - intros F SC ray s. cbv zeta. apply intersect_sphere_eq.
  - intros F SC ray s t n H. rewrite intersect_sphere_eq in H.
    destruct (fltb (sphere_disc ray s) (flit 0 1)); [discriminate|].
    destruct (fltb (sphere_t0 ray s) t_eps && fltb (sphere_t1 ray s) t_eps);
      [discriminate|].
    injection H as Ht Hn. unfold sphere_hit_point in Hn. rewrite Ht in Hn.
    cbv zeta. intros Hw. rewrite <- Hn. apply normalize_small. exact Hw.
  - intros ray s t n Ha Hr Hr2 H.
    apply real_sphere_normal; assumption.
Qed.

(** A sphere of radius 2^-14 at the origin, met by the ray from
    (0, 0, -2^-13) along +z: t0 = 2^-14 is below 1e-4, t1 = 3 * 2^-14 is
    not, the hit point is (0, 0, 2^-14) and its squared distance to the
    centre, 2^-28, is below 1e-8. *)
Definition tiny_sphere : Sphere float32 :=
  mkSphere (vec32 (0, 1) (0, 1) (0, 1)) (flit 1 16384) (vec32 (1, 1) (1, 1) (1, 1)).

Definition tiny_ray : Ray float32 :=
  mkRay (vec32 (0, 1) (0, 1) (-1, 8192)) (vec32 (0, 1) (0, 1) (1, 1)).

(** C1 fails as stated: on this hit the normal returned is the zero vector,
    not the unit vector (hitPoint - center)/r = (0, 0, 1). *)
Lemma intersect_sphere_normal_cex :
  exists (t : float32) (n : Vec3 float32),
    intersect_sphere tiny_ray tiny_sphere = Some (t, n)
    /\ t = flit 3 16384
    /\ n = vec32 (0, 1) (0, 1) (0, 1)
    /\ vdiv (vsub (vadd (ray_o tiny_ray) (vscale (ray_d tiny_ray) t))
                  (s_center tiny_sphere))
            (s_radius tiny_sphere)
       = vec32 (0, 1) (0, 1) (1, 1)
    /\ n <> vdiv (vsub (vadd (ray_o tiny_ray) (vscale (ray_d tiny_ray) t))
                       (s_center tiny_sphere))
                 (s_radius tiny_sphere).
Proof.
  exists (flit 3 16384), (vec32 (0, 1) (0, 1) (0, 1)).
  split; [vm_compute; reflexivity|].
  split; [reflexivity|]. split; [reflexivity|].
  split; [vm_compute; reflexivity|].
  vm_compute. discriminate.
Qed.

(** The unit sphere at the origin and the tangent ray from (1, 0, -5) along
    +z, in exact arithmetic. *)
Definition real_unit_sphere : Sphere R :=
  mkSphere (mkVec3 0%R 0%R 0%R) 1%R (mkVec3 1%R 1%R 1%R).

Definition real_tangent_ray : Ray R :=
  mkRay (mkVec3 1%R 0%R (-5)%R) (mkVec3 0%R 0%R 1%R).

Lemma real_tangent_hit :
  exists n : Vec3 R,
    intersect_sphere real_tangent_ray real_unit_sphere = Some (5%R, n).
Proof.
  assert (Hd : sphere_disc real_tangent_ray real_unit_sphere = 0%R).
  { cbv [sphere_disc sphere_a sphere_b sphere_c sphere_oc dot vsub
         real_tangent_ray real_unit_sphere ray_o ray_d s_center s_radius
         v_x v_y v_z fmul fadd fsub flit real_arith]. field. }
  assert (H0 : sphere_t0 real_tangent_ray real_unit_sphere = 5%R).
  { unfold sphere_t0. rewrite Hd. cbn [fsqrt real_arith]. rewrite sqrt_0.
    cbv [sphere_a sphere_b sphere_oc dot vsub
         real_tangent_ray real_unit_sphere ray_o ray_d s_center s_radius
         v_x v_y v_z fmul fadd fsub fdiv fneg flit real_arith]. field. }
  assert (Hlt : fltb (sphere_t0 real_tangent_ray real_unit_sphere) t_eps
                = false).
  { rewrite H0. apply real_fltb_false. cbv [t_eps flit real_arith]. lra. }
  eexists. rewrite intersect_sphere_eq. unfold sphere_t.
  rewrite Hd, Hlt, H0. cbn [andb].
  replace (fltb 0%R (flit 0 1)) with false; [reflexivity|].
  symmetry. apply real_fltb_false. cbv [flit real_arith]. lra.
Qed.

(** The theorem at the two inputs above. *)
Lemma intersect_sphere_spec_witness :
  (exists (t : float32),
      intersect_sphere tiny_ray tiny_sphere = Some (t, vzero))
  /\ (exists n : Vec3 R,
         intersect_sphere real_tangent_ray real_unit_sphere = Some (5%R, n)
         /\ dot n n = 1%R).
Proof.
  split.
  - exists (flit 3 16384).
    assert (H : intersect_sphere tiny_ray tiny_sphere
                = Some (flit 3 16384, vec32 (0, 1) (0, 1) (0, 1)))
      by (vm_compute; reflexivity).
    assert (Hz : vec32 (0, 1) (0, 1) (0, 1) = vzero).
    { apply (proj1 (proj2 intersect_sphere_spec) _ _ _ _ _ _ H).
      vm_compute. reflexivity. }
    rewrite H, Hz. reflexivity.
  - destruct real_tangent_hit as [n Hn]. exists n. split; [exact Hn|].
    apply (proj2 (proj2 intersect_sphere_spec) _ _ _ _) in Hn.
    + apply Hn.
    + cbv [real_tangent_ray ray_d dot v_x v_y v_z fmul fadd real_arith]. lra.
    + cbv [real_unit_sphere s_radius]. lra.
    + cbv [real_unit_sphere s_radius]. lra.
Defined.

(** ** The tracer: termination and the shape of its recursion *)

Definition root_depth (c : CallTree) : Z :=
  match c with Call depth _ _ => depth end.

(** An invocation either calls nothing, or it has shaded and calls [trace]
    once, one level deeper, from a depth below [kMaxDepth]. *)
Inductive bounded_calls : CallTree -> Prop :=
  | bounded_leaf : forall depth shaded, bounded_calls (Call depth shaded [])
  | bounded_step : forall depth sub,
      depth < kMaxDepth ->
      root_depth sub = depth + 1 ->
      bounded_calls sub ->
      bounded_calls (Call depth true [sub]).

Lemma shade_count_leaf (depth : Z) (shaded : bool) :
  shade_count (Call depth shaded []) = if shaded then 1%nat else 0%nat.
Proof. destruct shaded; reflexivity. Qed.

Lemma shade_count_step (depth : Z) (sub : CallTree) :
  shade_count (Call depth true [sub]) = S (shade_count sub).
Proof. cbn. lia. Qed.

Section TraceFacts.

Context {F : Type} {SC : Scalar F} {LM : Libm F}.
Local Open Scope sc_scope.

(** A hit that sends a reflected ray. *)
Definition reflective (h : Hit F) : bool :=
  hit h && (hitReflectivity h >? flit 0 1).

Lemma trace_fuel_S (n : nat) (sc : Scene F) (ray : Ray F) (depth : Z) :
  trace_fuel (S n) sc ray depth =
  let h := nearest_hit sc ray in
  if negb (hit h) then Some (background, Call depth false [])
  else if (depth <? kMaxDepth)%Z && (hitReflectivity h >? flit 0 1) then
    match trace_fuel n sc (reflected_ray ray h) (depth + 1) with
    | None => None
    | Some (reflColor, sub) =>
        Some (clamp01 (vadd (smul (flit 1 1 - hitReflectivity h)
                                  (local_color sc ray h))
                            (smul (hitReflectivity h) reflColor)),
              Call depth true [sub])
    end
  else Some (clamp01 (local_color sc ray h), Call depth true []).
Proof. reflexivity. Qed.

Lemma trace_fuel_some (n : nat) :
  forall (sc : Scene F) (ray : Ray F) (depth : Z),
    (Z.to_nat (kMaxDepth - depth) < n)%nat ->
    exists r, trace_fuel n sc ray depth = Some r.
Proof.
  induction n as [|n IH]; intros sc ray depth Hn; [lia|].
  rewrite trace_fuel_S. cbv zeta.
  destruct (negb (hit (nearest_hit sc ray))); [eauto|].
  destruct (depth <? kMaxDepth)%Z eqn:Ed; cbn [andb]; [|eauto].
  destruct (hitReflectivity (nearest_hit sc ray) >? flit 0 1); [|eauto].
  apply Z.ltb_lt in Ed.
  destruct (IH sc (reflected_ray ray (nearest_hit sc ray)) (depth + 1)%Z)
    as [[c sub] E]; [lia|].
  rewrite E. eauto.
Qed.

Lemma trace_fuel_mono (n : nat) :
  forall (sc : Scene F) (ray : Ray F) (depth : Z) r (m : nat),
    trace_fuel n sc ray depth = Some r -> (n <= m)%nat ->
    trace_fuel m sc ray depth = Some r.
Proof.
  induction n as [|n IH]; intros sc ray depth r m H Hm; [discriminate|].
  destruct m as [|m]; [lia|].
  rewrite trace_fuel_S in *. cbv zeta in *.
  destruct (negb (hit (nearest_hit sc ray))); [assumption|].
  destruct ((depth <? kMaxDepth)%Z
            && (hitReflectivity (nearest_hit sc ray) >? flit 0 1));
    [|assumption].
  destruct (trace_fuel n sc _ (depth + 1)%Z) as [r'|] eqn:E; [|discriminate].
  rewrite (IH _ _ _ _ m E) by lia. assumption.
Qed.

Lemma trace_fuel_tree (n : nat) :
  forall (sc : Scene F) (ray : Ray F) (depth : Z) c tr,
    trace_fuel n sc ray depth = Some (c, tr) ->
    root_depth tr = depth /\ bounded_calls tr
    /\ (shade_count tr <= Z.to_nat (kMaxDepth - depth) + 1)%nat.
Proof.
  induction n as [|n IH]; intros sc ray depth c tr H; [discriminate|].
  rewrite trace_fuel_S in H. cbv zeta in H.
  destruct (negb (hit (nearest_hit sc ray))).
  { injection H as _ <-. rewrite shade_count_leaf.
    split; [reflexivity|]. split; [apply bounded_leaf | lia]. }
  destruct (depth <? kMaxDepth)%Z eqn:Ed; cbn [andb] in H.
  2:{ injection H as _ <-. rewrite shade_count_leaf.
    split; [reflexivity|]. split; [apply bounded_leaf | lia]. }
  destruct (hitReflectivity (nearest_hit sc ray) >? flit 0 1).
  2:{ injection H as _ <-. rewrite shade_count_leaf.
    split; [reflexivity|]. split; [apply bounded_leaf | lia]. }
  apply Z.ltb_lt in Ed.
  destruct (trace_fuel n sc _ (depth + 1)%Z) as [[c' sub]|] eqn:E;
    [|discriminate].
  injection H as _ <-.
  destruct (IH _ _ _ _ _ E) as (Hd & Hb & Hc).
  rewrite shade_count_step. split; [reflexivity|]. split.
  - apply bounded_step; assumption.
  - unfold kMaxDepth in *. lia.
Qed.

Lemma trace_run_total (sc : Scene F) (ray : Ray F) (depth : Z) :
  exists c tr, trace_run sc ray depth = Some (c, tr)
               /\ trace sc ray depth = c.
Proof.
  destruct (trace_fuel_some (trace_budget depth) sc ray depth) as [[c tr] E].
  { unfold trace_budget. lia. }
  exists c, tr. split; [exact E|]. unfold trace, trace_run. rewrite E.
  reflexivity.
Qed.

(** The loops of [trace] leave their state alone on a miss. *)
Lemma sphere_loop_miss (ray : Ray F) (l : list (Sphere F)) (st : Hit F) :
  (forall s, In s l -> intersect_sphere ray s = None) ->
  fold_left (sphere_step ray) l st = st.
Proof.
  revert st. induction l as [|s l IH]; intros st H; [reflexivity|].
  cbn [fold_left]. unfold sphere_step at 2.
  rewrite (H s) by (left; reflexivity).
  apply IH. intros s' Hs'. apply H. right. exact Hs'.
Qed.

Lemma plane_loop_miss (ray : Ray F) (l : list (Plane F)) (st : Hit F) :
  (forall pl, In pl l -> intersect_plane ray pl = None) ->
  fold_left (plane_step ray) l st = st.
Proof.
  revert st. induction l as [|pl l IH]; intros st H; [reflexivity|].
  cbn [fold_left]. unfold plane_step at 2.
  rewrite (H pl) by (left; reflexivity).
  apply IH. intros pl' Hpl'. apply H. right. exact Hpl'.
Qed.

Lemma nearest_hit_miss (sc : Scene F) (ray : Ray F) :
  (forall s, In s (g_spheres sc) -> intersect_sphere ray s = None) ->
  (forall pl, In pl (g_planes sc) -> intersect_plane ray pl = None) ->
  nearest_hit sc ray = no_hit.
Proof.
  intros Hs Hp. unfold nearest_hit.
  rewrite sphere_loop_miss by assumption. apply plane_loop_miss. assumption.
Qed.

End TraceFacts.

(** C5. When no sphere and no plane of the scene reports an intersection
    with the ray, [trace] returns the background colour (0.2, 0.3, 0.5), at
    every depth; and [trace] always returns a colour: with the fuel of
    [trace_budget], and with any larger fuel, the run ends in a result. *)
Theorem trace_background :
  forall (F : Type) (SC : Scalar F) (LM : Libm F)
         (sc : Scene F) (ray : Ray F) (depth : Z),
    (exists c tr,
        trace_run sc ray depth = Some (c, tr)
        /\ trace sc ray depth = c
        /\ forall fuel, (trace_budget depth <= fuel)%nat ->
                        trace_fuel fuel sc ray depth = Some (c, tr))
    /\ ((forall s, In s (g_spheres sc) -> intersect_sphere ray s = None) ->
        (forall pl, In pl (g_planes sc) -> intersect_plane ray pl = None) ->
        trace sc ray depth
        = mkVec3 (flit 2 10) (flit 3 10) (flit 5 10)).
Proof.
  intros F SC LM sc ray depth. split.
  - destruct (trace_run_total sc ray depth) as (c & tr & E & Et).
    exists c, tr. repeat split; try assumption.
    intros fuel Hf. apply (trace_fuel_mono _ _ _ _ _ _ E Hf).
  - intros Hs Hp. unfold trace, trace_run, trace_budget.
    rewrite trace_fuel_S. cbv zeta.
    rewrite (nearest_hit_miss sc ray Hs Hp). reflexivity.
Qed.

(** A ray from the middle of the room through the missing front wall. *)
Definition front_ray : Ray float32 :=
  mkRay (vec32 (25, 10) (15, 10) (25, 10)) (vec32 (0, 1) (0, 1) (1, 1)).

Lemma trace_background_witness :
  trace (LM := sample_libm) room front_ray 0 = vec32 (2, 10) (3, 10) (5, 10).
Proof.
  apply (proj2 (trace_background float32 binary32 sample_libm room front_ray 0)).
  - intros s [<-|[<-|[]]]; vm_compute; reflexivity.
  - intros pl [<-|[<-|[<-|[<-|[<-|[]]]]]]; vm_compute; reflexivity.
Defined.

(** C6. An invocation of [trace] calls [trace] at most once, at depth + 1,
    and not at all from depth >= kMaxDepth = 2; every run ends; a run from
    depth 0 evaluates [shade] at most 3 times, and exactly 3 times when the
    ray and its two successive reflections each hit, the first two hits
    being reflective. *)
Theorem trace_depth_bounded :
  forall (F : Type) (SC : Scalar F) (LM : Libm F) (sc : Scene F) (ray : Ray F),
    (forall depth : Z,
        exists c tr,
          trace_run sc ray depth = Some (c, tr)
          /\ root_depth tr = depth
          /\ bounded_calls tr
          /\ (shade_count tr <= Z.to_nat (kMaxDepth - depth) + 1)%nat)
    /\ (exists c tr,
           trace_run sc ray 0 = Some (c, tr) /\ (shade_count tr <= 3)%nat)
    /\ (let h0 := nearest_hit sc ray in
        let ray1 := reflected_ray ray h0 in
        let h1 := nearest_hit sc ray1 in
        let ray2 := reflected_ray ray1 h1 in
        let h2 := nearest_hit sc ray2 in
        reflective h0 = true -> reflective h1 = true -> hit h2 = true ->
        exists c tr,
          trace_run sc ray 0 = Some (c, tr)
          /\ shade_count tr = Z.to_nat (kMaxDepth + 1)).
Proof.
  intros F SC LM sc ray. split; [|split].
  - intros depth.
    destruct (trace_run_total sc ray depth) as (c & tr & E & _).
    exists c, tr. split; [exact E|]. exact (trace_fuel_tree _ _ _ _ _ _ E).
  - destruct (trace_run_total sc ray 0) as (c & tr & E & _).
    exists c, tr. split; [exact E|].
    destruct (trace_fuel_tree _ _ _ _ _ _ E) as (_ & _ & H). exact H.
  - cbv zeta. unfold reflective. intros H0 H1 H2.
    apply andb_true_iff in H0. destruct H0 as [H0 R0].
    apply andb_true_iff in H1. destruct H1 as [H1 R1].
    unfold trace_run, trace_budget.
    change (S (Z.to_nat (kMaxDepth - 0))) with 3%nat.
    rewrite trace_fuel_S. cbv zeta. rewrite H0, R0.
    change ((0 <? kMaxDepth)%Z) with true. cbn [negb andb].
    rewrite trace_fuel_S. cbv zeta. rewrite H1, R1.
    change ((0 + 1 <? kMaxDepth)%Z) with true. cbn [negb andb].
    rewrite trace_fuel_S. cbv zeta. rewrite H2.
    change ((0 + 1 + 1 <? kMaxDepth)%Z) with false. cbn [negb andb].
    eexists. eexists. split; reflexivity.
Qed.

(** From the middle of the room straight down: the floor, then the
    ceiling, then the floor again. *)
Definition down_ray : Ray float32 :=
  mkRay (vec32 (25, 10) (15, 10) (25, 10)) (vec32 (0, 1) (-1, 1) (0, 1)).

Lemma trace_depth_bounded_witness :
  exists c tr,
    trace_run (LM := sample_libm) room down_ray 0 = Some (c, tr)
    /\ shade_count tr = 3%nat.
Proof.
  apply (proj2 (proj2 (trace_depth_bounded float32 binary32 sample_libm
                         room down_ray)));
    vm_compute; reflexivity.
Defined.

Example down_ray_calls :
  option_map snd (trace_run (LM := sample_libm) room down_ray 0)
  = Some (Call 0 true [Call 1 true [Call 2 true []]]).
Proof. vm_compute. reflexivity. Qed.

(** ** The mirror direction *)

Section RealMirror.

Local Open Scope R_scope.

(** In exact arithmetic, with a unit normal, [reflect_dir] is the mirror
    image of [d] rescaled to unit length. *)
Lemma real_mirror (d n : Vec3 R) :
  1 / 100000000 < dot d d -> dot n n = 1 ->
  dot (reflect_dir d n) n * length d = - dot d n
  /\ length (reflect_dir d n) = 1.
Proof.
  intros Hd Hn.
  set (m := vsub d (smul (fmul (flit 2 1) (dot d n)) n)).
  assert (Hmm : dot m m = dot d d).
  { revert Hn. unfold m. destruct d as [dx dy dz], n as [nx ny nz]. cbn.
    intros Hn. replace (2 / 1) with 2 by field.
    set (k := dx * nx + dy * ny + dz * nz).
    transitivity (dx * dx + dy * dy + dz * dz - 4 * k * k
                  + 4 * k * k * (nx * nx + ny * ny + nz * nz)).
    - unfold k. ring.
    - rewrite Hn. ring. }
  assert (Hmn : dot m n = - dot d n).
  { revert Hn. unfold m. destruct d as [dx dy dz], n as [nx ny nz]. cbn.
    intros Hn. replace (2 / 1) with 2 by field.
    set (k := dx * nx + dy * ny + dz * nz).
    transitivity (k - 2 * k * (nx * nx + ny * ny + nz * nz)).
    - unfold k. ring.
    - rewrite Hn. ring. }
  assert (HL : 0 < sqrt (dot d d)) by (apply sqrt_lt_R0; lra).
  assert (HLL : sqrt (dot d d) * sqrt (dot d d) = dot d d)
    by (apply sqrt_sqrt; lra).
  unfold reflect_dir. fold m. rewrite normalize_large.
  2:{ apply real_fleb_false. rewrite Hmm. cbn [flit real_arith]. lra. }
  rewrite Hmm. cbn [fsqrt fdiv flit real_arith]. unfold length.
  cbn [fsqrt real_arith].
  set (L := sqrt (dot d d)) in *.
  split.
  - transitivity (dot m n * (1 / L * L)).
    + destruct m as [mx my mz], n as [nx ny nz]. cbn. field. lra.
    + rewrite Hmn. field. lra.
  - replace (dot (vscale m (1 / 1 / L)) (vscale m (1 / 1 / L))) with 1.
    + apply sqrt_1.
    + transitivity (dot m m / (L * L)).
      * rewrite Hmm, HLL. field. lra.
      * destruct m as [mx my mz]. cbn. field. lra.
Qed.

End RealMirror.

(** C9, in exact arithmetic. For a unit normal n and an incoming direction
    d of unit length, as every [Ray.d] is, the direction
    normalize(d - 2*dot(d,n)*n) satisfies dot(reflect(d,n), n) = -dot(d,n)
    and |reflect(d,n)| = |d|. For a d of another length with
    dot(d,d) > 1e-8 it still has unit length, and
    dot(reflect(d,n), n) * |d| = -dot(d,n). *)
Theorem reflect_dir_mirror :
  forall d n : Vec3 R,
    dot n n = 1%R ->
    ((1 / 100000000 < dot d d)%R ->
     (dot (reflect_dir d n) n * length d)%R = fneg (dot d n)
     /\ length (reflect_dir d n) = 1%R)
    /\ (dot d d = 1%R ->
        dot (reflect_dir d n) n = fneg (dot d n)
        /\ length (reflect_dir d n) = length d).
Proof.
  intros d n Hn. split.
  - intros Hd. apply real_mirror; assumption.
  - intros Hd.
    destruct (real_mirror d n) as [H1 H2]; [rewrite Hd; lra | assumption |].
    assert (Hl : length d = 1%R).
    { unfold length. rewrite Hd. cbn [fsqrt real_arith]. apply sqrt_1. }
    rewrite Hl in *. split; [|assumption].
    cbn [fneg real_arith]. lra.
Qed.

(** Straight down onto the floor, in exact arithmetic. *)
Lemma reflect_dir_mirror_witness :
  dot (reflect_dir (mkVec3 0%R (-1)%R 0%R) (mkVec3 0%R 1%R 0%R))
      (mkVec3 0%R 1%R 0%R)
  = fneg (dot (mkVec3 0%R (-1)%R 0%R) (mkVec3 0%R 1%R 0%R))
  /\ length (reflect_dir (mkVec3 0%R (-1)%R 0%R) (mkVec3 0%R 1%R 0%R))
     = length (mkVec3 0%R (-1)%R 0%R).
Proof.
  apply (reflect_dir_mirror (mkVec3 0%R (-1)%R 0%R) (mkVec3 0%R 1%R 0%R)).
  - cbn. lra.
  - cbn. lra.
Defined.

(** A ray that meets the floor at (0.5, 0, 1), in the shadow of the red
    sphere, and leaves through the missing front wall after the bounce. *)
Definition shadow_ray : Ray float32 :=
  mkRay (vec32 (5, 10) (3, 10) (1, 10))
        (normalize (vec32 (0, 1) (-1, 1) (3, 1))).

(** C9 fails in binary32, on a direction built by [normalize]. The
    direction d of [shadow_ray] is normalize(0, -1, 3); the ray meets the
    floor, whose normal n = (0, 1, 0) has dot(n, n) = 1 exactly, with
    reflectivity 0.05 at depth 0, so [trace] computes the mirror direction
    of d at n. There dot(reflect, n) = 10610844 * 2^-25, one unit in the
    last place above -dot(d, n) = 10610843 * 2^-25, and |reflect| = 1 while
    |d| = 1 - 2^-24: the rounded dot(d, d) is not 1, and [normalize] rescales
    the mirror vector. *)
Lemma reflect_dir_mirror_cex :
  let d := ray_d shadow_ray in
  let h := nearest_hit room shadow_ray in
  let n := hitNormal h in
  d = normalize (vec32 (0, 1) (-1, 1) (3, 1))
  /\ hit h = true
  /\ n = vec32 (0, 1) (1, 1) (0, 1)
  /\ dot n n = flit 1 1
  /\ ray_d (reflected_ray shadow_ray h) = reflect_dir d n
  /\ dot (reflect_dir d n) n = S754_finite false 10610844 (-25)
  /\ fneg (dot d n) = S754_finite false 10610843 (-25)
  /\ length (reflect_dir d n) = flit 1 1
  /\ length d = S754_finite false 16777215 (-24)
  /\ dot (reflect_dir d n) n <> fneg (dot d n)
  /\ length (reflect_dir d n) <> length d.
Proof.
  cbv zeta. repeat split; try (vm_compute; reflexivity);
    vm_compute; discriminate.
Qed.

(** ** The divisions of the kernel

    The three functions that divide, once more, each returning its result
    together with the divisors of the divisions it executed, in program
    order. *)

Section Divisions.

Context {F : Type} {SC : Scalar F}.
Local Open Scope sc_scope.

Definition Logged (A : Type) : Type := (A * list F)%type.

Definition ret {A : Type} (a : A) : Logged A := (a, []).

Definition bind {A B : Type} (m : Logged A) (k : A -> Logged B) : Logged B :=
  let '(a, l) := m in
  let '(b, l') := k a in
  (b, l ++ l').

Definition divide (x y : F) : Logged F := (x / y, [y]).

Notation "x <- m ;; k" := (bind m (fun x => k))
  (at level 61, m at next level, right associativity).

Definition normalize_div (v : Vec3 F) : Logged (Vec3 F) :=
  let len2 := dot v v in
  if len2 <=? flit 1 100000000 then
    ret (mkVec3 (flit 0 1) (flit 0 1) (flit 0 1))
  else
    inv <- divide (flit 1 1) (fsqrt len2) ;;
    ret (vscale v inv).

Definition intersect_sphere_div (ray : Ray F) (s : Sphere F)
  : Logged (option (F * Vec3 F)) :=
  let oc := vsub (ray_o ray) (s_center s) in
  let a := dot (ray_d ray) (ray_d ray) in
  let b := flit 2 1 * dot oc (ray_d ray) in
  let c := dot oc oc - s_radius s * s_radius s in
  let disc := b * b - flit 4 1 * a * c in
  if disc <? flit 0 1 then ret None
  else
    let sqrt_disc := fsqrt disc in
    t0 <- divide (- b - sqrt_disc) (flit 2 1 * a) ;;
    t1 <- divide (- b + sqrt_disc) (flit 2 1 * a) ;;
    let t_hit := t0 in
    let t_hit := if t_hit <? flit 1 10000 then t1 else t_hit in
    if t_hit <? flit 1 10000 then ret None
    else
      let hitPoint := vadd (ray_o ray) (vscale (ray_d ray) t_hit) in
      normal <- normalize_div (vsub hitPoint (s_center s)) ;;
      ret (Some (t_hit, normal)).

Definition intersect_plane_div (ray : Ray F) (pl : Plane F)
  : Logged (option (F * Vec3 F)) :=
  let denom := dot (pl_n pl) (ray_d ray) in
  if fabs denom <? flit 1 1000000 then ret None
  else
    let num := - (dot (pl_n pl) (ray_o ray) + pl_d pl) in
    t_hit <- divide num denom ;;
    if t_hit <? flit 1 10000 then ret None
    else
      let hitPoint := vadd (ray_o ray) (vscale (ray_d ray) t_hit) in
      if outside_room hitPoint then ret None
      else ret (Some (t_hit, pl_n pl)).

(** Dropping the record gives back the functions of the kernel. *)
Lemma normalize_div_value (v : Vec3 F) : fst (normalize_div v) = normalize v.
Proof.
  unfold normalize_div, normalize.
  destruct (dot v v <=? flit 1 100000000); reflexivity.
Qed.

Lemma normalize_div_log (v : Vec3 F) :
  snd (normalize_div v)
  = if dot v v <=? flit 1 100000000 then [] else [fsqrt (dot v v)].
Proof.
  unfold normalize_div.
  destruct (dot v v <=? flit 1 100000000); reflexivity.
Qed.

Lemma intersect_plane_div_value (ray : Ray F) (pl : Plane F) :
  fst (intersect_plane_div ray pl) = intersect_plane ray pl.
Proof.
  unfold intersect_plane_div, intersect_plane, plane_t, plane_num, plane_denom.
  destruct (fabs (dot (pl_n pl) (ray_d ray)) <? flit 1 1000000);
    [reflexivity|].
  cbn [divide bind ret]. fold (@t_eps F SC).
  destruct (_ <? t_eps); [reflexivity|].
  destruct (outside_room _); reflexivity.
Qed.

Lemma intersect_plane_div_log (ray : Ray F) (pl : Plane F) :
  snd (intersect_plane_div ray pl)
  = if fabs (dot (pl_n pl) (ray_d ray)) <? flit 1 1000000 then []
    else [dot (pl_n pl) (ray_d ray)].
Proof.
  unfold intersect_plane_div.
  destruct (fabs (dot (pl_n pl) (ray_d ray)) <? flit 1 1000000);
    [reflexivity|].
  cbn [divide bind ret].
  destruct (_ <? flit 1 10000); [reflexivity|].
  destruct (outside_room _); reflexivity.
Qed.

Lemma intersect_sphere_div_value (ray : Ray F) (s : Sphere F) :
  fst (intersect_sphere_div ray s) = intersect_sphere ray s.
Proof.
  unfold intersect_sphere_div, intersect_sphere.
  fold (sphere_oc ray s). fold (sphere_a ray). fold (sphere_b ray s).
  fold (sphere_c ray s). fold (sphere_disc ray s).
  destruct (sphere_disc ray s <? flit 0 1); [reflexivity|].
  cbn [divide bind ret].
  fold (sphere_t0 ray s). fold (sphere_t1 ray s). fold (@t_eps F SC).
  destruct ((if sphere_t0 ray s <? t_eps then sphere_t1 ray s
             else sphere_t0 ray s) <? t_eps); [reflexivity|].
  pose proof (normalize_div_value
                (vsub (vadd (ray_o ray)
                            (vscale (ray_d ray)
                                    (if sphere_t0 ray s <? t_eps
                                     then sphere_t1 ray s
                                     else sphere_t0 ray s)))
                      (s_center s))) as E.
  destruct (normalize_div _) as [nv l]. cbn [fst] in E. rewrite <- E.
  reflexivity.
Qed.

(** Past the discriminant test the two divisions by [2 * a] are executed
    whatever [a] is. *)
Lemma intersect_sphere_div_log (ray : Ray F) (s : Sphere F) :
  if sphere_disc ray s <? flit 0 1
  then snd (intersect_sphere_div ray s) = []
  else exists rest,
      snd (intersect_sphere_div ray s)
      = (flit 2 1 * sphere_a ray) :: (flit 2 1 * sphere_a ray) :: rest.
Proof.
  unfold intersect_sphere_div.
  fold (sphere_oc ray s). fold (sphere_a ray). fold (sphere_b ray s).
  fold (sphere_c ray s). fold (sphere_disc ray s).
  destruct (sphere_disc ray s <? flit 0 1); [reflexivity|].
  cbn [divide bind ret].
  destruct (_ <? flit 1 10000).
  - exists []. reflexivity.
  - destruct (normalize_div _) as [nv l]. exists (l ++ []). reflexivity.
Qed.

End Divisions.

(** The guards in exact arithmetic. *)
Lemma real_normalize_div_guard (v : Vec3 R) (x : R) :
  In x (snd (normalize_div v)) ->
  (1 / 100000000 < dot v v)%R /\ x = sqrt (dot v v) /\ x <> 0%R.
Proof.
  rewrite normalize_div_log.
  destruct (fleb (dot v v) (flit 1 100000000)) eqn:E; [intros []|].
  intros [<-|[]]. apply real_fleb_false in E. cbn [flit real_arith] in E.
  split; [exact E|]. split; [reflexivity|]. cbn [fsqrt real_arith].
  assert (0 < sqrt (dot v v))%R by (apply sqrt_lt_R0; lra). lra.
Qed.

Lemma real_plane_div_guard (ray : Ray R) (pl : Plane R) (x : R) :
  In x (snd (intersect_plane_div ray pl)) ->
  (1 / 1000000 <= Rabs (dot (pl_n pl) (ray_d ray)))%R
  /\ x = dot (pl_n pl) (ray_d ray) /\ x <> 0%R.
Proof.
  rewrite intersect_plane_div_log.
  destruct (fltb (fabs (dot (pl_n pl) (ray_d ray))) (flit 1 1000000)) eqn:E;
    [intros []|].
  intros [<-|[]]. apply real_fltb_false in E.
  cbn [flit fabs real_arith] in E.
  split; [exact E|]. split; [reflexivity|].
  intros Hz. rewrite Hz, Rabs_R0 in E. lra.
Qed.

(** In binary32 a divisor of [intersect_plane] is neither zero. *)
Lemma b32_plane_div_nonzero (ray : Ray float32) (pl : Plane float32)
      (x : float32) :
  In x (snd (intersect_plane_div ray pl)) ->
  x = dot (pl_n pl) (ray_d ray) /\ forall sign, x <> S754_zero sign.
Proof.
  rewrite intersect_plane_div_log.
  destruct (fltb (fabs (dot (pl_n pl) (ray_d ray))) (flit 1 1000000)) eqn:E;
    [intros []|].
  intros [<-|[]]. split; [reflexivity|].
  intros sign Hz. rewrite Hz in E. destruct sign; discriminate E.
Qed.

(** A ray with the zero direction from the centre of a unit sphere: the
    discriminant is +0, so both divisions run, with divisor 2 * 0 = +0. *)
Definition still_ray : Ray float32 :=
  mkRay (vec32 (0, 1) (0, 1) (0, 1)) (vec32 (0, 1) (0, 1) (0, 1)).

Definition unit_sphere : Sphere float32 :=
  mkSphere (vec32 (0, 1) (0, 1) (0, 1)) (flit 1 1) (vec32 (1, 1) (1, 1) (1, 1)).

(** C10. [normalize] divides only past its guard [len2 <= 1e-8f], by
    sqrt(len2), and returns the zero vector when the guard holds;
    [intersect_plane] divides only past its guard [fabs(denom) < 1e-6f], by
    denom, which is then not zero; [intersect_sphere] divides twice by 2*a
    as soon as the discriminant is not negative, with no test on a: for a
    direction with dot(d,d) = 1 the divisor is 2, and for the zero direction
    the division by zero is reached. In exact arithmetic the guards read
    dot(v,v) > 1e-8 and |dot(n,d)| >= 1e-6. *)
Theorem divisions_guarded :
  (forall (F : Type) (SC : Scalar F) (v : Vec3 F),
      fst (normalize_div v) = normalize v
      /\ snd (normalize_div v)
         = (if fleb (dot v v) (flit 1 100000000) then []
            else [fsqrt (dot v v)])
      /\ (fleb (dot v v) (flit 1 100000000) = true -> normalize v = vzero))
  /\ (forall (F : Type) (SC : Scalar F) (ray : Ray F) (pl : Plane F),
         fst (intersect_plane_div ray pl) = intersect_plane ray pl
         /\ snd (intersect_plane_div ray pl)
            = (if fltb (fabs (dot (pl_n pl) (ray_d ray))) (flit 1 1000000)
               then [] else [dot (pl_n pl) (ray_d ray)]))
  /\ (forall (F : Type) (SC : Scalar F) (ray : Ray F) (s : Sphere F),
         fst (intersect_sphere_div ray s) = intersect_sphere ray s
         /\ (fltb (sphere_disc ray s) (flit 0 1) = false ->
             exists rest,
               snd (intersect_sphere_div ray s)
               = fmul (flit 2 1) (dot (ray_d ray) (ray_d ray))
                 :: fmul (flit 2 1) (dot (ray_d ray) (ray_d ray)) :: rest))
  /\ (forall (v : Vec3 R) (x : R),
         In x (snd (normalize_div v)) ->
         (1 / 100000000 < dot v v)%R /\ x = sqrt (dot v v) /\ x <> 0%R)
  /\ (forall (ray : Ray R) (pl : Plane R) (x : R),
         In x (snd (intersect_plane_div ray pl)) ->
         (1 / 1000000 <= Rabs (dot (pl_n pl) (ray_d ray)))%R
         /\ x = dot (pl_n pl) (ray_d ray) /\ x <> 0%R)
  /\ (forall (ray : Ray float32) (pl : Plane float32) (x : float32),
         In x (snd (intersect_plane_div ray pl)) ->
         x = dot (pl_n pl) (ray_d ray) /\ forall sign, x <> S754_zero sign)
  /\ (forall (ray : Ray float32),
         dot (ray_d ray) (ray_d ray) = flit 1 1 ->
         fmul (flit 2 1) (dot (ray_d ray) (ray_d ray))
         = S754_finite false 8388608 (-22))
  /\ (forall (ray : Ray R),
         dot (ray_d ray) (ray_d ray) = 1%R ->
         fmul (flit 2 1) (dot (ray_d ray) (ray_d ray)) = 2%R)
  /\ (ray_d still_ray = vzero
      /\ snd (intersect_sphere_div still_ray unit_sphere)
         = [S754_zero false; S754_zero false; S754_nan]
      /\ exists n, intersect_sphere still_ray unit_sphere = Some (S754_nan, n)).
Proof.
  split.
  { intros F SC v. split; [apply normalize_div_value|].
    split; [apply normalize_div_log | apply normalize_small]. }
  split.
  { intros F SC ray pl.
    split; [apply intersect_plane_div_value | apply intersect_plane_div_log]. }
  split.
  { intros F SC ray s. split; [apply intersect_sphere_div_value|].
    intros H. pose proof (intersect_sphere_div_log ray s) as L.
    rewrite H in L. exact L. }
  split; [exact real_normalize_div_guard|].
  split; [exact real_plane_div_guard|].
  split; [exact b32_plane_div_nonzero|].
  split.
  { intros ray H. rewrite H. vm_compute. reflexivity. }
  split.
  { intros ray H. rewrite H. cbn [fmul flit real_arith]. field. }
  split; [reflexivity|]. split; [vm_compute; reflexivity|].
  eexists. vm_compute. reflexivity.
Qed.

Lemma divisions_guarded_witness :
  fmul (flit 2 1) (dot (ray_d front_ray) (ray_d front_ray))
  = S754_finite false 8388608 (-22).
Proof.
  apply (proj1 (proj2 (proj2 (proj2 (proj2 (proj2 (proj2
           divisions_guarded))))))).
  vm_compute. reflexivity.
Defined.

(** ** The shading engine *)

(** Two binary32 values are the same number: identical, or equal under the
    comparison of C++ (which identifies +0 and -0). *)
Definition b32_same (x y : float32) : Prop := x = y \/ SFeqb x y = true.

Definition vec_same (u v : Vec3 float32) : Prop :=
  b32_same (v_x u) (v_x v) /\ b32_same (v_y u) (v_y v)
  /\ b32_same (v_z u) (v_z v).

Definition no_negative_zero (v : Vec3 float32) : Prop :=
  v_x v <> S754_zero true /\ v_y v <> S754_zero true
  /\ v_z v <> S754_zero true.

Section ShadeFacts.

Context {F : Type} {SC : Scalar F} {LM : Libm F}.
Local Open Scope sc_scope.

Lemma occludes_true (limit : F) (h : option (F * Vec3 F)) :
  occludes limit h = true <->
  exists t n, h = Some (t, n) /\ (t <? limit) = true.
Proof.
  destruct h as [[t n]|]; cbn [occludes]; split.
  - intros H. exists t, n. split; [reflexivity | exact H].
  - intros (t' & n' & E & H). injection E as -> ->. exact H.
  - discriminate.
  - intros (t' & n' & E & _). discriminate.
Qed.

(** The point is in shadow exactly when some sphere or some plane occludes
    the shadow ray. *)
Lemma in_shadow_true (sc : Scene F) (hitPoint normal : Vec3 F) :
  let L := normalize (vsub (g_lightPos sc) hitPoint) in
  let lightDist := length (vsub (g_lightPos sc) hitPoint) in
  let shadowRay := mkRay (vadd hitPoint (vscale normal (flit 1 1000))) L in
  in_shadow sc hitPoint normal = true <->
  (exists s t n, In s (g_spheres sc)
                 /\ intersect_sphere shadowRay s = Some (t, n)
                 /\ (t <? lightDist - flit 1 1000) = true)
  \/ (exists pl t n, In pl (g_planes sc)
                     /\ intersect_plane shadowRay pl = Some (t, n)
                     /\ (t <? lightDist - flit 1 1000) = true).
Proof.
  cbv zeta. unfold in_shadow.
  set (ray := mkRay _ _). set (lim := _ - flit 1 1000).
  destruct (existsb (fun s => occludes lim (intersect_sphere ray s))
                    (g_spheres sc)) eqn:Es; cbn [negb]; split.
  - intros _. left. apply existsb_exists in Es. destruct Es as (s & Hs & Ho).
    apply occludes_true in Ho. destruct Ho as (t & n & E & Ht).
    exists s, t, n. auto.
  - reflexivity.
  - intros Ep. right. apply existsb_exists in Ep.
    destruct Ep as (pl & Hpl & Ho).
    apply occludes_true in Ho. destruct Ho as (t & n & E & Ht).
    exists pl, t, n. auto.
  - intros [(s & t & n & Hs & E & Ht) | (pl & t & n & Hpl & E & Ht)].
    + assert (X : existsb (fun s => occludes lim (intersect_sphere ray s))
                          (g_spheres sc) = true).
      { apply existsb_exists. exists s. split; [exact Hs|].
        apply occludes_true. exists t, n. auto. }
      rewrite X in Es. discriminate.
    + apply existsb_exists. exists pl. split; [exact Hpl|].
      apply occludes_true. exists t, n. auto.
Qed.

(** [shade], by the outcome of the shadow test. *)
Lemma shade_eq (sc : Scene F) (hitPoint normal baseColor viewDir : Vec3 F) :
  let L := normalize (vsub (g_lightPos sc) hitPoint) in
  let H := normalize (vadd L viewDir) in
  let diff := if in_shadow sc hitPoint normal then flit 0 1
              else fmax (flit 0 1) (dot normal L) in
  let spec := if in_shadow sc hitPoint normal then flit 0 1
              else fpow (fmax (flit 0 1) (dot normal H)) (flit 32 1) in
  shade sc hitPoint normal baseColor viewDir
  = clamp01 (vadd (vscale baseColor (flit 2 10 + diff * flit 8 10))
                  (vscale (mkVec3 (flit 1 1) (flit 1 1) (flit 1 1))
                          (spec * flit 3 10))).
Proof. reflexivity. Qed.

End ShadeFacts.

(** The ambient colour in binary32: adding the zero highlight leaves every
    channel of albedo * 0.2 as it is, except that -0 becomes +0. *)
Lemma b32_ambient_channel (a : float32) :
  let lit := clamp (fadd (fmul a (fadd (flit 2 10) (fmul (flit 0 1) (flit 8 10))))
                         (fmul (flit 1 1) (fmul (flit 0 1) (flit 3 10)))) in
  b32_same lit (clamp (fmul a (flit 2 10)))
  /\ (fmul a (flit 2 10) <> S754_zero true ->
      lit = clamp (fmul a (flit 2 10))).
Proof.
  cbv zeta.
  replace (fadd (flit 2 10) (fmul (flit 0 1) (flit 8 10)))
    with (flit 2 10 : float32) by (vm_compute; reflexivity).
  replace (fmul (flit 1 1) (fmul (flit 0 1) (flit 3 10)))
    with (S754_zero false) by (vm_compute; reflexivity).
  generalize (fmul a (flit 2 10) : float32). intros A.
  destruct A as [[|]| | |]; split;
    try (left; reflexivity); try (intros _; reflexivity).
  - right. vm_compute. reflexivity.
  - intros H. exfalso. apply H. reflexivity.
Qed.

Lemma real_ambient_channel (a : R) :
  clamp (fadd (fmul a (fadd (flit 2 10) (fmul (flit 0 1) (flit 8 10))))
              (fmul (flit 1 1) (fmul (flit 0 1) (flit 3 10))))
  = clamp (fmul a (flit 2 10)).
Proof. f_equal. cbn [fadd fmul flit real_arith]. field. Qed.

(** C3. [shade] returns clamp01(albedo*(0.2 + diff*0.8) + (1,1,1)*(spec*0.3))
    with L the normalised direction to the light, H = normalize(L + viewDir),
    diff = max(0, dot(normal, L)) and spec = max(0, dot(normal, H))^32. The
    point is in shadow exactly when the ray from hitPoint + normal*1e-3
    along L meets a sphere or a plane at t < lightDist - 1e-3; then diff and
    spec are both 0 and the result is the ambient colour clamp01(albedo*0.2):
    exactly in exact arithmetic, and in binary32 as the same numbers,
    bit for bit unless a channel of albedo*0.2 is -0. *)
Theorem shade_spec :
  (forall (F : Type) (SC : Scalar F) (LM : Libm F) (sc : Scene F)
          (hitPoint normal albedo viewDir : Vec3 F),
      let L := normalize (vsub (g_lightPos sc) hitPoint) in
      let lightDist := length (vsub (g_lightPos sc) hitPoint) in
      let shadowRay := mkRay (vadd hitPoint (vscale normal (flit 1 1000))) L in
      let H := normalize (vadd L viewDir) in
      let lit (diff spec : F) :=
        clamp01 (vadd (vscale albedo
                              (fadd (flit 2 10) (fmul diff (flit 8 10))))
                      (vscale (mkVec3 (flit 1 1) (flit 1 1) (flit 1 1))
                              (fmul spec (flit 3 10)))) in
      (in_shadow sc hitPoint normal = true <->
       (exists s t n, In s (g_spheres sc)
                      /\ intersect_sphere shadowRay s = Some (t, n)
                      /\ fltb t (fsub lightDist (flit 1 1000)) = true)
       \/ (exists pl t n, In pl (g_planes sc)
                          /\ intersect_plane shadowRay pl = Some (t, n)
                          /\ fltb t (fsub lightDist (flit 1 1000)) = true))
      /\ (in_shadow sc hitPoint normal = false ->
          shade sc hitPoint normal albedo viewDir
          = lit (fmax (flit 0 1) (dot normal L))
                (fpow (fmax (flit 0 1) (dot normal H)) (flit 32 1)))
      /\ (in_shadow sc hitPoint normal = true ->
          shade sc hitPoint normal albedo viewDir
          = lit (flit 0 1) (flit 0 1)))
  /\ (forall (LM : Libm float32) (sc : Scene float32)
             (hitPoint normal albedo viewDir : Vec3 float32),
         in_shadow sc hitPoint normal = true ->
         vec_same (shade sc hitPoint normal albedo viewDir)
                  (clamp01 (vscale albedo (flit 2 10)))
         /\ (no_negative_zero (vscale albedo (flit 2 10)) ->
             shade sc hitPoint normal albedo viewDir
             = clamp01 (vscale albedo (flit 2 10))))
  /\ (forall (LM : Libm R) (sc : Scene R)
             (hitPoint normal albedo viewDir : Vec3 R),
         in_shadow sc hitPoint normal = true ->
         shade sc hitPoint normal albedo viewDir
         = clamp01 (vscale albedo (flit 2 10))).
Proof.
  split; [|split].
  - intros F SC LM sc hitPoint normal albedo viewDir. cbv zeta.
    split; [apply in_shadow_true|].
    split; intros E; rewrite shade_eq; cbv zeta; rewrite E; reflexivity.
  - intros LM sc hitPoint normal albedo viewDir E.
    rewrite shade_eq. cbv zeta. rewrite E.
    destruct albedo as [ax ay az].
    destruct (b32_ambient_channel ax) as [Sx Ex].
    destruct (b32_ambient_channel ay) as [Sy Ey].
    destruct (b32_ambient_channel az) as [Sz Ez].
    split.
    + repeat split; assumption.
    + intros (Nx & Ny & Nz). cbn [vscale v_x v_y v_z] in Nx, Ny, Nz.
      unfold clamp01, vadd, vscale. cbn [v_x v_y v_z].
      cbv zeta in Ex, Ey, Ez.
      rewrite (Ex Nx), (Ey Ny), (Ez Nz). reflexivity.
  - intros LM sc hitPoint normal albedo viewDir E.
    rewrite shade_eq. cbv zeta. rewrite E.
    destruct albedo as [ax ay az].
    unfold clamp01, vadd, vscale. cbn [v_x v_y v_z].
    rewrite !real_ambient_channel. reflexivity.
Qed.

(** A point of the floor behind the red sphere, seen from above. *)
Lemma shade_spec_witness :
  shade (LM := sample_libm) room
        (vec32 (5, 10) (0, 1) (1, 1)) (vec32 (0, 1) (1, 1) (0, 1))
        (vec32 (45, 100) (30, 100) (15, 100)) (vec32 (0, 1) (1, 1) (0, 1))
  = clamp01 (vscale (vec32 (45, 100) (30, 100) (15, 100)) (flit 2 10)).
Proof.
  apply (proj1 (proj2 shade_spec) sample_libm).
  - vm_compute. reflexivity.
  - vm_compute. repeat split; discriminate.
Defined.

(** ** The reflection block *)

Section ReflectionFacts.

Context {F : Type} {SC : Scalar F} {LM : Libm F}.
Local Open Scope sc_scope.

(** The equation of [trace], as the source has it. *)
Lemma trace_unfold (sc : Scene F) (ray : Ray F) (depth : Z) :
  trace sc ray depth =
  let h := nearest_hit sc ray in
  if negb (hit h) then background
  else if (depth <? kMaxDepth)%Z && (hitReflectivity h >? flit 0 1) then
    clamp01 (vadd (smul (flit 1 1 - hitReflectivity h) (local_color sc ray h))
                  (smul (hitReflectivity h)
                        (trace sc (reflected_ray ray h) (depth + 1))))
  else clamp01 (local_color sc ray h).
Proof.
  unfold trace at 1. unfold trace_run, trace_budget.
  rewrite trace_fuel_S. cbv zeta.
  destruct (negb (hit (nearest_hit sc ray))); [reflexivity|].
  destruct (depth <? kMaxDepth)%Z eqn:Ed; cbn [andb]; [|reflexivity].
  destruct (hitReflectivity (nearest_hit sc ray) >? flit 0 1); [|reflexivity].
  apply Z.ltb_lt in Ed.
  unfold trace, trace_run, trace_budget.
  replace (S (Z.to_nat (kMaxDepth - (depth + 1))))
    with (Z.to_nat (kMaxDepth - depth)) by lia.
  destruct (trace_fuel_some (Z.to_nat (kMaxDepth - depth)) sc
              (reflected_ray ray (nearest_hit sc ray)) (depth + 1)%Z)
    as [[c tr] E]; [lia|].
  rewrite E. reflexivity.
Qed.

(** The reflectivity the loops record: 0 on a sphere, 0.05 on a plane. *)
Lemma sphere_loop_reflectivity (ray : Ray F) (l : list (Sphere F)) :
  forall st : Hit F,
    hitReflectivity st = flit 0 1 ->
    hitReflectivity (fold_left (sphere_step ray) l st) = flit 0 1.
Proof.
  induction l as [|s l IH]; intros st H; [exact H|].
  cbn [fold_left]. apply IH. unfold sphere_step.
  destruct (intersect_sphere ray s) as [[t n]|]; [|exact H].
  destruct (t <? tMin st); [reflexivity | exact H].
Qed.

Lemma plane_loop_reflectivity (ray : Ray F) (l : list (Plane F)) :
  forall st : Hit F,
    hitReflectivity (fold_left (plane_step ray) l st) = hitReflectivity st
    \/ hitReflectivity (fold_left (plane_step ray) l st) = flit 5 100.
Proof.
  induction l as [|pl l IH]; intros st; [left; reflexivity|].
  cbn [fold_left]. destruct (IH (plane_step ray st pl)) as [E|E];
    [|right; exact E].
  rewrite E. unfold plane_step.
  destruct (intersect_plane ray pl) as [[t n]|]; [|left; reflexivity].
  destruct (t <? tMin st); [right | left]; reflexivity.
Qed.

Lemma nearest_hit_reflectivity (sc : Scene F) (ray : Ray F) :
  hitReflectivity (nearest_hit sc ray) = flit 0 1
  \/ hitReflectivity (nearest_hit sc ray) = flit 5 100.
Proof.
  unfold nearest_hit.
  destruct (plane_loop_reflectivity ray (g_planes sc)
              (fold_left (sphere_step ray) (g_spheres sc) no_hit)) as [E|E];
    [left | right; exact E].
  rewrite E. apply sphere_loop_reflectivity. reflexivity.
Qed.

End ReflectionFacts.

(** A plane that takes over as the nearest hit records 0.05. *)
Lemma plane_step_reflectivity {F : Type} {SC : Scalar F}
      (ray : Ray F) (st : Hit F) (pl : Plane F) :
  plane_step ray st pl = st
  \/ (hit (plane_step ray st pl) = true
      /\ hitReflectivity (plane_step ray st pl) = flit 5 100).
Proof.
  unfold plane_step. destruct (intersect_plane ray pl) as [[t n]|];
    [|left; reflexivity].
  destruct (fltb t (tMin st)); [right; split | left]; reflexivity.
Qed.

(** The guard [hitReflectivity > 0.0f] on the two values recorded. *)
Lemma b32_reflective (h : Hit float32) :
  (hitReflectivity h = flit 0 1 -> reflective h = false)
  /\ (hitReflectivity h = flit 5 100 -> reflective h = hit h).
Proof.
  unfold reflective. split; intros ->.
  - apply andb_false_r.
  - destruct (hit h); reflexivity.
Qed.

Lemma real_reflective (h : Hit R) :
  (hitReflectivity h = flit 0 1 -> reflective h = false)
  /\ (hitReflectivity h = flit 5 100 -> reflective h = hit h).
Proof.
  unfold reflective. split; intros ->.
  - replace (fltb (flit 0 1) (flit 0 1 : R)) with false;
      [apply andb_false_r|].
    symmetry. apply real_fltb_false. lra.
  - replace (fltb (flit 0 1) (flit 5 100 : R)) with true;
      [apply andb_true_r|].
    symmetry. apply real_fltb_true. cbn [flit real_arith]. lra.
Qed.

(** The reflection block of [trace]. The reflectivity recorded is 0 after
    the sphere loop and 0.05 once a plane takes over as the nearest hit; the
    guard [hitReflectivity > 0.0f] is false on 0 and true on 0.05. [trace]
    equals the tracer without the reflection block when depth >= kMaxDepth,
    when nothing is hit, or when the recorded reflectivity is not above 0.
    For a hit with reflectivity above 0 at depth < kMaxDepth the block runs,
    and [trace] returns
    clamp01((1 - k)*local + k*trace(reflected ray, depth + 1)). *)
Theorem reflection_block :
  (forall (F : Type) (SC : Scalar F) (LM : Libm F)
          (sc : Scene F) (ray : Ray F) (depth : Z),
      let h := nearest_hit sc ray in
      hitReflectivity (fold_left (sphere_step ray) (g_spheres sc) no_hit)
      = flit 0 1
      /\ (forall st pl,
             plane_step ray st pl = st
             \/ (hit (plane_step ray st pl) = true
                 /\ hitReflectivity (plane_step ray st pl) = flit 5 100))
      /\ (hitReflectivity h = flit 0 1 \/ hitReflectivity h = flit 5 100)
      /\ ((depth <? kMaxDepth) && reflective h = false ->
          trace sc ray depth = trace_noreflect sc ray depth)
      /\ ((depth <? kMaxDepth) && reflective h = true ->
          trace sc ray depth
          = clamp01 (vadd (smul (fsub (flit 1 1) (hitReflectivity h))
                                (local_color sc ray h))
                          (smul (hitReflectivity h)
                                (trace sc (reflected_ray ray h)
                                       (depth + 1))))))
  /\ (forall h : Hit float32,
         (hitReflectivity h = flit 0 1 -> reflective h = false)
         /\ (hitReflectivity h = flit 5 100 -> reflective h = hit h))
  /\ (forall h : Hit R,
         (hitReflectivity h = flit 0 1 -> reflective h = false)
         /\ (hitReflectivity h = flit 5 100 -> reflective h = hit h)).
Proof.
  split; [|split; [exact b32_reflective | exact real_reflective]].
  intros F SC LM sc ray depth. cbv zeta.
  split; [apply sphere_loop_reflectivity; reflexivity|].
  split; [apply plane_step_reflectivity|].
  split; [apply nearest_hit_reflectivity|].
  unfold reflective, trace_noreflect.
  split; intros H; rewrite trace_unfold; cbv zeta.
  - destruct (hit (nearest_hit sc ray)); cbn [negb andb] in *; [|reflexivity].
    rewrite H. reflexivity.
  - apply andb_true_iff in H. destruct H as [Hd H].
    apply andb_true_iff in H. destruct H as [Hh Hr].
    rewrite Hh, Hd, Hr. reflexivity.
Qed.

(** A ray from above onto the top of the red sphere. *)
Definition sphere_ray : Ray float32 :=
  mkRay (vec32 (15, 10) (25, 10) (25, 10)) (vec32 (0, 1) (-1, 1) (0, 1)).

Lemma reflection_block_witness :
  trace (LM := sample_libm) room sphere_ray 0
  = trace_noreflect (LM := sample_libm) room sphere_ray 0
  /\ trace (LM := sample_libm) room shadow_ray 0
     = clamp01
         (vadd (smul (fsub (flit 1 1) (flit 5 100))
                     (local_color (LM := sample_libm) room shadow_ray
                                  (nearest_hit room shadow_ray)))
               (smul (flit 5 100) (vec32 (2, 10) (3, 10) (5, 10)))).
Proof.
  split.
  - destruct (proj1 reflection_block float32 binary32 sample_libm
                room sphere_ray 0) as (_ & _ & _ & Hdead & _).
    apply Hdead. vm_compute. reflexivity.
  - destruct (proj1 reflection_block float32 binary32 sample_libm
                room shadow_ray 0) as (_ & _ & _ & _ & Hlive).
    rewrite Hlive by (vm_compute; reflexivity).
    vm_compute. reflexivity.
Defined.

(** C8. The reflection path is not dead code for a plane: the plane loop
    stores 0.05f where its comment says the plane is set not to reflect,
    and where the sphere loop stores 0.0f for that. On [shadow_ray] the
    floor is hit at depth 0 with reflectivity 0.05, the guard
    [hitReflectivity > 0.0f] passes, the reflected ray returns the
    background, and [trace] returns 0.95*local + 0.05*background, which
    differs from the local colour the tracer without the block returns. The
    hit is in shadow, so [std::pow] is not evaluated and the values are the
    same for every libm. *)
Lemma reflection_block_cex :
  trace (LM := sample_libm) room shadow_ray 0
  = mkVec3 (S754_finite false 12817792 (-27))
           (S754_finite false 9663676 (-27))
           (S754_finite false 14361297 (-28))
  /\ trace_noreflect (LM := sample_libm) room shadow_ray 0
     = mkVec3 (S754_finite false 12079595 (-27))
              (S754_finite false 16106128 (-28))
              (S754_finite false 16106128 (-29))
  /\ trace (LM := sample_libm) room shadow_ray 0
     <> trace_noreflect (LM := sample_libm) room shadow_ray 0.
Proof.
  split; [vm_compute; reflexivity|].
  split; [vm_compute; reflexivity|].
  vm_compute. discriminate.
Qed.

Example reflection_block_any_libm (LM : Libm float32) :
  trace room shadow_ray 0 <> trace_noreflect room shadow_ray 0.
Proof. vm_compute. discriminate. Qed.

(** ** The order of binary32 values *)

Definition is_nan (f : float32) : bool :=
  match f with S754_nan => true | _ => false end.

(** A key whose lexicographic order is the order [SFcompare] decides: the
    class of the value, then its exponent, then its mantissa. *)
Definition rank (f : float32) : Z * Z * Z :=
  match f with
  | S754_nan => (0, 0, 0)
  | S754_zero _ => (0, 0, 0)
  | S754_infinity true => (-2, 0, 0)
  | S754_infinity false => (2, 0, 0)
  | S754_finite true m e => (-1, - e, - Zpos m)
  | S754_finite false m e => (1, e, Zpos m)
  end.

Definition lex_lt (p q : Z * Z * Z) : Prop :=
  let '(c1, e1, m1) := p in
  let '(c2, e2, m2) := q in
  c1 < c2 \/ (c1 = c2 /\ (e1 < e2 \/ (e1 = e2 /\ m1 < m2))).

Lemma SFcompare_rank (a b : float32) :
  is_nan a = false -> is_nan b = false ->
  exists c, SFcompare a b = Some c /\
    match c with
    | Lt => lex_lt (rank a) (rank b)
    | Eq => rank a = rank b
    | Gt => lex_lt (rank b) (rank a)
    end.
Proof.
  intros Ha Hb.
  destruct a as [sa|sa| |sa ma ea], b as [sb|sb| |sb mb eb];
    try discriminate;
    try destruct sa; try destruct sb; cbn - [Z.compare Pos.compare_cont];
    try (eexists; split; [reflexivity|]; cbn; try reflexivity; lia).
  all: change (PosDef.Pos.compare_cont Eq ma mb) with (Pos.compare ma mb);
    destruct (Z.compare_spec ea eb); [destruct (Pos.compare_spec ma mb)| |];
    (eexists; split; [reflexivity|]; cbn; subst; try reflexivity; lia).
Qed.

Lemma SFltb_rank (a b : float32) :
  SFltb a b = true <->
  is_nan a = false /\ is_nan b = false /\ lex_lt (rank a) (rank b).
Proof.
  unfold SFltb. split.
  - intros H.
    destruct (is_nan a) eqn:Ea; [destruct a; discriminate|].
    destruct (is_nan b) eqn:Eb; [destruct a, b; discriminate|].
    destruct (SFcompare_rank a b Ea Eb) as (c & E & Hc). rewrite E in H.
    destruct c; try discriminate. auto.
  - intros (Ea & Eb & Hl).
    destruct (SFcompare_rank a b Ea Eb) as (c & E & Hc). rewrite E.
    destruct c; [| reflexivity |]; exfalso; revert Hl Hc;
      destruct (rank a) as [[? ?] ?], (rank b) as [[? ?] ?]; cbn;
      intros; try (injection Hc as -> -> ->); lia.
Qed.

Lemma SFleb_rank (a b : float32) :
  SFleb a b = true <->
  is_nan a = false /\ is_nan b = false
  /\ (lex_lt (rank a) (rank b) \/ rank a = rank b).
Proof.
  unfold SFleb. split.
  - intros H.
    destruct (is_nan a) eqn:Ea; [destruct a; discriminate|].
    destruct (is_nan b) eqn:Eb; [destruct a, b; discriminate|].
    destruct (SFcompare_rank a b Ea Eb) as (c & E & Hc). rewrite E in H.
    destruct c; try discriminate; auto.
  - intros (Ea & Eb & Hl).
    destruct (SFcompare_rank a b Ea Eb) as (c & E & Hc). rewrite E.
    destruct c; [reflexivity | reflexivity |]; exfalso; revert Hl Hc;
      destruct (rank a) as [[? ?] ?], (rank b) as [[? ?] ?]; cbn;
      intros [Hl|Hl] Hc; try (injection Hl as -> -> ->); lia.
Qed.

(** What the nearest-hit search needs from [<]: it is a strict order, and
    two values below a common bound that are not ordered by it compare
    equal. NaN is below nothing. *)
Class ScalarOrder (F : Type) {SC : Scalar F} : Prop := {
  fltb_trans : forall a b c : F,
    fltb a b = true -> fltb b c = true -> fltb a c = true;
  fltb_asym : forall a b : F, fltb a b = true -> fltb b a = false;
  fltb_tie : forall a b m : F,
    fltb a m = true -> fltb b m = true ->
    fltb a b = false -> fltb b a = false ->
    fleb a b && fleb b a = true
}.

Lemma not_true_false (b : bool) : (b = true -> False) -> b = false.
Proof. destruct b; intros H; [exfalso; apply H|]; reflexivity. Qed.

#[export] Instance binary32_order : ScalarOrder float32.
Proof.
  constructor; cbn [fltb fleb binary32].
  - intros a b c H1 H2.
    apply SFltb_rank in H1. destruct H1 as (Na & Nb & H1).
    apply SFltb_rank in H2. destruct H2 as (_ & Nc & H2).
    apply SFltb_rank. repeat split; try assumption.
    revert H1 H2.
    destruct (rank a) as [[? ?] ?], (rank b) as [[? ?] ?],
             (rank c) as [[? ?] ?]; cbn; lia.
  - intros a b H1. apply not_true_false. intros H2.
    apply SFltb_rank in H1. destruct H1 as (_ & _ & H1).
    apply SFltb_rank in H2. destruct H2 as (_ & _ & H2).
    revert H1 H2.
    destruct (rank a) as [[? ?] ?], (rank b) as [[? ?] ?]; cbn; lia.
  - intros a b m Ha Hb Hab Hba.
    apply SFltb_rank in Ha. destruct Ha as (Na & _ & _).
    apply SFltb_rank in Hb. destruct Hb as (Nb & _ & _).
    destruct (SFcompare_rank a b Na Nb) as (c & E & Hc).
    unfold SFltb in Hab. rewrite E in Hab.
    destruct c; try discriminate.
    + apply andb_true_iff. split; apply SFleb_rank; repeat split;
        try assumption; right; congruence.
    + assert (X : SFltb b a = true)
        by (apply SFltb_rank; repeat split; assumption).
      rewrite X in Hba. discriminate.
Qed.

#[export] Instance real_order : ScalarOrder R.
Proof.
  constructor.
  - intros a b c H1 H2. apply real_fltb_true in H1, H2.
    apply real_fltb_true. lra.
  - intros a b H. apply real_fltb_true in H. apply real_fltb_false. lra.
  - intros a b m _ _ H1 H2. apply real_fltb_false in H1, H2.
    apply andb_true_iff. split; apply real_fleb_true; lra.
Qed.

(** ** The nearest-hit search and the order of the lists *)

Section NearestHit.

Context {F : Type} {SC : Scalar F} {SO : ScalarOrder F}.
Context {P : Type} (isect : P -> option (F * Vec3 F)).
Context (color : P -> Vec3 F) (k : F).
Local Open Scope sc_scope.

(** The body shared by the two loops of [trace]. *)
Definition hit_step (st : Hit F) (p : P) : Hit F :=
  match isect p with
  | Some (t, n) => if t <? tMin st then mkHit t n (color p) k true else st
  | None => st
  end.

(** Primitives hit at equal distances are hit alike. *)
Definition ties_agree (l : list P) : Prop :=
  forall p q t1 n1 t2 n2,
    In p l -> In q l ->
    isect p = Some (t1, n1) -> isect q = Some (t2, n2) ->
    (t1 <=? t2) && (t2 <=? t1) = true ->
    t1 = t2 /\ n1 = n2 /\ color p = color q.

Lemma hit_step_swap (st : Hit F) (p q : P) :
  ties_agree [p; q] ->
  hit_step (hit_step st p) q = hit_step (hit_step st q) p.
Proof.
  intros T. unfold hit_step.
  destruct (isect p) as [[t1 n1]|] eqn:Ep, (isect q) as [[t2 n2]|] eqn:Eq;
    try reflexivity.
  destruct (t1 <? tMin st) eqn:A1, (t2 <? tMin st) eqn:A2;
    cbn [tMin]; rewrite ?A1, ?A2; try reflexivity.
  - destruct (t2 <? t1) eqn:B21, (t1 <? t2) eqn:B12; try reflexivity.
    + rewrite (fltb_asym _ _ B21) in B12. discriminate.
    + assert (X : t1 = t2 /\ n1 = n2 /\ color p = color q).
      { apply (T p q t1 n1 t2 n2);
          [left; reflexivity | right; left; reflexivity
          | exact Ep | exact Eq | exact (fltb_tie _ _ _ A1 A2 B12 B21)]. }
      destruct X as (-> & -> & ->). reflexivity.
  - destruct (t2 <? t1) eqn:B21; [|reflexivity].
    rewrite (fltb_trans _ _ _ B21 A1) in A2. discriminate.
  - destruct (t1 <? t2) eqn:B12; [|reflexivity].
    rewrite (fltb_trans _ _ _ B12 A2) in A1. discriminate.
Qed.

Lemma ties_agree_incl (l l' : list P) :
  incl l' l -> ties_agree l -> ties_agree l'.
Proof.
  intros I T p q t1 n1 t2 n2 Hp Hq. apply T; apply I; assumption.
Qed.

Lemma fold_hit_step_perm (l l' : list P) :
  Permutation l l' -> ties_agree l ->
  forall st, fold_left hit_step l st = fold_left hit_step l' st.
Proof.
  induction 1 as [|x l l' HP IH|x y l|l l' l'' HP1 IH1 HP2 IH2];
    intros T st.
  - reflexivity.
  - cbn [fold_left]. apply IH.
    apply (ties_agree_incl (x :: l)); [|exact T].
    intros a Ha. right. exact Ha.
  - cbn [fold_left]. f_equal. symmetry. apply hit_step_swap.
    apply (ties_agree_incl (y :: x :: l)); [|exact T].
    intros a [<-|[<-|[]]]; cbn; auto.
  - rewrite IH1 by exact T. apply IH2.
    apply (ties_agree_incl l); [|exact T].
    intros a Ha. apply (Permutation_in _ (Permutation_sym HP1)). exact Ha.
Qed.

End NearestHit.

Lemma existsb_perm {A : Type} (f : A -> bool) (l l' : list A) :
  Permutation l l' -> existsb f l = existsb f l'.
Proof.
  induction 1 as [|x l l' HP IH|x y l|l l' l'' HP1 IH1 HP2 IH2]; cbn.
  - reflexivity.
  - rewrite IH. reflexivity.
  - destruct (f x), (f y); reflexivity.
  - rewrite IH1. exact IH2.
Qed.

Section ListOrder.

Context {F : Type} {SC : Scalar F} {SO : ScalarOrder F} {LM : Libm F}.
Local Open Scope sc_scope.

(** The same scene with its two lists reordered. *)
Definition same_up_to_order (sc sc' : Scene F) : Prop :=
  Permutation (g_spheres sc) (g_spheres sc')
  /\ Permutation (g_planes sc) (g_planes sc')
  /\ g_lightPos sc = g_lightPos sc'
  /\ g_camPos sc = g_camPos sc'
  /\ g_camLook sc = g_camLook sc'
  /\ g_width sc = g_width sc'
  /\ g_height sc = g_height sc'.

Definition ties_agree_at (sc : Scene F) (ray : Ray F) : Prop :=
  ties_agree (intersect_sphere ray) s_color (g_spheres sc)
  /\ ties_agree (intersect_plane ray) pl_color (g_planes sc).

(** Ties agree for the ray and for the reflected rays [trace] goes on to
    cast, [n] levels down. *)
Fixpoint ties_agree_along (n : nat) (sc : Scene F) (ray : Ray F) : Prop :=
  ties_agree_at sc ray
  /\ match n with
     | O => True
     | S n' =>
         reflective (nearest_hit sc ray) = true ->
         ties_agree_along n' sc (reflected_ray ray (nearest_hit sc ray))
     end.

Lemma nearest_hit_perm (sc sc' : Scene F) (ray : Ray F) :
  same_up_to_order sc sc' -> ties_agree_at sc ray ->
  nearest_hit sc' ray = nearest_hit sc ray.
Proof.
  intros (Hs & Hp & _) (Ts & Tp). unfold nearest_hit.
  change (sphere_step ray)
    with (hit_step (intersect_sphere ray) s_color (flit 0 1)).
  change (plane_step ray)
    with (hit_step (intersect_plane ray) pl_color (flit 5 100)).
  rewrite <- (fold_hit_step_perm _ _ _ _ _ Hs Ts).
  rewrite <- (fold_hit_step_perm _ _ _ _ _ Hp Tp). reflexivity.
Qed.

Lemma in_shadow_perm (sc sc' : Scene F) (hitPoint normal : Vec3 F) :
  same_up_to_order sc sc' ->
  in_shadow sc' hitPoint normal = in_shadow sc hitPoint normal.
Proof.
  intros (Hs & Hp & Hl & _). unfold in_shadow. rewrite <- Hl.
  rewrite (existsb_perm _ _ _ Hs), (existsb_perm _ _ _ Hp). reflexivity.
Qed.

Lemma shade_perm (sc sc' : Scene F) (hitPoint normal baseColor viewDir : Vec3 F) :
  same_up_to_order sc sc' ->
  shade sc' hitPoint normal baseColor viewDir
  = shade sc hitPoint normal baseColor viewDir.
Proof.
  intros H. unfold shade. rewrite (in_shadow_perm sc sc' _ _ H).
  destruct H as (_ & _ & Hl & _). rewrite <- Hl. reflexivity.
Qed.

Lemma trace_perm (sc sc' : Scene F) (n : nat) :
  same_up_to_order sc sc' ->
  forall (ray : Ray F) (depth : Z),
    Z.to_nat (kMaxDepth - depth) = n ->
    ties_agree_along n sc ray ->
    trace sc' ray depth = trace sc ray depth.
Proof.
  intros H. induction n as [|n IH]; intros ray depth Hn T.
  - destruct T as [T _].
    rewrite (trace_unfold sc'), (trace_unfold sc). cbv zeta.
    rewrite (nearest_hit_perm sc sc' ray H T).
    unfold local_color. rewrite (shade_perm sc sc' _ _ _ _ H).
    replace (depth <? kMaxDepth)%Z with false; [reflexivity|].
    symmetry. apply Z.ltb_ge. lia.
  - destruct T as [T Tn]. cbn in Tn.
    rewrite (trace_unfold sc'), (trace_unfold sc). cbv zeta.
    rewrite (nearest_hit_perm sc sc' ray H T).
    unfold local_color. rewrite (shade_perm sc sc' _ _ _ _ H).
    destruct (hit (nearest_hit sc ray)) eqn:Eh; cbn [negb]; [|reflexivity].
    destruct (depth <? kMaxDepth)%Z eqn:Ed; cbn [andb]; [|reflexivity].
    destruct (hitReflectivity (nearest_hit sc ray) >? flit 0 1) eqn:Er;
      [|reflexivity].
    rewrite IH; [reflexivity | lia |].
    apply Tn. unfold reflective. rewrite Eh, Er. reflexivity.
Qed.

End ListOrder.

Section Nearest.

Context {F : Type} {SC : Scalar F} {SO : ScalarOrder F}.
Local Open Scope sc_scope.

Lemma fltb_irrefl (a : F) : (a <? a) = false.
Proof.
  destruct (a <? a) eqn:E; [|reflexivity].
  rewrite (fltb_asym _ _ E) in E. discriminate.
Qed.

(** If nothing recorded is beyond [m] and [m'] is [m] or below it, nothing
    recorded is beyond [m'] either. *)
Lemma not_below_lower (t m m' : F) :
  (t <? m) = false -> m' = m \/ (m' <? m) = true -> (t <? m') = false.
Proof.
  intros H [->|L]; [exact H|].
  destruct (t <? m') eqn:E; [|reflexivity].
  rewrite (fltb_trans _ _ _ E L) in H. discriminate.
Qed.

Lemma fold_hit_step_min {P : Type} (isect : P -> option (F * Vec3 F))
      (color : P -> Vec3 F) (k : F) (l : list P) :
  forall st : Hit F,
    (forall p t n, In p l -> isect p = Some (t, n) ->
                   (t <? tMin (fold_left (hit_step isect color k) l st))
                   = false)
    /\ (tMin (fold_left (hit_step isect color k) l st) = tMin st
        \/ (tMin (fold_left (hit_step isect color k) l st) <? tMin st) = true).
Proof.
  induction l as [|x l IH]; intros st.
  - split; [intros p t n []|left; reflexivity].
  - cbn [fold_left]. destruct (IH (hit_step isect color k st x)) as [A B].
    assert (C : tMin (hit_step isect color k st x) = tMin st
                \/ (tMin (hit_step isect color k st x) <? tMin st) = true).
    { unfold hit_step. destruct (isect x) as [[t n]|]; [|left; reflexivity].
      destruct (t <? tMin st) eqn:E; [right; exact E | left; reflexivity]. }
    split.
    + intros p t n [<-|Hp] E; [|exact (A p t n Hp E)].
      apply not_below_lower with (m := tMin (hit_step isect color k st x));
        [|exact B].
      unfold hit_step. rewrite E.
      destruct (t <? tMin st) eqn:Et; [apply fltb_irrefl | exact Et].
    + destruct B as [B|B], C as [C|C].
      * left. congruence.
      * right. rewrite B. exact C.
      * right. rewrite <- C. exact B.
      * right. exact (fltb_trans _ _ _ B C).
Qed.

(** No primitive of the scene reports a hit nearer than the one kept. *)
Lemma nearest_hit_min (sc : Scene F) (ray : Ray F) :
  (forall s t n, In s (g_spheres sc) -> intersect_sphere ray s = Some (t, n) ->
                 (t <? tMin (nearest_hit sc ray)) = false)
  /\ (forall pl t n, In pl (g_planes sc) ->
                     intersect_plane ray pl = Some (t, n) ->
                     (t <? tMin (nearest_hit sc ray)) = false).
Proof.
  unfold nearest_hit.
  change (sphere_step ray)
    with (hit_step (intersect_sphere ray) s_color (flit 0 1)).
  change (plane_step ray)
    with (hit_step (intersect_plane ray) pl_color (flit 5 100)).
  set (st := fold_left _ (g_spheres sc) no_hit).
  destruct (fold_hit_step_min (intersect_sphere ray) s_color (flit 0 1)
              (g_spheres sc) no_hit) as [As _].
  destruct (fold_hit_step_min (intersect_plane ray) pl_color (flit 5 100)
              (g_planes sc) st) as [Ap Bp].
  split; [|exact Ap].
  intros s t n Hs E.
  apply not_below_lower with (m := tMin st); [|exact Bp].
  exact (As s t n Hs E).
Qed.

End Nearest.

(** C7, as the code has it. The hit [trace] keeps is a nearest one: no
    sphere and no plane reports a smaller t. Reordering the sphere list and
    the plane list leaves the colour unchanged provided that, for the ray
    and for each reflected ray traced after it, primitives of one list hit
    at equal t report the same t and normal and carry the same colour. *)
Theorem trace_order_independent :
  forall (F : Type) (SC : Scalar F) (SO : ScalarOrder F) (LM : Libm F)
         (sc : Scene F) (ray : Ray F),
    ((forall s t n, In s (g_spheres sc) ->
                    intersect_sphere ray s = Some (t, n) ->
                    fltb t (tMin (nearest_hit sc ray)) = false)
     /\ (forall pl t n, In pl (g_planes sc) ->
                        intersect_plane ray pl = Some (t, n) ->
                        fltb t (tMin (nearest_hit sc ray)) = false))
    /\ (forall (sc' : Scene F) (depth : Z),
           same_up_to_order sc sc' ->
           ties_agree_along (Z.to_nat (kMaxDepth - depth)) sc ray ->
           trace sc' ray depth = trace sc ray depth).
Proof.
  intros F SC SO LM sc ray. split.
  - apply nearest_hit_min.
  - intros sc' depth H T.
    apply (trace_perm sc sc' (Z.to_nat (kMaxDepth - depth)) H ray depth);
      [reflexivity | exact T].
Qed.

(** The room with its spheres swapped and its planes in reverse order. *)
Definition room_reordered : Scene float32 :=
  mkScene (g_width room) (g_height room) (g_camPos room) (g_camLook room)
    (g_lightPos room) (rev (g_spheres room)) (rev (g_planes room)).

Ltac settle_tie :=
  match goal with
  | H1 : _ = Some (_, _), H2 : _ = Some (_, _), Ht : _ = true |- _ =>
      vm_compute in H1; vm_compute in H2;
      first
        [ discriminate H1
        | discriminate H2
        | injection H1 as <- <-; injection H2 as <- <-;
          first [ vm_compute in Ht; discriminate Ht
                | repeat split; reflexivity ] ]
  end.

Ltac settle_ties :=
  split;
  (intros p q t1 n1 t2 n2 Hp Hq H1 H2 Ht;
   vm_compute in Hp; vm_compute in Hq;
   repeat (destruct Hp as [<-|Hp]; [|try contradiction]);
   repeat (destruct Hq as [<-|Hq]; [|try contradiction]);
   settle_tie).

Lemma trace_order_independent_witness :
  trace (LM := sample_libm) room_reordered down_ray 0
  = trace (LM := sample_libm) room down_ray 0.
Proof.
  apply (proj2 (trace_order_independent float32 binary32 binary32_order
                  sample_libm room down_ray)).
  - unfold same_up_to_order, room_reordered. cbn [g_spheres g_planes
      g_lightPos g_camPos g_camLook g_width g_height].
    repeat split; apply Permutation_rev.
  - change (Z.to_nat (kMaxDepth - 0)) with 2%nat.
    cbn [ties_agree_along]. unfold ties_agree_at.
    split; [settle_ties|]. intros _.
    split; [settle_ties|]. intros _.
    split; [settle_ties|]. exact I.
Defined.

(** Two unit spheres that touch at the origin, a red one centred at
    (-1, 0, 0) and a blue one at (1, 0, 0), lit from (0, 10, 0); the ray
    from (0, 0, -4) along +z meets both at t = 4, exactly. *)
Definition red_sphere : Sphere float32 :=
  mkSphere (vec32 (-1, 1) (0, 1) (0, 1)) (flit 1 1) (vec32 (1, 1) (0, 1) (0, 1)).

Definition blue_sphere : Sphere float32 :=
  mkSphere (vec32 (1, 1) (0, 1) (0, 1)) (flit 1 1) (vec32 (0, 1) (0, 1) (1, 1)).

Definition touching (spheres : list (Sphere float32)) : Scene float32 :=
  mkScene 800 600 (vec32 (0, 1) (0, 1) (-4, 1)) (vec32 (0, 1) (0, 1) (0, 1))
    (vec32 (0, 1) (10, 1) (0, 1)) spheres [].

Definition touching_ray : Ray float32 :=
  mkRay (vec32 (0, 1) (0, 1) (-4, 1)) (vec32 (0, 1) (0, 1) (1, 1)).

(** C7 fails as stated: both spheres report t = 4, the loop keeps the one
    that comes first, and the colour follows the order of the list. The
    point is in the shadow of the other sphere either way, so the colours
    are the ambient ones, 0.2 * red and 0.2 * blue, whatever the libm. *)
Lemma trace_order_cex :
  Permutation [red_sphere; blue_sphere] [blue_sphere; red_sphere]
  /\ (exists n, intersect_sphere touching_ray red_sphere = Some (flit 4 1, n))
  /\ (exists n, intersect_sphere touching_ray blue_sphere = Some (flit 4 1, n))
  /\ trace (LM := sample_libm) (touching [red_sphere; blue_sphere])
           touching_ray 0
     = vec32 (2, 10) (0, 1) (0, 1)
  /\ trace (LM := sample_libm) (touching [blue_sphere; red_sphere])
           touching_ray 0
     = vec32 (0, 1) (0, 1) (2, 10)
  /\ trace (LM := sample_libm) (touching [blue_sphere; red_sphere])
           touching_ray 0
     <> trace (LM := sample_libm) (touching [red_sphere; blue_sphere])
              touching_ray 0.
Proof.
  split; [apply perm_swap|].
  split; [eexists; vm_compute; reflexivity|].
  split; [eexists; vm_compute; reflexivity|].
  split; [vm_compute; reflexivity|].
  split; [vm_compute; reflexivity|].
  vm_compute. discriminate.
Qed.

Example trace_order_any_libm (LM : Libm float32) :
  trace (touching [blue_sphere; red_sphere]) touching_ray 0
  <> trace (touching [red_sphere; blue_sphere]) touching_ray 0.
Proof. vm_compute. discriminate. Qed.

(** ** The frame renderer *)

Lemma set_nth_app (l1 l2 : list Z) (a v : Z) :
  set_nth (l1 ++ a :: l2) (List.length l1) v = l1 ++ v :: l2.
Proof. induction l1 as [|b l1 IH]; cbn; [reflexivity|]. rewrite IH. reflexivity. Qed.

(** The indices [a, a+1, ..., a+k-1]. *)
Definition indices (a k : nat) : list Z := map Z.of_nat (seq a k).

Lemma nth_flat_map_block {A : Type} (f : nat -> list A) (k : nat) (d : A) :
  (forall i, List.length (f i) = k) ->
  forall n s i j,
    (s <= i < s + n)%nat -> (j < k)%nat ->
    nth ((i - s) * k + j) (flat_map f (seq s n)) d = nth j (f i) d.
Proof.
  intros Hk. induction n as [|n IH]; intros s i j Hi Hj; [lia|].
  cbn [seq flat_map].
  destruct (Nat.eq_dec i s) as [->|Hne].
  - rewrite Nat.sub_diag. cbn [Nat.mul Nat.add].
    rewrite app_nth1 by (rewrite Hk; exact Hj). reflexivity.
  - rewrite app_nth2 by (rewrite Hk; nia).
    rewrite Hk.
    replace ((i - s) * k + j - k)%nat with ((i - S s) * k + j)%nat by nia.
    apply IH; lia.
Qed.

Lemma length_flat_map_block {A : Type} (f : nat -> list A) (k : nat) :
  (forall i, List.length (f i) = k) ->
  forall n s, List.length (flat_map f (seq s n)) = (n * k)%nat.
Proof.
  intros Hk. induction n as [|n IH]; intros s; [reflexivity|].
  cbn [seq flat_map]. rewrite length_app, Hk, IH. lia.
Qed.

Lemma frame_size (W H : Z) :
  0 <= W -> 0 <= H ->
  Z.to_nat (W * H * 3) = (Z.to_nat H * (3 * Z.to_nat W))%nat.
Proof.
  intros HW HH. rewrite !Z2Nat.inj_mul by nia.
  change (Z.to_nat 3) with 3%nat. lia.
Qed.

Lemma pixel_offset (W x y : Z) (c : nat) :
  0 <= x < W -> 0 <= y ->
  Z.to_nat ((y * W + x) * 3 + Z.of_nat c)
  = ((Z.to_nat y - 0) * (Z.to_nat W * 3) + ((Z.to_nat x - 0) * 3 + c))%nat.
Proof.
  intros Hx Hy. rewrite !Nat.sub_0_r. apply Nat2Z.inj.
  rewrite Z2Nat.id by nia.
  rewrite !Nat2Z.inj_add, !Nat2Z.inj_mul, !Z2Nat.id by lia.
  change (Z.of_nat 3) with 3. ring.
Qed.

Section Render.
Context {F : Type} {SC : Scalar F} {LM : Libm F}.

Definition pixel_bytes (sc : Scene F) (x y : Z) : list Z :=
  let col := pixel_color sc x y in
  [ to_uchar (fmul (v_x col) (flit 255 1));
    to_uchar (fmul (v_y col) (flit 255 1));
    to_uchar (fmul (v_z col) (flit 255 1)) ].

Definition row_bytes (sc : Scene F) (w : nat) (y : nat) : list Z :=
  flat_map (fun x => pixel_bytes sc (Z.of_nat x) (Z.of_nat y)) (seq 0 w).

Definition loop_from {A : Type} (body : Z -> A -> option A) (l : list nat)
           (a : option A) : option A :=
  fold_left (fun acc i => match acc with
                          | Some s => body (Z.of_nat i) s
                          | None => None
                          end) l a.

Lemma loop_from_cons {A : Type} (body : Z -> A -> option A) (i : nat)
      (l : list nat) (a : A) :
  loop_from body (i :: l) (Some a) = loop_from body l (body (Z.of_nat i) a).
Proof. reflexivity. Qed.

Lemma loop_from_none {A : Type} (body : Z -> A -> option A) (l : list nat) :
  loop_from body l None = None.
Proof. induction l as [|i l IH]; [reflexivity | exact IH]. Qed.

Lemma for_range_loop {A : Type} (n : Z) (body : Z -> A -> option A) (a : A) :
  for_range n body a = loop_from body (seq 0 (Z.to_nat n)) (Some a).
Proof. reflexivity. Qed.

Lemma store_at (b : Buffer) (l1 l2 : list Z) (a v idx : Z) :
  bytes b = l1 ++ a :: l2 -> idx = Z.of_nat (List.length l1) ->
  store idx v b
  = Some (mkBuffer (l1 ++ v :: l2) (idx :: written b)).
Proof.
  intros Hb ->. unfold store. rewrite Hb, length_app. cbn [List.length].
  replace ((0 <=? Z.of_nat (List.length l1))
           && (Z.of_nat (List.length l1)
               <? Z.of_nat (List.length l1 + S (List.length l2))))
    with true.
  - rewrite Nat2Z.id, set_nth_app. reflexivity.
  - symmetry. apply andb_true_iff. split; [apply Z.leb_le | apply Z.ltb_lt]; lia.
Qed.

Lemma render_pixel_at (sc : Scene F) (x y : Z) (b : Buffer)
      (done rest : list Z) (a0 a1 a2 : Z) :
  bytes b = done ++ a0 :: a1 :: a2 :: rest ->
  (y * g_width sc + x) * 3 = Z.of_nat (List.length done) ->
  render_pixel sc y x b
  = Some (mkBuffer (done ++ pixel_bytes sc x y ++ rest)
            (((y * g_width sc + x) * 3 + 2)
               :: ((y * g_width sc + x) * 3 + 1)
               :: ((y * g_width sc + x) * 3 + 0) :: written b)).
Proof.
  intros Hb Hi. unfold render_pixel.
  erewrite (store_at b done (a1 :: a2 :: rest) a0); [|exact Hb|lia].
  erewrite (store_at _ (done ++ [_]) (a2 :: rest) a1);
    [|cbn [bytes]; rewrite <- app_assoc; reflexivity
     |rewrite length_app; cbn [List.length]; lia].
  erewrite (store_at _ ((done ++ [_]) ++ [_]) rest a2);
    [|cbn [bytes]; rewrite <- !app_assoc; reflexivity
     |rewrite !length_app; cbn [List.length]; lia].
  cbn [bytes written]. unfold pixel_bytes. rewrite <- !app_assoc. reflexivity.
Qed.

Lemma indices_S (a k : nat) : indices a (S k) = Z.of_nat a :: indices (S a) k.
Proof. reflexivity. Qed.

Lemma indices_app (a k k' : nat) :
  indices a (k + k') = indices a k ++ indices (a + k) k'.
Proof. unfold indices. rewrite seq_app, map_app. reflexivity. Qed.

Lemma row_loop (sc : Scene F) (w y : nat) :
  g_width sc = Z.of_nat w ->
  forall (n s : nat) (b : Buffer) (done old rest : list Z),
    bytes b = done ++ old ++ rest ->
    List.length old = (3 * n)%nat ->
    List.length done = (3 * (y * w + s))%nat ->
    loop_from (render_pixel sc (Z.of_nat y)) (seq s n) (Some b)
    = Some (mkBuffer
              (done
               ++ flat_map (fun x => pixel_bytes sc (Z.of_nat x) (Z.of_nat y))
                           (seq s n)
               ++ rest)
              (rev (indices (List.length done) (3 * n)) ++ written b)).
Proof.
  intros Hw. induction n as [|n IH]; intros s b done old rest Hb Ho Hd.
  - destruct old; [|discriminate]. destruct b as [bb wb].
    cbn in Hb. subst bb. reflexivity.
  - destruct old as [|a0 [|a1 [|a2 old]]]; try (cbn in Ho; lia).
    cbn [seq]. rewrite loop_from_cons.
    rewrite (render_pixel_at sc _ _ b done (old ++ rest) a0 a1 a2 Hb)
      by (rewrite Hw; lia).
    rewrite (IH (S s) _ (done ++ pixel_bytes sc (Z.of_nat s) (Z.of_nat y))
                old rest).
    + cbn [flat_map bytes written]. f_equal. f_equal.
      * rewrite <- !app_assoc. reflexivity.
      * rewrite length_app. cbn [pixel_bytes List.length].
        replace (3 * S n)%nat with (3 + 3 * n)%nat by lia.
        rewrite indices_app. cbn [indices seq map]. rewrite rev_app_distr.
        cbn [rev app]. rewrite <- app_assoc. cbn [app].
        rewrite Hw. f_equal. f_equal; [|f_equal; [|f_equal]]; lia.
    + cbn [bytes]. rewrite <- !app_assoc. reflexivity.
    + cbn in Ho. lia.
    + rewrite length_app. cbn [pixel_bytes List.length]. lia.
Qed.

Lemma pixel_bytes_length (sc : Scene F) (x y : Z) :
  List.length (pixel_bytes sc x y) = 3%nat.
Proof. reflexivity. Qed.

Lemma row_bytes_length (sc : Scene F) (w y : nat) :
  List.length (row_bytes sc w y) = (w * 3)%nat.
Proof.
  unfold row_bytes. apply length_flat_map_block. intros i. reflexivity.
Qed.

Lemma render_row_at (sc : Scene F) (w y : nat) (b : Buffer)
      (done old rest : list Z) :
  g_width sc = Z.of_nat w ->
  bytes b = done ++ old ++ rest ->
  List.length old = (3 * w)%nat ->
  List.length done = (3 * (y * w))%nat ->
  render_row sc (Z.of_nat y) b
  = Some (mkBuffer (done ++ row_bytes sc w y ++ rest)
            (rev (indices (List.length done) (3 * w)) ++ written b)).
Proof.
  intros Hw Hb Ho Hd. unfold render_row. rewrite for_range_loop, Hw, Nat2Z.id.
  apply (row_loop sc w y Hw w 0 b done old rest Hb Ho). lia.
Qed.

Lemma scene_loop (sc : Scene F) (w : nat) :
  g_width sc = Z.of_nat w ->
  forall (n s : nat) (b : Buffer) (done old rest : list Z),
    bytes b = done ++ old ++ rest ->
    List.length old = (n * (3 * w))%nat ->
    List.length done = (s * (3 * w))%nat ->
    loop_from (render_row sc) (seq s n) (Some b)
    = Some (mkBuffer (done ++ flat_map (row_bytes sc w) (seq s n) ++ rest)
              (rev (indices (List.length done) (n * (3 * w))) ++ written b)).
Proof.
  intros Hw. induction n as [|n IH]; intros s b done old rest Hb Ho Hd.
  - destruct old; [|discriminate]. destruct b as [bb wb].
    cbn in Hb. subst bb. reflexivity.
  - cbn [seq]. rewrite loop_from_cons.
    rewrite <- (firstn_skipn (3 * w) old) in Hb. rewrite <- app_assoc in Hb.
    rewrite (render_row_at sc w s b done _ _ Hw Hb).
    2:{ rewrite length_firstn. lia. }
    2:{ lia. }
    rewrite (IH (S s) _ (done ++ row_bytes sc w s) (skipn (3 * w) old) rest).
    + cbn [flat_map bytes written]. f_equal. f_equal.
      * rewrite <- !app_assoc. reflexivity.
      * rewrite length_app, row_bytes_length.
        replace (S n * (3 * w))%nat with (3 * w + n * (3 * w))%nat by lia.
        rewrite indices_app, rev_app_distr, <- app_assoc.
        replace (List.length done + w * 3)%nat
          with (List.length done + 3 * w)%nat by lia.
        reflexivity.
    + cbn [bytes]. rewrite <- !app_assoc. reflexivity.
    + rewrite length_skipn. lia.
    + rewrite length_app, row_bytes_length. lia.
Qed.

Definition frame_bytes (sc : Scene F) : list Z :=
  flat_map (row_bytes sc (Z.to_nat (g_width sc)))
           (seq 0 (Z.to_nat (g_height sc))).

Lemma render_scene_frame (sc : Scene F) (b : Buffer) :
  0 <= g_width sc -> 0 <= g_height sc ->
  List.length (bytes b) = Z.to_nat (g_width sc * g_height sc * 3) ->
  render_scene sc b
  = Some (mkBuffer (frame_bytes sc)
            (rev (indices 0 (Z.to_nat (g_width sc * g_height sc * 3)))
             ++ written b)).
Proof.
  intros Hw Hh Hl. unfold render_scene. rewrite for_range_loop.
  rewrite (scene_loop sc (Z.to_nat (g_width sc)) (eq_sym (Z2Nat.id _ Hw))
             (Z.to_nat (g_height sc)) 0 b [] (bytes b) []).
  - cbn [app List.length]. rewrite app_nil_r. unfold frame_bytes.
    rewrite (frame_size _ _ Hw Hh). reflexivity.
  - rewrite app_nil_r. reflexivity.
  - rewrite Hl. apply frame_size; assumption.
  - reflexivity.
Qed.

Lemma frame_bytes_length (sc : Scene F) :
  0 <= g_width sc -> 0 <= g_height sc ->
  List.length (frame_bytes sc) = Z.to_nat (g_width sc * g_height sc * 3).
Proof.
  intros Hw Hh. unfold frame_bytes.
  rewrite (length_flat_map_block _ (Z.to_nat (g_width sc) * 3)).
  - rewrite (frame_size _ _ Hw Hh). lia.
  - intros i. apply row_bytes_length.
Qed.

Lemma frame_bytes_nth (sc : Scene F) (x y : Z) (c : nat) :
  0 <= x < g_width sc -> 0 <= y < g_height sc -> (c < 3)%nat ->
  nth (Z.to_nat ((y * g_width sc + x) * 3 + Z.of_nat c)) (frame_bytes sc) 0
  = nth c (pixel_bytes sc x y) 0.
Proof.
  intros Hx Hy Hc. unfold frame_bytes.
  set (w := Z.to_nat (g_width sc)).
  rewrite (pixel_offset _ _ _ c Hx) by lia. fold w.
  rewrite (nth_flat_map_block (row_bytes sc w) (w * 3) 0
             (row_bytes_length sc w)) by (unfold w; lia).
  unfold row_bytes.
  rewrite (nth_flat_map_block
             (fun x0 => pixel_bytes sc (Z.of_nat x0) (Z.of_nat (Z.to_nat y)))
             3 0) by (try reflexivity; unfold w; lia).
  rewrite !Z2Nat.id by lia. reflexivity.
Qed.

Lemma NoDup_map_inj {A B : Type} (f : A -> B) (l : list A) :
  (forall a a', f a = f a' -> a = a') -> NoDup l -> NoDup (map f l).
Proof.
  intros Hf. induction 1 as [|a l Hn Hl IH]; cbn; constructor; [|exact IH].
  intros Hin. apply in_map_iff in Hin. destruct Hin as (a' & E & Ha').
  apply Hf in E. subst a'. exact (Hn Ha').
Qed.

Lemma indices_NoDup (a k : nat) : NoDup (indices a k).
Proof.
  unfold indices. apply NoDup_map_inj.
  - intros i j H. apply Nat2Z.inj. exact H.
  - apply seq_NoDup.
Qed.

Lemma indices_In (k : nat) (i : Z) :
  In i (indices 0 k) <-> 0 <= i < Z.of_nat k.
Proof.
  unfold indices. rewrite in_map_iff. split.
  - intros (j & <- & Hj). apply in_seq in Hj. lia.
  - intros Hi. exists (Z.to_nat i). split; [lia|]. apply in_seq. lia.
Qed.

End Render.

(** The conversion to [unsigned char] of a non-negative binary32 value
    m * 2^e that fits is its integer part. *)
Lemma b32_to_uchar_floor (m : positive) (e : Z) :
  let v := if 0 <=? e then Zpos m * 2 ^ e else Zpos m / 2 ^ (- e) in
  v <= 255 -> b32_to_uchar (S754_finite false m e) = v.
Proof.
  cbv zeta. unfold b32_to_uchar, b32_trunc.
  destruct e as [|p|p]; cbn [Z.leb Z.compare Z.opp].
  - intros H. rewrite Z.shiftl_mul_pow2 by lia.
    replace ((0 <=? Z.pos m * 2 ^ 0) && (Z.pos m * 2 ^ 0 <=? 255)) with true;
      [reflexivity|].
    symmetry. apply andb_true_iff. split; [apply Z.leb_le | apply Z.leb_le];
      lia.
  - intros H. rewrite Z.shiftl_mul_pow2 by lia.
    replace ((0 <=? Z.pos m * 2 ^ Z.pos p) && (Z.pos m * 2 ^ Z.pos p <=? 255))
      with true; [reflexivity|].
    symmetry. apply andb_true_iff. split; [apply Z.leb_le | apply Z.leb_le];
      [|exact H].
    apply Z.mul_nonneg_nonneg; [lia|]. apply Z.pow_nonneg. lia.
  - intros H. rewrite Z.shiftr_div_pow2 by lia.
    replace ((0 <=? Z.pos m / 2 ^ Z.pos p) && (Z.pos m / 2 ^ Z.pos p <=? 255))
      with true; [reflexivity|].
    symmetry. apply andb_true_iff. split; [apply Z.leb_le | apply Z.leb_le];
      [|exact H].
    apply Z.div_pos; [lia|]. apply Z.pow_pos_nonneg; lia.
Qed.

(** C4. With a buffer of width*height*3 bytes (what [init_scene] and
    [reshape_cb] allocate), [render_scene] runs without leaving the buffer,
    keeps its length, and stores at offset (y*width + x)*3 the three
    channels of c = clamp01(trace(ray, 0)) converted as
    [static_cast<unsigned char>(c * 255.0f)], where ray starts at the camera
    with direction normalize(forward + u*right + v*up),
    u = (2*((x+0.5)/width) - 1)*aspect*tan(fov/2) and
    v = (2*((y+0.5)/height) - 1)*tan(fov/2). The indices written are
    0, 1, ..., width*height*3 - 1 in this order, each once; the bytes of a
    pixel depend on the scene and on (x, y) only. For a non-negative
    binary32 value the conversion is the integer part. The [int]
    arithmetic of the source is modelled in [Z]; width*height*3 is taken to
    fit in an [int]. *)
Theorem render_scene_spec :
  (forall (F : Type) (SC : Scalar F) (LM : Libm F) (sc : Scene F) (b : Buffer),
      0 <= g_width sc -> 0 <= g_height sc ->
      g_width sc * g_height sc * 3 <= 2147483647 ->
      List.length (bytes b) = Z.to_nat (g_width sc * g_height sc * 3) ->
      exists b',
        render_scene sc b = Some b'
        /\ List.length (bytes b')
           = Z.to_nat (g_width sc * g_height sc * 3)
        /\ written b'
           = rev (map Z.of_nat
                      (seq 0 (Z.to_nat (g_width sc * g_height sc * 3))))
             ++ written b
        /\ (written b = [] ->
            NoDup (written b')
            /\ forall i, In i (written b')
                         <-> 0 <= i < g_width sc * g_height sc * 3)
        /\ forall x y,
            0 <= x < g_width sc -> 0 <= y < g_height sc ->
            let scale := ftan (fmul cam_fov (flit 5 10)) in
            let aspect := fdiv (flit (g_width sc) 1) (flit (g_height sc) 1) in
            let u :=
              fmul (fmul (fsub (fmul (flit 2 1)
                                     (fdiv (fadd (flit x 1) (flit 5 10))
                                           (flit (g_width sc) 1)))
                               (flit 1 1))
                         aspect)
                   scale in
            let v :=
              fmul (fsub (fmul (flit 2 1)
                               (fdiv (fadd (flit y 1) (flit 5 10))
                                     (flit (g_height sc) 1)))
                         (flit 1 1))
                   scale in
            let ray :=
              mkRay (g_camPos sc)
                    (normalize (vadd (vadd (cam_forward sc)
                                           (smul u (cam_right sc)))
                                     (smul v (cam_up sc)))) in
            let c := clamp01 (trace sc ray 0) in
            let idx := (y * g_width sc + x) * 3 in
            nth (Z.to_nat (idx + 0)) (bytes b') 0
            = to_uchar (fmul (v_x c) (flit 255 1))
            /\ nth (Z.to_nat (idx + 1)) (bytes b') 0
               = to_uchar (fmul (v_y c) (flit 255 1))
            /\ nth (Z.to_nat (idx + 2)) (bytes b') 0
               = to_uchar (fmul (v_z c) (flit 255 1)))
  /\ (forall (m : positive) (e : Z),
         let v := if 0 <=? e then Zpos m * 2 ^ e else Zpos m / 2 ^ (- e) in
         v <= 255 -> b32_to_uchar (S754_finite false m e) = v)
  /\ (forall sign, b32_to_uchar (S754_zero sign) = 0).
Proof.
  split; [|split; [exact b32_to_uchar_floor | reflexivity]].
  intros F SC LM sc b Hw Hh _ Hl.
  exists (mkBuffer (frame_bytes sc)
            (rev (indices 0 (Z.to_nat (g_width sc * g_height sc * 3)))
             ++ written b)).
  split; [apply render_scene_frame; assumption|].
  split; [apply frame_bytes_length; assumption|].
  split; [reflexivity|].
  split.
  - intros Hb. cbn [written]. rewrite Hb, app_nil_r. split.
    + apply NoDup_rev. apply indices_NoDup.
    + intros i. rewrite <- in_rev, indices_In. rewrite Z2Nat.id by nia.
      reflexivity.
  - intros x y Hx Hy. cbv zeta. cbn [bytes].
    pose proof (frame_bytes_nth sc x y 0 Hx Hy ltac:(lia)) as H0.
    pose proof (frame_bytes_nth sc x y 1 Hx Hy ltac:(lia)) as H1.
    pose proof (frame_bytes_nth sc x y 2 Hx Hy ltac:(lia)) as H2.
    change (Z.of_nat 0) with 0 in H0. change (Z.of_nat 1) with 1 in H1.
    change (Z.of_nat 2) with 2 in H2.
    rewrite H0, H1, H2.
    unfold pixel_bytes, pixel_color, primary_ray, pixel_u, pixel_v,
      cam_aspect, cam_scale.
    cbn [nth]. repeat split; reflexivity.
Qed.

(** The room at a resolution of 2 by 2, with a fresh buffer. *)
Definition small_room : Scene float32 :=
  match reshape_cb 2 2 room [] with
  | Some (sc, _) => sc
  | None => room
  end.

Definition small_buffer : Buffer :=
  match reshape_cb 2 2 room [] with
  | Some (_, buf) => mkBuffer buf []
  | None => mkBuffer [] []
  end.

Lemma render_scene_spec_witness :
  exists b',
    render_scene (LM := sample_libm) small_room small_buffer = Some b'
    /\ List.length (bytes b') = 12%nat
    /\ written b' = [11; 10; 9; 8; 7; 6; 5; 4; 3; 2; 1; 0].
Proof.
  destruct (proj1 render_scene_spec float32 binary32 sample_libm
              small_room small_buffer)
    as (b' & E & Hlen & Hw & _).
  - vm_compute. discriminate.
  - vm_compute. discriminate.
  - vm_compute. discriminate.
  - vm_compute. reflexivity.
  - exists b'. split; [exact E|]. split; [exact Hlen | exact Hw].
Defined.

Example small_room_frame :
  option_map bytes (render_scene (LM := sample_libm) small_room small_buffer)
  = Some [130; 13; 13; 14; 14; 147; 61; 61; 61; 61; 61; 61].
Proof. vm_compute. reflexivity. Qed.


(** * Further properties of the ray tracer

    The rest of [exp3/src/main.cpp]: the clamping of colours, the record
    the two loops of [trace] keep, the geometry of the intersection tests
    and of the camera, the ambient term of [shade], and the GLUT callbacks
    with the loop that calls them. *)

(** ** Colours stay in range *)

Lemma b32_not_lt_le (a b : float32) :
  is_nan a = false -> is_nan b = false ->
  SFltb a b = false -> SFleb b a = true.
Proof.
  intros Na Nb H. destruct (SFcompare_rank a b Na Nb) as (c & E & Hc).
  unfold SFltb in H. rewrite E in H.
  apply SFleb_rank. repeat split; try assumption.
  destruct c; [right; symmetry; exact Hc | discriminate | left; exact Hc].
Qed.

Lemma b32_clamp_range (x : float32) :
  (is_nan x = true -> clamp x = S754_nan)
  /\ (is_nan x = false ->
      fleb (flit 0 1) (clamp x) = true /\ fleb (clamp x) (flit 1 1) = true).
Proof.
  split.
  - destruct x; try discriminate. reflexivity.
  - intros N. unfold clamp.
    destruct (fltb x (flit 0 1)) eqn:E0; [split; reflexivity|].
    destruct (fltb (flit 1 1) x) eqn:E1; [split; reflexivity|].
    split.
    + apply b32_not_lt_le; [exact N | reflexivity | exact E0].
    + apply b32_not_lt_le; [reflexivity | exact N | exact E1].
Qed.

Lemma b32_clamp_idem (x : float32) : clamp (clamp x) = clamp x.
Proof.
  destruct (fltb x (flit 0 1)) eqn:E0.
  { assert (H : clamp x = flit 0 1) by (unfold clamp; rewrite E0; reflexivity).
    rewrite H. reflexivity. }
  destruct (fltb (flit 1 1) x) eqn:E1.
  { assert (H : clamp x = flit 1 1)
      by (unfold clamp; rewrite E0, E1; reflexivity).
    rewrite H. reflexivity. }
  assert (H : clamp x = x) by (unfold clamp; rewrite E0, E1; reflexivity).
  rewrite H. exact H.
Qed.

Lemma real_clamp_range (x : R) : (0 <= clamp x <= 1)%R.
Proof.
  unfold clamp.
  destruct (fltb x (flit 0 1)) eqn:E0; [cbn; lra|].
  destruct (fltb (flit 1 1) x) eqn:E1; [cbn; lra|].
  apply real_fltb_false in E0, E1. cbn [flit real_arith] in E0, E1. lra.
Qed.

Lemma real_clamp_fixed (x : R) : (0 <= x <= 1)%R -> clamp x = x.
Proof.
  intros H. unfold clamp.
  replace (fltb x (flit 0 1)) with false
    by (symmetry; apply real_fltb_false; cbn [flit real_arith]; lra).
  replace (fltb (flit 1 1) x) with false
    by (symmetry; apply real_fltb_false; cbn [flit real_arith]; lra).
  reflexivity.
Qed.

Lemma real_clamp_idem (x : R) : clamp (clamp x) = clamp x.
Proof. apply real_clamp_fixed. apply real_clamp_range. Qed.

Definition in_unit_or_nan (x : float32) : Prop :=
  x = S754_nan
  \/ (fleb (flit 0 1) x = true /\ fleb x (flit 1 1) = true).

Lemma b32_clamp_unit (x : float32) : in_unit_or_nan (clamp x).
Proof.
  destruct (b32_clamp_range x) as [A B].
  destruct (is_nan x) eqn:N; [left; auto | right; auto].
Qed.

Section TraceRange.
Context {LM : Libm float32}.

Lemma b32_clamp01_idem (v : Vec3 float32) : clamp01 (clamp01 v) = clamp01 v.
Proof. unfold clamp01. cbn [v_x v_y v_z]. rewrite !b32_clamp_idem. reflexivity. Qed.

Lemma b32_trace_clamped (sc : Scene float32) (ray : Ray float32) (depth : Z) :
  exists v, trace sc ray depth = clamp01 v.
Proof.
  rewrite trace_unfold. cbv zeta.
  destruct (negb (hit (nearest_hit sc ray))).
  - exists background. reflexivity.
  - destruct (_ && _); eexists; reflexivity.
Qed.
End TraceRange.

Section TraceRangeR.
Context {LM : Libm R}.
Lemma real_clamp01_idem (v : Vec3 R) : clamp01 (clamp01 v) = clamp01 v.
Proof. unfold clamp01. cbn [v_x v_y v_z]. rewrite !real_clamp_idem. reflexivity. Qed.

Lemma real_trace_clamped (sc : Scene R) (ray : Ray R) (depth : Z) :
  exists v, trace sc ray depth = clamp01 v.
Proof.
  rewrite trace_unfold. cbv zeta.
  destruct (negb (hit (nearest_hit sc ray))).
  - exists background. unfold clamp01, background. cbn [v_x v_y v_z].
    rewrite !real_clamp_fixed; [reflexivity| | |]; cbn [flit real_arith]; lra.
  - destruct (_ && _); eexists; reflexivity.
Qed.
End TraceRangeR.

(** X1. Every colour [trace] returns has been through [clamp01]: in
    binary32 each channel is NaN or lies in [0, 1], in exact arithmetic it
    lies in [0, 1]; so the second [clamp01], which [render_scene] applies to
    the colour of a pixel, changes nothing. *)
Theorem colours_in_range :
  (forall (LM : Libm float32) (sc : Scene float32) (ray : Ray float32)
          (depth : Z) (x y : Z),
      let c := trace sc ray depth in
      in_unit_or_nan (v_x c) /\ in_unit_or_nan (v_y c)
      /\ in_unit_or_nan (v_z c)
      /\ clamp01 c = c
      /\ pixel_color sc x y = trace sc (primary_ray sc x y) 0)
  /\ (forall (LM : Libm R) (sc : Scene R) (ray : Ray R) (depth : Z) (x y : Z),
         let c := trace sc ray depth in
         (0 <= v_x c <= 1)%R /\ (0 <= v_y c <= 1)%R /\ (0 <= v_z c <= 1)%R
         /\ clamp01 c = c
         /\ pixel_color sc x y = trace sc (primary_ray sc x y) 0).
Proof.
  split.
  - intros LM sc ray depth x y. cbv zeta.
    destruct (b32_trace_clamped sc ray depth) as [v E]. rewrite E.
    cbn [clamp01 v_x v_y v_z].
    repeat split; try apply b32_clamp_unit.
    + fold (clamp01 v). apply b32_clamp01_idem.
    + unfold pixel_color.
      destruct (b32_trace_clamped sc (primary_ray sc x y) 0) as [w Ew].
      rewrite Ew. apply b32_clamp01_idem.
  - intros LM sc ray depth x y. cbv zeta.
    destruct (real_trace_clamped sc ray depth) as [v E]. rewrite E.
    cbn [clamp01 v_x v_y v_z].
    repeat split; try apply real_clamp_range.
    + fold (clamp01 v). apply real_clamp01_idem.
    + unfold pixel_color.
      destruct (real_trace_clamped sc (primary_ray sc x y) 0) as [w Ew].
      rewrite Ew. apply real_clamp01_idem.
Qed.

Section HitOrigin.
Context {F : Type} {SC : Scalar F} {SO : ScalarOrder F}.
Local Open Scope sc_scope.

Lemma hit_step_tMin {P : Type} (isect : P -> option (F * Vec3 F))
      (color : P -> Vec3 F) (k : F) (st : Hit F) (p : P) :
  hit_step isect color k st p = st
  \/ exists t n, isect p = Some (t, n)
                 /\ hit_step isect color k st p = mkHit t n (color p) k true
                 /\ (t <? tMin st) = true.
Proof.
  unfold hit_step. destruct (isect p) as [[t n]|]; [|left; reflexivity].
  destruct (t <? tMin st) eqn:E; [right | left; reflexivity].
  exists t, n. auto.
Qed.

(** A loop of [trace] returns its initial state or the record of a
    primitive of its list, hit below the initial [tMin]. *)
Lemma fold_hit_step_origin {P : Type} (isect : P -> option (F * Vec3 F))
      (color : P -> Vec3 F) (k : F) (l : list P) :
  forall st : Hit F,
    fold_left (hit_step isect color k) l st = st
    \/ exists p t n,
        In p l /\ isect p = Some (t, n)
        /\ fold_left (hit_step isect color k) l st
           = mkHit t n (color p) k true
        /\ (t <? tMin st) = true.
Proof.
  induction l as [|x l IH]; intros st; [left; reflexivity|].
  cbn [fold_left].
  destruct (IH (hit_step isect color k st x))
    as [E | (p & t & n & Hp & Ei & E & Ht)].
  - rewrite E. destruct (hit_step_tMin isect color k st x)
      as [E' | (t & n & Ei & E' & Ht)].
    + left. exact E'.
    + right. exists x, t, n. repeat split; auto. left. reflexivity.
  - right. exists p, t, n. repeat split; auto.
    + right. exact Hp.
    + destruct (hit_step_tMin isect color k st x)
        as [E' | (t' & n' & Ei' & E' & Ht')].
      * rewrite E' in Ht. exact Ht.
      * rewrite E' in Ht. cbn [tMin] in Ht.
        exact (fltb_trans _ _ _ Ht Ht').
Qed.

Lemma sphere_hit_not_below (ray : Ray F) (s : Sphere F) (t : F) (n : Vec3 F) :
  intersect_sphere ray s = Some (t, n) -> (t <? t_eps) = false.
Proof.
  rewrite intersect_sphere_eq.
  destruct (sphere_disc ray s <? flit 0 1); [discriminate|].
  destruct (sphere_t0 ray s <? t_eps) eqn:E0; cbn [andb].
  - destruct (sphere_t1 ray s <? t_eps) eqn:E1; [discriminate|].
    intros H. injection H as <- _. unfold sphere_t. rewrite E0. exact E1.
  - intros H. injection H as <- _. unfold sphere_t. rewrite E0. exact E0.
Qed.

Lemma plane_hit_inside (ray : Ray F) (pl : Plane F) (t : F) (n : Vec3 F) :
  intersect_plane ray pl = Some (t, n) ->
  t = plane_t ray pl /\ n = pl_n pl
  /\ (t <? t_eps) = false
  /\ (fabs (dot (pl_n pl) (ray_d ray)) <? flit 1 1000000) = false
  /\ outside_room (vadd (ray_o ray) (vscale (ray_d ray) t)) = false.
Proof.
  rewrite intersect_plane_eq.
  destruct (fabs (dot (pl_n pl) (ray_d ray)) <? flit 1 1000000);
    [discriminate|].
  destruct (plane_t ray pl <? t_eps) eqn:Et; [discriminate|].
  destruct (outside_room (plane_hit_point ray pl)) eqn:Eo; [discriminate|].
  cbn [orb]. intros H. injection H as <- <-. auto.
Qed.

(** Where the record of the nearest hit comes from. *)
Definition hit_of_sphere (sc : Scene F) (ray : Ray F) (h : Hit F) : Prop :=
  exists s, In s (g_spheres sc)
            /\ intersect_sphere ray s = Some (tMin h, hitNormal h)
            /\ hitColor h = s_color s
            /\ hitReflectivity h = flit 0 1.

Definition hit_of_plane (sc : Scene F) (ray : Ray F) (h : Hit F) : Prop :=
  exists pl, In pl (g_planes sc)
             /\ intersect_plane ray pl = Some (tMin h, hitNormal h)
             /\ hitColor h = pl_color pl
             /\ hitReflectivity h = flit 5 100.

Lemma nearest_hit_origin (sc : Scene F) (ray : Ray F) :
  let h := nearest_hit sc ray in
  (hit h = false /\ h = no_hit)
  \/ (hit h = true
      /\ (hit_of_sphere sc ray h \/ hit_of_plane sc ray h)
      /\ (tMin h <? flit (10 ^ 30) 1) = true
      /\ (tMin h <? t_eps) = false).
Proof.
  cbv zeta. unfold nearest_hit.
  change (sphere_step ray)
    with (hit_step (intersect_sphere ray) s_color (flit 0 1)).
  change (plane_step ray)
    with (hit_step (intersect_plane ray) pl_color (flit 5 100)).
  destruct (fold_hit_step_origin (intersect_sphere ray) s_color (flit 0 1)
              (g_spheres sc) no_hit)
    as [Es | (s & ts & ns & Hs & Eis & Es & Hts)]; rewrite Es.
  - destruct (fold_hit_step_origin (intersect_plane ray) pl_color (flit 5 100)
                (g_planes sc) no_hit)
      as [Ep | (pl & tp & np & Hp & Eip & Ep & Htp)]; rewrite Ep.
    + left. split; reflexivity.
    + right. cbn [hit tMin]. split; [reflexivity|]. split; [|split].
      * right. exists pl. cbn. auto.
      * exact Htp.
      * destruct (plane_hit_inside ray pl tp np Eip) as (_ & _ & H & _).
        exact H.
  - destruct (fold_hit_step_origin (intersect_plane ray) pl_color (flit 5 100)
                (g_planes sc) (mkHit ts ns (s_color s) (flit 0 1) true))
      as [Ep | (pl & tp & np & Hp & Eip & Ep & Htp)]; rewrite Ep.
    + right. cbn [hit tMin]. split; [reflexivity|]. split; [|split].
      * left. exists s. cbn. auto.
      * exact Hts.
      * exact (sphere_hit_not_below ray s ts ns Eis).
    + right. cbn [hit tMin] in *. split; [reflexivity|]. split; [|split].
      * right. exists pl. cbn. auto.
      * exact (fltb_trans _ _ _ Htp Hts).
      * destruct (plane_hit_inside ray pl tp np Eip) as (_ & _ & H & _).
        exact H.
Qed.

End HitOrigin.

Section RealGeometry.
Local Open Scope R_scope.

Lemma real_vec_eq (a b : Vec3 R) :
  v_x a = v_x b -> v_y a = v_y b -> v_z a = v_z b -> a = b.
Proof. destruct a, b. cbn. intros -> -> ->. reflexivity. Qed.

Lemma real_dot_eq (a b : Vec3 R) :
  dot a b = v_x a * v_x b + v_y a * v_y b + v_z a * v_z b.
Proof. reflexivity. Qed.

(** In exact arithmetic a plane hit lies on the plane. *)
Lemma real_plane_hit_on_plane (ray : Ray R) (pl : Plane R) (t : R) (n : Vec3 R) :
  intersect_plane ray pl = Some (t, n) ->
  dot (pl_n pl) (vadd (ray_o ray) (vscale (ray_d ray) t)) + pl_d pl = 0
  /\ 1 / 10000 <= t.
Proof.
  rewrite intersect_plane_eq.
  destruct (fltb (fabs (dot (pl_n pl) (ray_d ray))) (flit 1 1000000)) eqn:Ed;
    [discriminate|].
  destruct (fltb (plane_t ray pl) t_eps) eqn:Et; [discriminate|].
  destruct (outside_room (plane_hit_point ray pl)); [discriminate|].
  cbn [orb]. intros H. injection H as <- _.
  apply real_fltb_false in Ed, Et.
  cbn [flit fabs real_arith t_eps] in Ed, Et. unfold t_eps in Et.
  cbn [flit real_arith] in Et.
  split; [|exact Et].
  assert (Hne : dot (pl_n pl) (ray_d ray) <> 0).
  { intros Z. rewrite Z, Rabs_R0 in Ed. lra. }
  unfold plane_t, plane_num, plane_denom.
  cbn [fdiv fneg fadd real_arith].
  set (k := dot (pl_n pl) (ray_d ray)) in *.
  set (m := dot (pl_n pl) (ray_o ray)) in *.
  transitivity (m + (- (m + pl_d pl) / k) * k + pl_d pl).
  - unfold m, k. destruct ray as [[ox oy oz] [dx dy dz]], pl as [[nx ny nz] d c].
    cbn. ring.
  - field. exact Hne.
Qed.

(** The offset along the normal keeps a plane from shadowing its own
    points that face the light. *)
Lemma real_plane_no_self_shadow (pl : Plane R) (p L : Vec3 R) :
  dot (pl_n pl) (pl_n pl) = 1 ->
  dot (pl_n pl) p + pl_d pl = 0 ->
  0 <= dot (pl_n pl) L ->
  intersect_plane (mkRay (vadd p (vscale (pl_n pl) (flit 1 1000))) L) pl = None.
Proof.
  intros Hn Hp HL. rewrite intersect_plane_eq. cbn [ray_d ray_o].
  destruct (fltb (fabs (dot (pl_n pl) L)) (flit 1 1000000)) eqn:Ed;
    [reflexivity|].
  apply real_fltb_false in Ed. cbn [flit fabs real_arith] in Ed.
  rewrite Rabs_right in Ed by lra.
  replace (fltb (plane_t (mkRay (vadd p (vscale (pl_n pl) (flit 1 1000))) L) pl)
                t_eps) with true; [reflexivity|].
  symmetry. apply real_fltb_true. unfold t_eps, plane_t, plane_num, plane_denom.
  cbn [ray_d ray_o fdiv fneg fadd flit real_arith].
  set (k := dot (pl_n pl) L) in *.
  assert (E : dot (pl_n pl) (vadd p (vscale (pl_n pl) (1 / 1000))) + pl_d pl
              = 1 / 1000).
  { transitivity ((dot (pl_n pl) p + pl_d pl)
                  + 1 / 1000 * dot (pl_n pl) (pl_n pl)).
    - destruct pl as [[nx ny nz] d c], p as [px py pz]. cbn. ring.
    - rewrite Hp, Hn. ring. }
  rewrite E.
  assert (Hk : 0 < k) by lra.
  assert (- (1 / 1000) / k < 0).
  { unfold Rdiv at 1. apply Rmult_neg_pos; [lra|].
    apply Rinv_0_lt_compat. exact Hk. }
  lra.
Qed.

(** The same for a sphere: from a surface point pushed out along the
    outward normal, a ray that does not head inward misses the sphere. *)
Lemma real_sphere_no_self_shadow (s : Sphere R) (p n L : Vec3 R) :
  0 < s_radius s ->
  vsub p (s_center s) = vscale n (s_radius s) ->
  dot n n = 1 ->
  0 < dot L L ->
  0 <= dot n L ->
  intersect_sphere (mkRay (vadd p (vscale n (flit 1 1000))) L) s = None.
Proof.
  intros Hr Hp Hn HL HnL.
  set (ray := mkRay (vadd p (vscale n (flit 1 1000))) L).
  rewrite intersect_sphere_eq.
  destruct (fltb (sphere_disc ray s) (flit 0 1)) eqn:Ed; [reflexivity|].
  apply real_fltb_false in Ed. cbn [flit real_arith] in Ed.
  assert (Ha : sphere_a ray = dot L L) by reflexivity.
  assert (Hoc : sphere_oc ray s = vscale n (s_radius s + 1 / 1000)).
  { unfold sphere_oc, ray. cbn [ray_o].
    apply real_vec_eq;
      [apply (f_equal v_x) in Hp | apply (f_equal v_y) in Hp
       | apply (f_equal v_z) in Hp];
      revert Hp; destruct p as [px py pz], n as [nx ny nz], s as [[cx cy cz] r c];
      cbn; intros Hp; lra. }
  assert (Hb : sphere_b ray s = 2 * (s_radius s + 1 / 1000) * dot n L).
  { unfold sphere_b. rewrite Hoc. unfold ray. cbn [ray_d].
    destruct n as [nx ny nz], L as [lx ly lz]. cbn. field. }
  assert (Hc : sphere_c ray s
               = (s_radius s + 1 / 1000) * (s_radius s + 1 / 1000)
                 - s_radius s * s_radius s).
  { unfold sphere_c. rewrite Hoc.
    transitivity ((s_radius s + 1 / 1000) * (s_radius s + 1 / 1000)
                  * dot n n - s_radius s * s_radius s).
    - destruct n as [nx ny nz]. cbn. ring.
    - rewrite Hn. ring. }
  assert (Hb0 : 0 <= sphere_b ray s).
  { rewrite Hb. apply Rmult_le_pos; [lra | exact HnL]. }
  assert (Hc0 : 0 < sphere_c ray s) by (rewrite Hc; nra).
  assert (Hdisc : sphere_disc ray s
                  = sphere_b ray s * sphere_b ray s
                    - 4 * sphere_a ray * sphere_c ray s).
  { unfold sphere_disc. cbn [fmul fsub flit real_arith]. field. }
  assert (Hsd : sqrt (sphere_disc ray s) <= sphere_b ray s).
  { apply Rsqr_incr_0_var; [|exact Hb0].
    unfold Rsqr. rewrite sqrt_sqrt by lra. rewrite Hdisc, Ha. nra. }
  assert (H2a : 0 < 2 * sphere_a ray) by (rewrite Ha; lra).
  assert (Ht1 : sphere_t1 ray s <= 0).
  { unfold sphere_t1. cbn [fmul fsub fadd fdiv fneg fsqrt flit real_arith].
    replace (2 / 1 * sphere_a ray) with (2 * sphere_a ray) by field.
    unfold Rdiv.
    assert (Hi : 0 < / (2 * sphere_a ray)) by (apply Rinv_0_lt_compat; exact H2a).
    nra. }
  assert (Ht0 : sphere_t0 ray s <= 0).
  { pose proof (real_roots_ordered ray s) as Ho.
    rewrite Ha in Ho. specialize (Ho HL ltac:(lra)). lra. }
  replace (fltb (sphere_t0 ray s) t_eps) with true
    by (symmetry; apply real_fltb_true; unfold t_eps; cbn [flit real_arith]; lra).
  replace (fltb (sphere_t1 ray s) t_eps) with true
    by (symmetry; apply real_fltb_true; unfold t_eps; cbn [flit real_arith]; lra).
  reflexivity.
Qed.

End RealGeometry.

Section RealCamera.
Local Open Scope R_scope.

Lemma real_dot_vscale_l (a b : Vec3 R) (k : R) :
  dot (vscale a k) b = k * dot a b.
Proof. destruct a, b. cbn. ring. Qed.

Lemma real_dot_vscale_r (a b : Vec3 R) (k : R) :
  dot a (vscale b k) = k * dot a b.
Proof. destruct a, b. cbn. ring. Qed.

Lemma real_dot_comm (a b : Vec3 R) : dot a b = dot b a.
Proof. destruct a, b. cbn. ring. Qed.

Lemma real_cross_orth_l (a b : Vec3 R) : dot (cross a b) a = 0.
Proof. destruct a, b. cbn. ring. Qed.

Lemma real_cross_orth_r (a b : Vec3 R) : dot (cross a b) b = 0.
Proof. destruct a, b. cbn. ring. Qed.

(** Lagrange's identity. *)
Lemma real_cross_norm (a b : Vec3 R) :
  dot (cross a b) (cross a b) = dot a a * dot b b - dot a b * dot a b.
Proof. destruct a, b. cbn. ring. Qed.

Lemma real_normalize_zero (v : Vec3 R) :
  dot v v <= 1 / 100000000 -> normalize v = vzero.
Proof.
  intros H. apply normalize_small. apply real_fleb_true.
  cbn [flit real_arith]. exact H.
Qed.

Lemma real_normalize_unit (v : Vec3 R) :
  1 / 100000000 < dot v v ->
  normalize v = vscale v (1 / sqrt (dot v v))
  /\ dot (normalize v) (normalize v) = 1.
Proof.
  intros H.
  assert (E : normalize v = vscale v (1 / sqrt (dot v v))).
  { rewrite normalize_large.
    - cbn [fdiv fsqrt flit real_arith]. f_equal. field.
      assert (0 < sqrt (dot v v)) by (apply sqrt_lt_R0; lra). lra.
    - apply real_fleb_false. cbn [flit real_arith]. exact H. }
  split; [exact E|]. rewrite E, real_dot_vscale_l, real_dot_vscale_r.
  assert (HL : 0 < sqrt (dot v v)) by (apply sqrt_lt_R0; lra).
  assert (HLL : sqrt (dot v v) * sqrt (dot v v) = dot v v)
    by (apply sqrt_sqrt; lra).
  transitivity (dot v v / (sqrt (dot v v) * sqrt (dot v v))).
  - field. lra.
  - rewrite HLL. field. lra.
Qed.

Lemma real_normalize_orth (v w : Vec3 R) :
  dot v w = 0 -> dot (normalize v) w = 0.
Proof.
  intros H. destruct (Rle_lt_dec (dot v v) (1 / 100000000)) as [S|L].
  - rewrite (real_normalize_zero v S). destruct w. cbn. field.
  - destruct (real_normalize_unit v L) as [E _].
    rewrite E, real_dot_vscale_l, H. ring.
Qed.

Lemma real_vzero_dot : dot (vzero : Vec3 R) vzero = 0.
Proof. cbn. field. Qed.

Context {LM : Libm R}.

(** The camera basis is orthonormal whenever the look-at point is away
    from the camera, also when the view is vertical. *)
Lemma real_camera_basis (sc : Scene R) :
  1 / 100000000
  < dot (vsub (g_camLook sc) (g_camPos sc)) (vsub (g_camLook sc) (g_camPos sc)) ->
  dot (cam_forward sc) (cam_forward sc) = 1
  /\ dot (cam_right sc) (cam_right sc) = 1
  /\ dot (cam_up sc) (cam_up sc) = 1
  /\ dot (cam_right sc) (cam_forward sc) = 0
  /\ dot (cam_up sc) (cam_forward sc) = 0
  /\ dot (cam_up sc) (cam_right sc) = 0.
Proof.
  intros H.
  destruct (real_normalize_unit _ H) as [_ Hf]. fold (cam_forward sc) in Hf.
  assert (Hr : dot (cam_right sc) (cam_right sc) = 1
               /\ dot (cam_right sc) (cam_forward sc) = 0).
  { unfold cam_right. set (f := cam_forward sc) in *.
    set (up1 := mkVec3 (flit 0 1) (flit 1 1) (flit 0 1) : Vec3 R).
    set (up2 := mkVec3 (flit 0 1) (flit 0 1) (flit 1 1) : Vec3 R).
    assert (N1 : dot (cross f up1) (cross f up1) = 1 - v_y f * v_y f).
    { rewrite real_cross_norm, Hf. unfold up1. destruct f. cbn. field. }
    assert (N2 : dot (cross f up2) (cross f up2) = 1 - v_z f * v_z f).
    { rewrite real_cross_norm, Hf. unfold up2. destruct f. cbn. field. }
    assert (Hf' : v_x f * v_x f + v_y f * v_y f + v_z f * v_z f = 1)
      by exact Hf.
    destruct (Rle_lt_dec (dot (cross f up1) (cross f up1)) (1 / 100000000))
      as [S|L].
    - rewrite (real_normalize_zero _ S). rewrite real_vzero_dot.
      replace (fltb 0 (flit 1 1000000)) with true
        by (symmetry; apply real_fltb_true; cbn [flit real_arith]; lra).
      assert (L2 : 1 / 100000000 < dot (cross f up2) (cross f up2)).
      { rewrite N2. rewrite N1 in S. nra. }
      destruct (real_normalize_unit _ L2) as [_ U]. split; [exact U|].
      apply real_normalize_orth. apply real_cross_orth_l.
    - destruct (real_normalize_unit _ L) as [_ U]. rewrite U.
      replace (fltb 1 (flit 1 1000000)) with false
        by (symmetry; apply real_fltb_false; cbn [flit real_arith]; lra).
      split; [exact U|].
      apply real_normalize_orth. apply real_cross_orth_l. }
  destruct Hr as [Hr Hrf].
  assert (Nu : dot (cross (cam_right sc) (cam_forward sc))
                   (cross (cam_right sc) (cam_forward sc)) = 1).
  { rewrite real_cross_norm, Hr, Hf, Hrf. ring. }
  assert (Lu : 1 / 100000000
               < dot (cross (cam_right sc) (cam_forward sc))
                     (cross (cam_right sc) (cam_forward sc)))
    by (rewrite Nu; lra).
  destruct (real_normalize_unit _ Lu) as [_ Hu]. fold (cam_up sc) in Hu.
  repeat split; try assumption.
  - unfold cam_up. apply real_normalize_orth. apply real_cross_orth_r.
  - unfold cam_up. apply real_normalize_orth. apply real_cross_orth_l.
Qed.

(** Every primary ray then has a direction of unit length. *)
Lemma real_primary_ray_unit (sc : Scene R) (x y : Z) :
  1 / 100000000
  < dot (vsub (g_camLook sc) (g_camPos sc)) (vsub (g_camLook sc) (g_camPos sc)) ->
  ray_o (primary_ray sc x y) = g_camPos sc
  /\ dot (ray_d (primary_ray sc x y)) (ray_d (primary_ray sc x y)) = 1.
Proof.
  intros H. split; [reflexivity|].
  destruct (real_camera_basis sc H) as (Hf & Hr & Hu & Hrf & Huf & Hur).
  unfold primary_ray. cbn [ray_d].
  set (a := pixel_u sc x). set (b := pixel_v sc y).
  set (w := vadd (vadd (cam_forward sc) (smul a (cam_right sc)))
                 (smul b (cam_up sc))).
  assert (N : dot w w = 1 + a * a + b * b).
  { transitivity (dot (cam_forward sc) (cam_forward sc)
                  + a * a * dot (cam_right sc) (cam_right sc)
                  + b * b * dot (cam_up sc) (cam_up sc)
                  + 2 * a * dot (cam_right sc) (cam_forward sc)
                  + 2 * b * dot (cam_up sc) (cam_forward sc)
                  + 2 * a * b * dot (cam_up sc) (cam_right sc)).
    - unfold w. destruct (cam_forward sc), (cam_right sc), (cam_up sc).
      cbn. ring.
    - rewrite Hf, Hr, Hu, Hrf, Huf, Hur. ring. }
  apply real_normalize_unit. rewrite N. nra.
Qed.

End RealCamera.

(** ** binary32 sums and products commute

    Equalities of values of the model, which has a single NaN. *)

Lemma b32_mul_comm (x y : float32) : fmul x y = fmul y x.
Proof.
  destruct x as [sx|sx| |sx mx ex], y as [sy|sy| |sy my ey];
    cbn [fmul binary32 SFmul]; rewrite ?(xorb_comm sx sy); try reflexivity.
  rewrite (Pos.mul_comm mx my), (Z.add_comm ex ey). reflexivity.
Qed.

Lemma b32_add_comm (x y : float32) : fadd x y = fadd y x.
Proof.
  destruct x as [sx|sx| |sx mx ex], y as [sy|sy| |sy my ey];
    cbn [fadd binary32 SFadd]; try reflexivity;
    try (destruct sx, sy; reflexivity).
  rewrite (Z.min_comm ex ey), Z.add_comm. reflexivity.
Qed.

Lemma b32_dot_comm (a b : Vec3 float32) : dot a b = dot b a.
Proof.
  unfold dot.
  rewrite (b32_mul_comm (v_x a)), (b32_mul_comm (v_y a)),
    (b32_mul_comm (v_z a)).
  reflexivity.
Qed.

Lemma b32_vadd_comm (a b : Vec3 float32) : vadd a b = vadd b a.
Proof.
  unfold vadd.
  rewrite (b32_add_comm (v_x a)), (b32_add_comm (v_y a)),
    (b32_add_comm (v_z a)).
  reflexivity.
Qed.

(** Addition is not associative: 2^24 + 1 + 1. *)
Lemma b32_add_not_assoc :
  fadd (fadd (flit 16777216 1) (flit 1 1)) (flit 1 1 : float32)
  <> fadd (flit 16777216 1) (fadd (flit 1 1) (flit 1 1)).
Proof. vm_compute. discriminate. Qed.

Section RealNormalize.
Local Open Scope R_scope.

Lemma real_vscale_one (v : Vec3 R) : vscale v (1 / 1) = v.
Proof. destruct v. unfold vscale. cbn. f_equal; field. Qed.

Lemma real_normalize_idem (v : Vec3 R) : normalize (normalize v) = normalize v.
Proof.
  destruct (Rle_lt_dec (dot v v) (1 / 100000000)) as [S|L].
  - rewrite (real_normalize_zero v S). apply real_normalize_zero.
    rewrite real_vzero_dot. lra.
  - destruct (real_normalize_unit v L) as [_ U].
    destruct (real_normalize_unit (normalize v)) as [E _]; [rewrite U; lra|].
    rewrite E, U, sqrt_1. apply real_vscale_one.
Qed.

End RealNormalize.

(** ** The callbacks and the event loop *)

Section Program.

Context {F : Type} {SC : Scalar F} {LM : Libm F}.
Local Open Scope sc_scope.

(** [v.x += s] and the like, on one component of a vector. *)
Definition add_x (v : Vec3 F) (s : F) : Vec3 F := mkVec3 (v_x v + s) (v_y v) (v_z v).
Definition sub_x (v : Vec3 F) (s : F) : Vec3 F := mkVec3 (v_x v - s) (v_y v) (v_z v).
Definition add_y (v : Vec3 F) (s : F) : Vec3 F := mkVec3 (v_x v) (v_y v + s) (v_z v).
Definition sub_y (v : Vec3 F) (s : F) : Vec3 F := mkVec3 (v_x v) (v_y v - s) (v_z v).
Definition add_z (v : Vec3 F) (s : F) : Vec3 F := mkVec3 (v_x v) (v_y v) (v_z v + s).
Definition sub_z (v : Vec3 F) (s : F) : Vec3 F := mkVec3 (v_x v) (v_y v) (v_z v - s).

Definition with_camera (sc : Scene F) (pos look : Vec3 F) : Scene F :=
  mkScene (g_width sc) (g_height sc) pos look (g_lightPos sc)
    (g_spheres sc) (g_planes sc).

Definition with_light (sc : Scene F) (light : Vec3 F) : Scene F :=
  mkScene (g_width sc) (g_height sc) (g_camPos sc) (g_camLook sc) light
    (g_spheres sc) (g_planes sc).

(** The [switch] of [keyboard_cb]: [None] is [std::exit(0)] on ESC. *)
Definition keyboard_cb (key : ascii) (sc : Scene F) : option (Scene F) :=
  let camStep := flit 3 10 in
  let lightStep := flit 3 10 in
  if Ascii.eqb key (ascii_of_nat 27) then None
  else if Ascii.eqb key "w" then
    Some (with_camera sc (sub_z (g_camPos sc) camStep) (sub_z (g_camLook sc) camStep))
  else if Ascii.eqb key "s" then
    Some (with_camera sc (add_z (g_camPos sc) camStep) (add_z (g_camLook sc) camStep))
  else if Ascii.eqb key "a" then
    Some (with_camera sc (sub_x (g_camPos sc) camStep) (sub_x (g_camLook sc) camStep))
  else if Ascii.eqb key "d" then
    Some (with_camera sc (add_x (g_camPos sc) camStep) (add_x (g_camLook sc) camStep))
  else if Ascii.eqb key "q" then
    Some (with_camera sc (add_y (g_camPos sc) camStep) (add_y (g_camLook sc) camStep))
  else if Ascii.eqb key "e" then
    Some (with_camera sc (sub_y (g_camPos sc) camStep) (sub_y (g_camLook sc) camStep))
  else if Ascii.eqb key "i" then Some (with_light sc (sub_z (g_lightPos sc) lightStep))
  else if Ascii.eqb key "k" then Some (with_light sc (add_z (g_lightPos sc) lightStep))
  else if Ascii.eqb key "j" then Some (with_light sc (sub_x (g_lightPos sc) lightStep))
  else if Ascii.eqb key "l" then Some (with_light sc (add_x (g_lightPos sc) lightStep))
  else if Ascii.eqb key "u" then Some (with_light sc (add_y (g_lightPos sc) lightStep))
  else if Ascii.eqb key "o" then Some (with_light sc (sub_y (g_lightPos sc) lightStep))
  else Some sc.

(** What the callbacks send to GLUT, OpenGL and [std::cout]. *)
Inductive Output : Type :=
  | Clear
  | DisableDepthTest
  | RasterPos (x y : F)
  | DrawPixels (w h : Z) (pixels : list Z)
  | SwapBuffers
  | Viewport (x y w h : Z)
  | PostRedisplay
  | PrintPose (cam light : Vec3 F).

Record Globals : Type := mkGlobals {
  g_scene : Scene F;
  g_colorBuffer : list Z
}.

(** A callback returns, with the globals it leaves and what it sent out;
    or the program exits; or the behaviour is undefined (an access outside
    [g_colorBuffer], an [int] overflow). *)
Inductive Outcome : Type :=
  | Running (g : Globals) (out : list Output)
  | Exited
  | Undefined.

(** [render_scene] with its index in [int]: the largest value the loops
    compute is (y*g_width + x)*3 + 2 at the last pixel, width*height*3 - 1.
    Past [INT_MAX] the behaviour is undefined. *)
Definition render_scene_int (sc : Scene F) (b : Buffer) : option Buffer :=
  if (0 <? g_width sc)%Z && (0 <? g_height sc)%Z
     && (INT_MAX <? g_width sc * g_height sc * 3 - 1)%Z
  then None
  else render_scene sc b.

(** The pixel store state of OpenGL, which the program leaves at its
    initial value: rows start at multiples of 4 bytes. *)
Definition GL_UNPACK_ALIGNMENT : Z := 4.

(** The distance in bytes between two rows of [w] pixels of three bytes:
    3*w rounded up to a multiple of the alignment. *)
Definition row_stride (w : Z) : Z :=
  (GL_UNPACK_ALIGNMENT
   * ((3 * w + GL_UNPACK_ALIGNMENT - 1) / GL_UNPACK_ALIGNMENT))%Z.

(** The bytes [glDrawPixels] reads, counted from the pointer it is given:
    up to the end of the last row. *)
Definition bytes_read (w h : Z) : Z :=
  if (w <=? 0)%Z || (h <=? 0)%Z then 0%Z
  else ((h - 1) * row_stride w + 3 * w)%Z.

Definition unpack_row (w : Z) (data : list Z) (r : nat) : list Z :=
  firstn (Z.to_nat (3 * w)) (skipn (Z.to_nat (Z.of_nat r * row_stride w)) data).

(** [glDrawPixels(w, h, GL_RGB, GL_UNSIGNED_BYTE, data)]: the rows it
    unpacks, or [None] when it reads past the end of [data]. *)
Definition glDrawPixels (w h : Z) (data : list Z) : option (list Z) :=
  if (bytes_read w h <=? Z.of_nat (List.length data))%Z then
    Some (flat_map (unpack_row w data) (seq 0 (Z.to_nat h)))
  else None.

(** [display_cb]: the frame is rendered into the buffer, then drawn from
    it. *)
Definition display_cb (g : Globals) : Outcome :=
  let sc := g_scene g in
  match render_scene_int sc (mkBuffer (g_colorBuffer g) []) with
  | None => Undefined
  | Some b =>
      match glDrawPixels (g_width sc) (g_height sc) (bytes b) with
      | None => Undefined
      | Some pixels =>
          Running (mkGlobals sc (bytes b))
            [Clear; DisableDepthTest; RasterPos (- flit 1 1) (- flit 1 1);
             DrawPixels (g_width sc) (g_height sc) pixels; SwapBuffers]
      end
  end.

(** [reshape_cb] with what it sends out: nothing on the early return. *)
Definition reshape_event (w h : Z) (g : Globals) : Outcome :=
  match reshape_cb w h (g_scene g) (g_colorBuffer g) with
  | None => Undefined
  | Some (sc, buf) =>
      if (w <=? 0)%Z || (h <=? 0)%Z then Running g []
      else Running (mkGlobals sc buf) [Viewport 0 0 w h; PostRedisplay]
  end.

Definition keyboard_event (key : ascii) (g : Globals) : Outcome :=
  match keyboard_cb key (g_scene g) with
  | None => Exited
  | Some sc =>
      Running (mkGlobals sc (g_colorBuffer g))
        [PrintPose (g_camPos sc) (g_lightPos sc); PostRedisplay]
  end.

Inductive Event : Type :=
  | Display
  | Reshape (w h : Z)
  | Keyboard (key : ascii).

Definition dispatch (e : Event) (g : Globals) : Outcome :=
  match e with
  | Display => display_cb g
  | Reshape w h => reshape_event w h g
  | Keyboard key => keyboard_event key g
  end.

(** The globals when [main] enters [glutMainLoop]. *)
Definition started : Globals :=
  mkGlobals (fst (init_scene initial_scene []))
            (snd (init_scene initial_scene [])).

(** [glutMainLoop] on a sequence of events, from given globals. *)
Fixpoint main_loop (events : list Event) (g : Globals) (out : list Output)
  : Outcome :=
  match events with
  | [] => Running g out
  | e :: rest =>
      match dispatch e g with
      | Running g' out' => main_loop rest g' (out ++ out')
      | Exited => Exited
      | Undefined => Undefined
      end
  end.

Definition main (events : list Event) : Outcome := main_loop events started [].

(** The rows of a frame of [w] by [h] pixels lie as [glDrawPixels] expects
    them: no padding, or one row only. *)
Definition packed (w h : Z) : Prop :=
  row_stride w = (3 * w)%Z \/ (h <= 1)%Z.

(** The buffer matches the resolution, its size fits in an [int], its rows
    are packed, and the room is the one of [init_scene]. *)
Definition well_formed (g : Globals) : Prop :=
  (0 < g_width (g_scene g))%Z /\ (0 < g_height (g_scene g))%Z
  /\ (g_width (g_scene g) * g_height (g_scene g) * 3 <= INT_MAX)%Z
  /\ packed (g_width (g_scene g)) (g_height (g_scene g))
  /\ List.length (g_colorBuffer g)
     = Z.to_nat (g_width (g_scene g) * g_height (g_scene g) * 3)
  /\ g_spheres (g_scene g) = init_spheres
  /\ g_planes (g_scene g) = init_planes.

(** A reshape event that is not ignored asks for a size that fits in an
    [int] and whose rows are packed. *)
Definition fits (e : Event) : Prop :=
  match e with
  | Reshape w h =>
      (0 < w)%Z -> (0 < h)%Z -> (w * h * 3 <= INT_MAX)%Z /\ packed w h
  | _ => True
  end.

Lemma resize_length (n : Z) (buf : list Z) :
  List.length (resize n buf) = Z.to_nat n.
Proof.
  unfold resize. rewrite length_app, length_firstn, repeat_length. lia.
Qed.

Lemma keyboard_cb_fields (key : ascii) (sc sc' : Scene F) :
  keyboard_cb key sc = Some sc' ->
  g_width sc' = g_width sc /\ g_height sc' = g_height sc
  /\ g_spheres sc' = g_spheres sc /\ g_planes sc' = g_planes sc.
Proof.
  unfold keyboard_cb.
  repeat (match goal with
          | |- context [if ?b then _ else _] => destruct b
          end; [try discriminate;
                intros H; injection H as <-; repeat split; reflexivity|]).
  intros H; injection H as <-; repeat split; reflexivity.
Qed.

(** The stride is 3*w or more, and a multiple of the alignment. *)
Lemma row_stride_bounds (w : Z) :
  (3 * w <= row_stride w < 3 * w + 4)%Z.
Proof.
  unfold row_stride, GL_UNPACK_ALIGNMENT.
  pose proof (Z.mul_div_le (3 * w + 4 - 1) 4 eq_refl).
  pose proof (Z.mul_succ_div_gt (3 * w + 4 - 1) 4 eq_refl).
  lia.
Qed.

(** Rows need no padding exactly when 3*w is a multiple of 4. *)
Lemma row_stride_packed (w : Z) :
  row_stride w = (3 * w)%Z <-> ((3 * w) mod 4 = 0)%Z.
Proof.
  pose proof (row_stride_bounds w) as B. revert B.
  unfold row_stride, GL_UNPACK_ALIGNMENT.
  pose proof (Z.div_mod (3 * w) 4 ltac:(discriminate)).
  pose proof (Z.mod_pos_bound (3 * w) 4 eq_refl).
  pose proof (Z.div_mod (3 * w + 4 - 1) 4 ltac:(discriminate)).
  pose proof (Z.mod_pos_bound (3 * w + 4 - 1) 4 eq_refl).
  lia.
Qed.

Lemma rows_from (n : nat) (data : list Z) (h k : nat) :
  List.length data = ((k + h) * n)%nat ->
  flat_map (fun r => firstn n (skipn (r * n) data)) (seq k h)
  = skipn (k * n) data.
Proof.
  revert k. induction h as [|h IH]; intros k Hl.
  - cbn [seq flat_map]. symmetry. apply skipn_all2. lia.
  - cbn [seq flat_map]. rewrite (IH (S k)) by lia.
    replace (S k * n)%nat with (n + k * n)%nat by lia.
    rewrite <- skipn_skipn. apply firstn_skipn.
Qed.

(** Packed rows: [glDrawPixels] stays inside a buffer of w*h*3 bytes and
    unpacks it as it is. *)
Lemma glDrawPixels_packed (w h : Z) (data : list Z) :
  (0 <= w)%Z -> (0 <= h)%Z -> packed w h ->
  List.length data = Z.to_nat (w * h * 3) ->
  glDrawPixels w h data = Some data.
Proof.
  intros Hw Hh Hp Hl. unfold glDrawPixels.
  assert (Hn : Z.of_nat (List.length data) = (w * h * 3)%Z)
    by (rewrite Hl; apply Z2Nat.id; nia).
  assert (Hr : (bytes_read w h <= w * h * 3)%Z).
  { unfold bytes_read.
    destruct ((w <=? 0)%Z || (h <=? 0)%Z); [nia|].
    destruct Hp as [Hp|Hp]; [rewrite Hp; nia|].
    assert (h = 0 \/ h = 1)%Z as [->| ->] by lia; [|lia].
    pose proof (row_stride_bounds w). nia. }
  replace (bytes_read w h <=? Z.of_nat (List.length data))%Z with true
    by (symmetry; apply Z.leb_le; lia).
  f_equal.
  assert (h = 0 \/ (h = 1 /\ row_stride w <> 3 * w) \/ row_stride w = 3 * w)%Z
    as [->|[[-> _]|Hs]] by (destruct Hp; lia).
  - cbn [Z.to_nat seq flat_map]. symmetry. apply length_zero_iff_nil.
    rewrite Hl. f_equal. lia.
  - replace (Z.to_nat 1) with 1%nat by reflexivity.
    cbn [seq flat_map]. rewrite app_nil_r. unfold unpack_row.
    change (Z.of_nat 0 * row_stride w)%Z with 0%Z. cbn [Z.to_nat skipn].
    apply firstn_all2. rewrite Hl. lia.
  - rewrite (flat_map_ext (unpack_row w data)
               (fun r => firstn (Z.to_nat (3 * w))
                                (skipn (r * Z.to_nat (3 * w)) data))).
    + rewrite rows_from; [reflexivity|]. rewrite Hl. nia.
    + intros r. unfold unpack_row. rewrite Hs. do 2 f_equal. nia.
Qed.

(** Padded rows: with two rows or more [glDrawPixels] reads past a buffer
    of w*h*3 bytes. *)
Lemma glDrawPixels_padded (w h : Z) (data : list Z) :
  (0 < w)%Z -> (1 < h)%Z -> row_stride w <> (3 * w)%Z ->
  List.length data = Z.to_nat (w * h * 3) ->
  glDrawPixels w h data = None.
Proof.
  intros Hw Hh Hs Hl. unfold glDrawPixels.
  assert (Hn : Z.of_nat (List.length data) = (w * h * 3)%Z)
    by (rewrite Hl; apply Z2Nat.id; nia).
  replace (bytes_read w h <=? Z.of_nat (List.length data))%Z with false;
    [reflexivity|].
  symmetry. apply Z.leb_gt. rewrite Hn. unfold bytes_read.
  replace ((w <=? 0)%Z || (h <=? 0)%Z) with false
    by (symmetry; apply orb_false_iff; split; apply Z.leb_gt; lia).
  pose proof (row_stride_bounds w). nia.
Qed.

Lemma render_scene_int_fits (sc : Scene F) (b : Buffer) :
  (g_width sc * g_height sc * 3 <= INT_MAX)%Z ->
  render_scene_int sc b = render_scene sc b.
Proof.
  intros H. unfold render_scene_int.
  replace (INT_MAX <? g_width sc * g_height sc * 3 - 1)%Z with false;
    [rewrite andb_false_r; reflexivity|].
  symmetry. apply Z.ltb_ge. lia.
Qed.

(** What [display_cb] does on a buffer of the frame's size: the frame is
    rendered and drawn when its rows are packed, and the read leaves the
    buffer when they are padded. *)
Lemma display_cb_frame (sc : Scene F) (buf : list Z) :
  (0 <= g_width sc)%Z -> (0 <= g_height sc)%Z ->
  (g_width sc * g_height sc * 3 <= INT_MAX)%Z ->
  List.length buf = Z.to_nat (g_width sc * g_height sc * 3) ->
  (packed (g_width sc) (g_height sc) ->
   display_cb (mkGlobals sc buf)
   = Running (mkGlobals sc (frame_bytes sc))
       [Clear; DisableDepthTest; RasterPos (- flit 1 1) (- flit 1 1);
        DrawPixels (g_width sc) (g_height sc) (frame_bytes sc); SwapBuffers])
  /\ ((1 < g_height sc)%Z -> row_stride (g_width sc) <> (3 * g_width sc)%Z ->
      display_cb (mkGlobals sc buf) = Undefined).
Proof.
  intros Hw Hh Hi Hl.
  pose proof (frame_bytes_length sc Hw Hh) as Hf.
  assert (E : render_scene_int sc (mkBuffer buf [])
              = Some (mkBuffer (frame_bytes sc)
                        (rev (indices 0 (Z.to_nat (g_width sc * g_height sc * 3)))
                         ++ []))).
  { rewrite render_scene_int_fits by exact Hi.
    apply (render_scene_frame sc (mkBuffer buf [])); assumption. }
  unfold display_cb. cbn [g_scene g_colorBuffer]. rewrite E. cbn [bytes].
  split.
  - intros Hp. rewrite (glDrawPixels_packed _ _ _ Hw Hh Hp Hf). reflexivity.
  - intros H1 Hs.
    assert (0 < g_width sc)%Z.
    { destruct (Z.eq_dec (g_width sc) 0) as [E0|]; [|lia].
      exfalso. apply Hs. rewrite E0. reflexivity. }
    rewrite (glDrawPixels_padded _ _ _ H H1 Hs Hf). reflexivity.
Qed.

Lemma started_well_formed : well_formed started.
Proof.
  unfold well_formed, started, init_scene.
  cbn [fst snd g_scene g_colorBuffer g_width g_height g_spheres g_planes
       initial_scene].
  split; [reflexivity|]. split; [reflexivity|].
  split; [vm_compute; discriminate|].
  split; [left; vm_compute; reflexivity|].
  split; [apply resize_length|]. split; reflexivity.
Qed.

Lemma dispatch_well_formed (e : Event) (g : Globals) :
  well_formed g -> fits e ->
  dispatch e g <> Undefined
  /\ forall g' out, dispatch e g = Running g' out -> well_formed g'.
Proof.
  intros (Hw & Hh & Hi & Hk & Hl & Hs & Hp) Hf.
  destruct e as [|w h|key]; cbn [dispatch].
  - destruct (display_cb_frame (g_scene g) (g_colorBuffer g)) as [D _];
      try assumption; try lia.
    replace g with (mkGlobals (g_scene g) (g_colorBuffer g))
      by (destruct g; reflexivity).
    rewrite (D Hk). cbn [g_scene g_colorBuffer].
    split; [discriminate|].
    intros g' out E. injection E as <- _.
    unfold well_formed. cbn [g_scene g_colorBuffer].
    repeat split; try assumption. apply frame_bytes_length; lia.
  - unfold reshape_event, reshape_cb. cbn [fits] in Hf.
    destruct ((w <=? 0)%Z || (h <=? 0)%Z) eqn:E.
    + split; [discriminate|]. intros g' out H. injection H as <- _.
      unfold well_formed. auto 10.
    + apply orb_false_iff in E. destruct E as [Ew Eh].
      apply Z.leb_gt in Ew, Eh. destruct (Hf Ew Eh) as [Hi' Hk'].
      replace (INT_MAX <? w * h * 3)%Z with false
        by (symmetry; apply Z.ltb_ge; exact Hi').
      split; [discriminate|]. intros g' out H. injection H as <- _.
      unfold well_formed. cbn [g_scene g_colorBuffer g_width g_height
        g_spheres g_planes].
      repeat split; try assumption. apply resize_length.
  - unfold keyboard_event.
    destruct (keyboard_cb key (g_scene g)) as [sc'|] eqn:E.
    + split; [discriminate|]. intros g' out H. injection H as <- _.
      destruct (keyboard_cb_fields key _ _ E) as (A & B & C & D).
      unfold well_formed. cbn [g_scene g_colorBuffer].
      rewrite A, B, C, D. auto 10.
    + split; [discriminate|]. intros g' out H. discriminate.
Qed.

Lemma main_loop_well_formed (events : list Event) :
  forall g out,
    well_formed g -> Forall fits events ->
    main_loop events g out <> Undefined
    /\ forall g' out', main_loop events g out = Running g' out' ->
                       well_formed g'.
Proof.
  induction events as [|e rest IH]; intros g out Hg Hf.
  - cbn. split; [discriminate|]. intros g' out' H. injection H as <- _.
    exact Hg.
  - inversion Hf as [|? ? He Hrest]; subst.
    destruct (dispatch_well_formed e g Hg He) as [Hu Hr].
    cbn [main_loop]. destruct (dispatch e g) as [g1 out1| |] eqn:E.
    + apply IH; [apply (Hr g1 out1); reflexivity | exact Hrest].
    + split; [discriminate|]. intros ? ? H. discriminate.
    + contradiction.
Qed.

Lemma reshape_event_running (w h : Z) (g : Globals) :
  (0 < w)%Z -> (0 < h)%Z -> (w * h * 3 <= INT_MAX)%Z ->
  reshape_event w h g
  = Running (mkGlobals
               (mkScene w h (g_camPos (g_scene g)) (g_camLook (g_scene g))
                  (g_lightPos (g_scene g)) (g_spheres (g_scene g))
                  (g_planes (g_scene g)))
               (resize (w * h * 3) (g_colorBuffer g)))
      [Viewport 0 0 w h; PostRedisplay].
Proof.
  intros Hw Hh Hi. unfold reshape_event, reshape_cb.
  replace ((w <=? 0)%Z || (h <=? 0)%Z) with false
    by (symmetry; apply orb_false_iff; split; apply Z.leb_gt; assumption).
  replace (INT_MAX <? w * h * 3)%Z with false
    by (symmetry; apply Z.ltb_ge; exact Hi).
  reflexivity.
Qed.

(** A reshape to padded rows, then a display: the read of [glDrawPixels]
    leaves the buffer. *)
Lemma reshape_then_display (w h : Z) (g : Globals) :
  (0 < w)%Z -> (1 < h)%Z -> (w * h * 3 <= INT_MAX)%Z ->
  row_stride w <> (3 * w)%Z ->
  main_loop [Reshape w h; Display] g [] = Undefined.
Proof.
  intros Hw Hh Hi Hs. cbn [main_loop dispatch].
  rewrite (reshape_event_running w h g) by lia.
  match goal with
  | |- context [display_cb (mkGlobals ?sc ?buf)] =>
      destruct (display_cb_frame sc buf) as [_ D]
  end; cbn [g_width g_height]; try lia.
  - apply resize_length.
  - cbn [g_width g_height] in D. rewrite (D Hh Hs). reflexivity.
Qed.

End Program.

(** ** The keys *)

Definition camera_keys : list ascii := ["w"; "s"; "a"; "d"; "q"; "e"]%char.
Definition light_keys : list ascii := ["i"; "k"; "j"; "l"; "u"; "o"]%char.

(** A key and the key that moves the other way. *)
Definition opposite_keys : list (ascii * ascii) :=
  [("w", "s"); ("s", "w"); ("a", "d"); ("d", "a"); ("q", "e"); ("e", "q");
   ("i", "k"); ("k", "i"); ("j", "l"); ("l", "j"); ("u", "o"); ("o", "u")]%char.

Definition then_key {F : Type} {SC : Scalar F} (k1 k2 : ascii) (sc : Scene F)
  : option (Scene F) :=
  match keyboard_cb k1 sc with
  | Some sc1 => keyboard_cb k2 sc1
  | None => None
  end.

Section Keys.

Context {F : Type} {SC : Scalar F}.

(** The six moves of a point by one step along an axis. *)
Definition steps : list (Vec3 F -> Vec3 F) :=
  [ fun v => sub_z v (flit 3 10); fun v => add_z v (flit 3 10);
    fun v => sub_x v (flit 3 10); fun v => add_x v (flit 3 10);
    fun v => add_y v (flit 3 10); fun v => sub_y v (flit 3 10) ].

(** The scenes a key can lead to. *)
Definition key_targets (sc : Scene F) : list (Scene F) :=
  sc
  :: map (fun f => with_camera sc (f (g_camPos sc)) (f (g_camLook sc))) steps
  ++ map (fun f => with_light sc (f (g_lightPos sc))) steps.

Lemma keyboard_cb_cases (key : ascii) (sc sc' : Scene F) :
  keyboard_cb key sc = Some sc' -> In sc' (key_targets sc).
Proof.
  unfold keyboard_cb. cbv zeta.
  destruct (Ascii.eqb key (ascii_of_nat 27)); [discriminate|].
  repeat (match goal with
          | |- context [if ?b then _ else _] => destruct b
          end;
          [intros H; injection H as <-; cbn;
           repeat (first [left; reflexivity | right])
          |]).
  intros H. injection H as <-. left. reflexivity.
Qed.

Lemma primary_ray_dir_eq {LM : Libm F} (sc sc' : Scene F) (x y : Z) :
  vsub (g_camLook sc') (g_camPos sc') = vsub (g_camLook sc) (g_camPos sc) ->
  g_width sc' = g_width sc -> g_height sc' = g_height sc ->
  cam_forward sc' = cam_forward sc /\ cam_right sc' = cam_right sc
  /\ cam_up sc' = cam_up sc
  /\ ray_d (primary_ray sc' x y) = ray_d (primary_ray sc x y).
Proof.
  intros Hv Hw Hh.
  assert (Ef : cam_forward sc' = cam_forward sc)
    by (unfold cam_forward; rewrite Hv; reflexivity).
  assert (Er : cam_right sc' = cam_right sc)
    by (unfold cam_right; rewrite Ef; reflexivity).
  assert (Eu : cam_up sc' = cam_up sc)
    by (unfold cam_up; rewrite Ef, Er; reflexivity).
  repeat split; try assumption.
  unfold primary_ray, pixel_u, pixel_v, cam_aspect. cbn [ray_d].
  rewrite Ef, Er, Eu, Hw, Hh. reflexivity.
Qed.

End Keys.

Ltac settle_key :=
  split;
  [ split; intros H; first [discriminate H | reflexivity]
  | intros sc' H; first
      [ discriminate H
      | injection H as <-;
        repeat split; try reflexivity; intros; try discriminate;
        try reflexivity ] ].

(** X2. [keyboard_cb] exits on ESC and on no other key. Whatever the key,
    it leaves the resolution, the spheres and the planes alone; only
    i, k, j, l, u, o change the light, only w, s, a, d, q, e change the
    camera, and any other key changes nothing. *)
Theorem keyboard_moves :
  forall (F : Type) (SC : Scalar F) (key : ascii) (sc : Scene F),
    (keyboard_cb key sc = None <-> key = ascii_of_nat 27)
    /\ forall sc',
        keyboard_cb key sc = Some sc' ->
        g_width sc' = g_width sc /\ g_height sc' = g_height sc
        /\ g_spheres sc' = g_spheres sc /\ g_planes sc' = g_planes sc
        /\ (existsb (Ascii.eqb key) light_keys = false ->
            g_lightPos sc' = g_lightPos sc)
        /\ (existsb (Ascii.eqb key) camera_keys = false ->
            g_camPos sc' = g_camPos sc /\ g_camLook sc' = g_camLook sc)
        /\ (existsb (Ascii.eqb key) (camera_keys ++ light_keys) = false ->
            sc' = sc).
Proof.
  intros F SC key sc.
  destruct key as [[] [] [] [] [] [] [] []]; cbv [keyboard_cb Ascii.eqb
    Bool.eqb ascii_of_nat ascii_of_pos ascii_of_N Pos.of_succ_nat Pos.succ
    N.of_nat shift zero one existsb light_keys camera_keys app orb andb];
    settle_key.
Qed.

(** The room after the key w. *)
Definition room_after_w : Scene float32 :=
  with_camera room (sub_z (g_camPos room) (flit 3 10))
              (sub_z (g_camLook room) (flit 3 10)).

Lemma keyboard_moves_witness :
  keyboard_cb "w" room = Some room_after_w
  /\ g_lightPos room_after_w = g_lightPos room
  /\ g_spheres room_after_w = g_spheres room.
Proof.
  assert (E : keyboard_cb "w" room = Some room_after_w)
    by (vm_compute; reflexivity).
  split; [exact E|].
  destruct (proj2 (keyboard_moves float32 binary32 "w" room) room_after_w E)
    as (_ & _ & Hs & _ & Hl & _).
  split; [apply Hl; vm_compute; reflexivity | exact Hs].
Defined.

Section RealKeys.

Local Open Scope R_scope.

Lemma real_steps_translate :
  Forall (fun f : Vec3 R -> Vec3 R =>
            forall a b, vsub (f a) (f b) = vsub a b) steps.
Proof.
  repeat constructor; intros [ax ay az] [bx by_ bz];
    cbv [vsub sub_x sub_y sub_z add_x add_y add_z v_x v_y v_z
         fadd fsub flit real_arith];
    f_equal; ring.
Qed.

Lemma real_key_translates (key : ascii) (sc sc' : Scene R) :
  keyboard_cb key sc = Some sc' ->
  vsub (g_camLook sc') (g_camPos sc') = vsub (g_camLook sc) (g_camPos sc).
Proof.
  intros H. apply keyboard_cb_cases in H.
  pose proof real_steps_translate as T.
  rewrite Forall_forall in T.
  destruct H as [<-|H]; [reflexivity|].
  apply in_app_or in H. destruct H as [H|H];
    apply in_map_iff in H; destruct H as (f & <- & Hf).
  - cbn [with_camera g_camLook g_camPos]. apply (T f Hf).
  - reflexivity.
Qed.

Lemma real_opposite_keys (sc : Scene R) :
  Forall (fun p => then_key (fst p) (snd p) sc = Some sc) opposite_keys.
Proof.
  destruct sc as [w h [px py pz] [lx ly lz] [gx gy gz] ss ps].
  repeat constructor;
    cbv [then_key keyboard_cb fst snd Ascii.eqb Bool.eqb ascii_of_nat
         ascii_of_pos ascii_of_N Pos.of_succ_nat Pos.succ N.of_nat shift
         zero one with_camera with_light sub_x sub_y sub_z add_x add_y add_z
         g_width g_height g_camPos g_camLook g_lightPos g_spheres g_planes
         v_x v_y v_z fadd fsub flit real_arith];
    f_equal; f_equal; f_equal; ring.
Qed.

End RealKeys.

(** X3. In exact arithmetic a key moves the camera position and the
    look-at point by the same vector: the view vector look - pos, the
    camera basis and the direction of every primary ray are unchanged.
    Each of w/s, a/d, q/e, i/k, j/l, u/o undoes the other. *)
Theorem keyboard_translates :
  (forall (key : ascii) (sc sc' : Scene R),
      keyboard_cb key sc = Some sc' ->
      vsub (g_camLook sc') (g_camPos sc') = vsub (g_camLook sc) (g_camPos sc)
      /\ cam_forward sc' = cam_forward sc
      /\ cam_right sc' = cam_right sc
      /\ cam_up sc' = cam_up sc
      /\ forall (LM : Libm R) (x y : Z),
          ray_d (primary_ray sc' x y) = ray_d (primary_ray sc x y))
  /\ (forall sc : Scene R,
         Forall (fun p => then_key (fst p) (snd p) sc = Some sc)
                opposite_keys).
Proof.
  split; [|exact real_opposite_keys].
  intros key sc sc' H.
  pose proof (real_key_translates key sc sc' H) as Hv.
  destruct (keyboard_cb_fields key sc sc' H) as (Hw & Hh & _).
  split; [exact Hv|].
  split; [unfold cam_forward; rewrite Hv; reflexivity|].
  assert (Ef : cam_forward sc' = cam_forward sc)
    by (unfold cam_forward; rewrite Hv; reflexivity).
  assert (Er : cam_right sc' = cam_right sc)
    by (unfold cam_right; rewrite Ef; reflexivity).
  split; [exact Er|].
  split; [unfold cam_up; rewrite Ef, Er; reflexivity|].
  intros LM x y.
  apply (primary_ray_dir_eq sc sc' x y Hv Hw Hh).
Qed.

(** A scene in exact arithmetic: the camera of the program. *)
Definition real_scene : Scene R :=
  mkScene 800 600 (mkVec3 (5 / 2) (3 / 2) 8)%R (mkVec3 (5 / 2) (3 / 2) 0)%R
    (mkVec3 (5 / 2) 3 6)%R [] [].

Definition real_scene_after_w : Scene R :=
  with_camera real_scene (sub_z (g_camPos real_scene) (flit 3 10))
              (sub_z (g_camLook real_scene) (flit 3 10)).

Lemma keyboard_translates_witness :
  keyboard_cb "w" real_scene = Some real_scene_after_w
  /\ cam_forward real_scene_after_w = cam_forward real_scene.
Proof.
  assert (E : keyboard_cb "w" real_scene = Some real_scene_after_w)
    by reflexivity.
  split; [exact E|].
  exact (proj1 (proj2 (proj1 keyboard_translates "w"%char real_scene
                         real_scene_after_w E))).
Defined.

(** The room at a resolution of 4 by 2, whose rows of 12 bytes need no
    padding, with a fresh buffer. *)
Definition wide_room : Scene float32 :=
  mkScene 4 2 (g_camPos room) (g_camLook room) (g_lightPos room)
    (g_spheres room) (g_planes room).

Definition wide_buffer : list Z := repeat 0 24.

(** X4. From the globals [main] starts with, whatever events arrive, as
    long as every reshape event that is not ignored asks for a size with
    w*h*3 <= INT_MAX and rows that need no padding (3*w a multiple of the
    unpack alignment 4, or one row only), no callback leaves the colour
    buffer or overflows an [int]: the loop is still running or has exited
    on ESC, the buffer holds width*height*3 bytes, both sizes are positive,
    and the spheres and planes are those of [init_scene]. The condition on
    the rows is needed: after a reshape to two rows or more that need
    padding, the next display reads past the end of the buffer in
    [glDrawPixels]. *)
Theorem main_loop_safe :
  forall (F : Type) (SC : Scalar F) (LM : Libm F),
    (forall events : list Event,
        Forall fits events ->
        main events <> Undefined
        /\ forall g out,
            main events = Running g out ->
            0 < g_width (g_scene g) /\ 0 < g_height (g_scene g)
            /\ g_width (g_scene g) * g_height (g_scene g) * 3 <= INT_MAX
            /\ List.length (g_colorBuffer g)
               = Z.to_nat (g_width (g_scene g) * g_height (g_scene g) * 3)
            /\ g_spheres (g_scene g) = init_spheres
            /\ g_planes (g_scene g) = init_planes)
    /\ (forall w h : Z,
           0 < w -> 1 < h -> w * h * 3 <= INT_MAX -> row_stride w <> 3 * w ->
           main [Reshape w h; Display] = Undefined).
Proof.
  intros F SC LM. split.
  - intros events Hf. unfold main.
    destruct (main_loop_well_formed events started [] started_well_formed Hf)
      as [Hu Hr].
    split; [exact Hu|]. intros g out E.
    destruct (Hr g out E) as (A & B & C & _ & D & G & H). auto 10.
  - intros w h Hw Hh Hi Hs. unfold main.
    apply reshape_then_display; assumption.
Qed.

Lemma main_loop_safe_witness :
  main (LM := sample_libm)
       [Reshape 4 2; Display; Keyboard "w"; Reshape 0 5; Display]
  <> Undefined
  /\ main (LM := sample_libm) [Reshape 2 2; Display] = Undefined.
Proof.
  split.
  - apply (proj1 (main_loop_safe float32 binary32 sample_libm)).
    repeat (apply Forall_cons;
            [cbn [fits];
             first [exact I
                   | intros _ _; split;
                     [vm_compute; discriminate
                     | left; vm_compute; reflexivity]]
            |]).
    apply Forall_nil.
  - apply (proj2 (main_loop_safe float32 binary32 sample_libm) 2 2).
    + lia.
    + lia.
    + vm_compute. discriminate.
    + vm_compute. discriminate.
Defined.

(** X5. With a buffer of width*height*3 bytes, that size fitting in an
    [int], [display_cb] replaces every byte by one frame that depends on
    the scene only. When the rows need no padding (3*width a multiple of
    the unpack alignment 4, or one row only) the pixels [glDrawPixels]
    unpacks are that frame, the scene is unchanged, and displaying again
    yields the same buffer and the same output. With two rows or more that
    need padding, [glDrawPixels] reads past the end of the buffer. *)
Theorem display_draws_frame :
  forall (F : Type) (SC : Scalar F) (LM : Libm F) (sc : Scene F),
    0 <= g_width sc -> 0 <= g_height sc ->
    g_width sc * g_height sc * 3 <= INT_MAX ->
    exists frame,
      List.length frame = Z.to_nat (g_width sc * g_height sc * 3)
      /\ forall buf,
          List.length buf = Z.to_nat (g_width sc * g_height sc * 3) ->
          (packed (g_width sc) (g_height sc) ->
           display_cb (mkGlobals sc buf)
           = Running (mkGlobals sc frame)
               [Clear; DisableDepthTest;
                RasterPos (fneg (flit 1 1)) (fneg (flit 1 1));
                DrawPixels (g_width sc) (g_height sc) frame; SwapBuffers]
           /\ display_cb (mkGlobals sc frame)
              = display_cb (mkGlobals sc buf))
          /\ (1 < g_height sc -> row_stride (g_width sc) <> 3 * g_width sc ->
              display_cb (mkGlobals sc buf) = Undefined).
Proof.
  intros F SC LM sc Hw Hh Hi. exists (frame_bytes sc).
  pose proof (frame_bytes_length sc Hw Hh) as Hl.
  split; [exact Hl|].
  intros buf Hb.
  destruct (display_cb_frame sc buf Hw Hh Hi Hb) as [D U].
  destruct (display_cb_frame sc (frame_bytes sc) Hw Hh Hi Hl) as [D' _].
  split; [|exact U].
  intros Hp. split; [exact (D Hp)|].
  rewrite (D Hp), (D' Hp). reflexivity.
Qed.

Lemma display_draws_frame_witness :
  (exists frame,
      display_cb (LM := sample_libm) (mkGlobals wide_room wide_buffer)
      = Running (mkGlobals wide_room frame)
          [Clear; DisableDepthTest;
           RasterPos (fneg (flit 1 1)) (fneg (flit 1 1));
           DrawPixels 4 2 frame; SwapBuffers])
  /\ display_cb (LM := sample_libm)
       (mkGlobals small_room (bytes small_buffer))
     = Undefined.
Proof.
  split.
  - destruct (display_draws_frame float32 binary32 sample_libm wide_room)
      as (frame & _ & H);
      [vm_compute; discriminate | vm_compute; discriminate
       | vm_compute; discriminate |].
    exists frame.
    apply (proj1 (H wide_buffer eq_refl)). left. vm_compute. reflexivity.
  - destruct (display_draws_frame float32 binary32 sample_libm small_room)
      as (frame & _ & H);
      [vm_compute; discriminate | vm_compute; discriminate
       | vm_compute; discriminate |].
    apply (proj2 (H (bytes small_buffer) eq_refl)).
    + vm_compute. reflexivity.
    + vm_compute. discriminate.
Defined.

(** ** Resizing the buffer *)

Lemma resize_prefix (n : Z) (buf : list Z) (i : nat) :
  (i < Z.to_nat n)%nat ->
  nth i (resize n buf) 0 = nth i buf 0.
Proof.
  intros Hi. unfold resize.
  destruct (Nat.lt_ge_cases i (List.length buf)) as [L|G].
  - rewrite app_nth1 by (rewrite length_firstn; lia).
    rewrite <- (firstn_skipn (Z.to_nat n) buf) at 2.
    rewrite app_nth1 by (rewrite length_firstn; lia). reflexivity.
  - rewrite (nth_overflow buf) by lia.
    destruct (Nat.lt_ge_cases i (List.length (firstn (Z.to_nat n) buf)))
      as [L'|G'].
    + rewrite length_firstn in L'. lia.
    + rewrite app_nth2 by exact G'. apply nth_repeat.
Qed.

(** X6. [reshape_cb] ignores a width or height that is not positive.
    Otherwise the [int] product w*h*3 overflows when it exceeds INT_MAX
    (undefined behaviour); when it fits, [reshape_cb] records both sizes
    and resizes the buffer to w*h*3 bytes, keeping the bytes it already
    held at their indices and filling new ones with zero; the camera, the
    light, the spheres and the planes are untouched. *)
Theorem reshape_resizes :
  forall (F : Type) (SC : Scalar F) (w h : Z) (sc : Scene F) (buf : list Z),
    (w <= 0 \/ h <= 0 -> reshape_cb w h sc buf = Some (sc, buf))
    /\ (0 < w -> 0 < h -> INT_MAX < w * h * 3 ->
        reshape_cb w h sc buf = None)
    /\ (0 < w -> 0 < h -> w * h * 3 <= INT_MAX ->
        exists sc' buf',
          reshape_cb w h sc buf = Some (sc', buf')
          /\ g_width sc' = w /\ g_height sc' = h
          /\ g_camPos sc' = g_camPos sc /\ g_camLook sc' = g_camLook sc
          /\ g_lightPos sc' = g_lightPos sc
          /\ g_spheres sc' = g_spheres sc /\ g_planes sc' = g_planes sc
          /\ List.length buf' = Z.to_nat (w * h * 3)
          /\ forall i, (i < Z.to_nat (w * h * 3))%nat ->
                       nth i buf' 0 = nth i buf 0).
Proof.
  intros F SC w h sc buf. split; [|split].
  - intros H. unfold reshape_cb.
    replace ((w <=? 0) || (h <=? 0)) with true; [reflexivity|].
    symmetry. apply orb_true_iff.
    destruct H as [H|H]; [left | right]; apply Z.leb_le; exact H.
  - intros Hw Hh Hi. unfold reshape_cb.
    replace ((w <=? 0) || (h <=? 0)) with false
      by (symmetry; apply orb_false_iff; split; apply Z.leb_gt; assumption).
    replace (INT_MAX <? w * h * 3) with true
      by (symmetry; apply Z.ltb_lt; exact Hi).
    reflexivity.
  - intros Hw Hh Hi. unfold reshape_cb.
    replace ((w <=? 0) || (h <=? 0)) with false
      by (symmetry; apply orb_false_iff; split; apply Z.leb_gt; assumption).
    replace (INT_MAX <? w * h * 3) with false
      by (symmetry; apply Z.ltb_ge; exact Hi).
    eexists. eexists. split; [reflexivity|].
    cbn [g_width g_height g_camPos g_camLook g_lightPos g_spheres g_planes].
    repeat split; try reflexivity.
    + apply resize_length.
    + intros i Hi'. apply resize_prefix. exact Hi'.
Qed.

Lemma reshape_resizes_witness :
  exists sc' buf',
    reshape_cb 2 2 room [7; 8; 9] = Some (sc', buf')
    /\ List.length buf' = 12%nat
    /\ nth 1 buf' 0 = 8.
Proof.
  destruct (proj2 (proj2 (reshape_resizes float32 binary32 2 2 room
                            [7; 8; 9])))
    as (sc' & buf' & E & _ & _ & _ & _ & _ & _ & _ & Hl & Hn);
    [lia | lia | vm_compute; discriminate |].
  exists sc', buf'. split; [exact E|]. split; [exact Hl|].
  apply (Hn 1%nat). cbn. lia.
Defined.

(** ** binary32 results that are the same value *)

(** Both a NaN, or the same zero, infinity or finite number, its sign
    included. The model has one NaN: of the sign and the payload of a NaN
    nothing is said. *)
Definition same_value (x y : float32) : Prop :=
  is_nan x = is_nan y /\ (is_nan x = false -> x = y).

Lemma same_value_eq (x y : float32) : x = y -> same_value x y.
Proof. intros ->. split; [reflexivity | intros _; reflexivity]. Qed.

(** X7. In binary32 the product and the sum commute as values: x*y and y*x
    are both a NaN or the same zero, infinity or finite number, and so are
    x+y and y+x, dot(a, b) and dot(b, a), and each channel of a + b and
    b + a. Nothing is stated about the sign or payload of a NaN. The sum is
    not associative. *)
Theorem b32_kernel_commutes :
  (forall x y : float32, same_value (fmul x y) (fmul y x))
  /\ (forall x y : float32, same_value (fadd x y) (fadd y x))
  /\ (forall a b : Vec3 float32, same_value (dot a b) (dot b a))
  /\ (forall a b : Vec3 float32,
         same_value (v_x (vadd a b)) (v_x (vadd b a))
         /\ same_value (v_y (vadd a b)) (v_y (vadd b a))
         /\ same_value (v_z (vadd a b)) (v_z (vadd b a)))
  /\ fadd (fadd (flit 16777216 1) (flit 1 1)) (flit 1 1 : float32)
     <> fadd (flit 16777216 1) (fadd (flit 1 1) (flit 1 1)).
Proof.
  split; [intros x y; apply same_value_eq, b32_mul_comm|].
  split; [intros x y; apply same_value_eq, b32_add_comm|].
  split; [intros a b; apply same_value_eq, b32_dot_comm|].
  split; [|exact b32_add_not_assoc].
  intros a b. rewrite (b32_vadd_comm a b).
  repeat split; reflexivity.
Qed.

Lemma b32_kernel_commutes_witness :
  fmul (flit 3 10) (flit 7 1 : float32) = fmul (flit 7 1) (flit 3 10).
Proof.
  apply (proj2 (proj1 b32_kernel_commutes (flit 3 10) (flit 7 1))).
  vm_compute. reflexivity.
Defined.

(** X8. In exact arithmetic [normalize] returns the zero vector when
    dot(v,v) <= 1e-8 and v scaled by 1/|v|, of length 1, otherwise; applying
    it twice is applying it once. *)
Theorem normalize_exact :
  forall v : Vec3 R,
    ((dot v v <= 1 / 100000000)%R -> normalize v = vzero)
    /\ ((1 / 100000000 < dot v v)%R ->
        normalize v = vscale v (1 / sqrt (dot v v))%R
        /\ dot (normalize v) (normalize v) = 1%R
        /\ length (normalize v) = 1%R)
    /\ normalize (normalize v) = normalize v.
Proof.
  intros v. split; [apply real_normalize_zero|].
  split; [|apply real_normalize_idem].
  intros H. destruct (real_normalize_unit v H) as [E U].
  split; [exact E|]. split; [exact U|].
  unfold length. rewrite U. cbn [fsqrt real_arith]. apply sqrt_1.
Qed.

Lemma normalize_exact_witness :
  dot (normalize (mkVec3 3 0 4)%R) (normalize (mkVec3 3 0 4)%R) = 1%R.
Proof.
  apply (proj1 (proj2 (normalize_exact (mkVec3 3 0 4)%R))).
  cbn. lra.
Defined.

(** X9. In exact arithmetic cross(a, b) is orthogonal to a and to b, its
    squared length is |a|^2 |b|^2 - dot(a,b)^2, it changes sign when the
    arguments are swapped, and dot is symmetric. *)
Theorem cross_exact :
  forall a b : Vec3 R,
    dot (cross a b) a = 0%R
    /\ dot (cross a b) b = 0%R
    /\ dot (cross a b) (cross a b)
       = (dot a a * dot b b - dot a b * dot a b)%R
    /\ cross b a = vscale (cross a b) (-1)%R
    /\ dot a b = dot b a.
Proof.
  intros a b.
  split; [apply real_cross_orth_l|]. split; [apply real_cross_orth_r|].
  split; [apply real_cross_norm|]. split; [|apply real_dot_comm].
  destruct a, b. unfold cross, vscale. cbn. f_equal; ring.
Qed.

(** ** The ambient floor of [shade] *)

(** A libm in exact arithmetic: [pow] for integral exponents, the tangent
    of the reals, the integer part. *)
Definition real_libm : Libm R :=
  {| fpow := fun x y => (x ^ Z.to_nat (Int_part y))%R;
     ftan := tan;
     to_uchar := Int_part |}.

Section AmbientFloor.

Local Open Scope R_scope.

Lemma real_fmax_nonneg (x : R) : 0 <= fmax (flit 0 1) x.
Proof.
  unfold fmax. destruct (fltb (flit 0 1) x) eqn:E.
  - apply real_fltb_true in E. cbn [flit real_arith] in E. lra.
  - cbn [flit real_arith]. lra.
Qed.

Lemma real_clamp_floor (x lo : R) : 0 <= lo -> lo <= x -> Rmin 1 lo <= clamp x.
Proof.
  intros H0 H. unfold clamp.
  destruct (fltb x (flit 0 1)) eqn:E0.
  { apply real_fltb_true in E0. cbn [flit real_arith] in E0. lra. }
  destruct (fltb (flit 1 1) x) eqn:E1.
  { cbn [flit real_arith]. replace (1 / 1) with 1 by field. apply Rmin_l. }
  pose proof (Rmin_r 1 lo). lra.
Qed.

Lemma real_lit_channel (a diff spec : R) :
  0 <= a -> 0 <= diff -> 0 <= spec ->
  Rmin 1 (a * (2 / 10))
  <= clamp (fadd (fmul a (fadd (flit 2 10) (fmul diff (flit 8 10))))
                 (fmul (flit 1 1) (fmul spec (flit 3 10)))) <= 1.
Proof.
  intros Ha Hd Hs. split; [|apply real_clamp_range].
  apply real_clamp_floor; [nra|].
  cbn [fadd fmul flit real_arith]. nra.
Qed.

End AmbientFloor.

(** X10. In exact arithmetic, with a [pow] that is not negative on a base
    that is not negative and an albedo without negative channels, every
    channel of the colour [shade] returns lies between min(1, 0.2*albedo)
    and 1: the ambient term keeps a lit or shadowed surface from going
    darker than a fifth of its albedo. *)
Theorem shade_ambient_floor :
  forall (LM : Libm R) (sc : Scene R) (hitPoint normal albedo viewDir : Vec3 R),
    (forall x y : R, (0 <= x)%R -> (0 <= fpow x y)%R) ->
    (0 <= v_x albedo)%R -> (0 <= v_y albedo)%R -> (0 <= v_z albedo)%R ->
    let c := shade sc hitPoint normal albedo viewDir in
    (Rmin 1 (v_x albedo * (2 / 10)) <= v_x c <= 1)%R
    /\ (Rmin 1 (v_y albedo * (2 / 10)) <= v_y c <= 1)%R
    /\ (Rmin 1 (v_z albedo * (2 / 10)) <= v_z c <= 1)%R.
Proof.
  intros LM sc hitPoint normal albedo viewDir Hpow Hx Hy Hz. cbv zeta.
  rewrite shade_eq. cbv zeta.
  set (diff := if in_shadow sc hitPoint normal then _ else _).
  set (spec := if in_shadow sc hitPoint normal then _ else _).
  assert (Hd : (0 <= diff)%R).
  { unfold diff. destruct (in_shadow sc hitPoint normal);
      [cbn [flit real_arith]; lra | apply real_fmax_nonneg]. }
  assert (Hs : (0 <= spec)%R).
  { unfold spec. destruct (in_shadow sc hitPoint normal);
      [cbn [flit real_arith]; lra | apply Hpow; apply real_fmax_nonneg]. }
  destruct albedo as [ax ay az]. cbn [v_x v_y v_z] in Hx, Hy, Hz.
  unfold clamp01, vadd, vscale. cbn [v_x v_y v_z].
  repeat split; apply real_lit_channel; assumption.
Qed.

Lemma shade_ambient_floor_witness :
  (Rmin 1 (1 * (2 / 10))
   <= v_x (shade (LM := real_libm) real_scene (mkVec3 0 0 0)%R
                 (mkVec3 0 1 0)%R (mkVec3 1 1 1)%R (mkVec3 0 1 0)%R))%R.
Proof.
  apply (shade_ambient_floor real_libm real_scene (mkVec3 0 0 0)%R
           (mkVec3 0 1 0)%R (mkVec3 1 1 1)%R (mkVec3 0 1 0)%R).
  - intros x y Hx. cbn [fpow real_libm]. apply pow_le. exact Hx.
  - cbn. lra.
  - cbn. lra.
  - cbn. lra.
Defined.

(** ** The hit [trace] keeps *)

(** X11. After the two loops of [trace], either nothing was hit and the
    locals are as initialised, or the record is that of a sphere or a plane
    of the scene: the t and normal its intersection test returned, its
    colour, reflectivity 0 for a sphere and 0.05 for a plane, with t below
    1e30 and not below 1e-4. A primitive hit at t >= 1e30, or at NaN, is
    never kept. *)
Theorem nearest_hit_sound :
  forall (F : Type) (SC : Scalar F) (SO : ScalarOrder F)
         (sc : Scene F) (ray : Ray F),
    let h := nearest_hit sc ray in
    (hit h = false /\ h = no_hit)
    \/ (hit h = true
        /\ ((exists s, In s (g_spheres sc)
                       /\ intersect_sphere ray s = Some (tMin h, hitNormal h)
                       /\ hitColor h = s_color s
                       /\ hitReflectivity h = flit 0 1)
            \/ (exists pl, In pl (g_planes sc)
                           /\ intersect_plane ray pl
                              = Some (tMin h, hitNormal h)
                           /\ hitColor h = pl_color pl
                           /\ hitReflectivity h = flit 5 100))
        /\ fltb (tMin h) (flit (10 ^ 30) 1) = true
        /\ fltb (tMin h) (flit 1 10000) = false).
Proof.
  intros F SC SO sc ray. exact (nearest_hit_origin sc ray).
Qed.

Lemma nearest_hit_sound_witness :
  exists pl, In pl (g_planes room)
             /\ intersect_plane down_ray pl
                = Some (tMin (nearest_hit room down_ray),
                        hitNormal (nearest_hit room down_ray)).
Proof.
  destruct (nearest_hit_sound float32 binary32 binary32_order room down_ray)
    as [[H _] | (_ & [(s & _ & _ & _ & Hr) | (pl & Hp & E & _)] & _)].
  - vm_compute in H. discriminate H.
  - vm_compute in Hr. discriminate Hr.
  - exists pl. split; assumption.
Defined.

(** X12. A test that reports a hit reports it at a t not below 1e-4; a
    plane hit carries the plane's own normal and a hit point inside the
    room widened by 1e-3. In exact arithmetic the hit point of a plane test
    satisfies dot(n, p) + d = 0, and that of a sphere test (nonzero
    direction, r*r > 1e-8) lies at distance r from the centre, with a normal
    pointing away from it: dot(normal, p - center) = r. *)
Theorem hits_on_surface :
  (forall (F : Type) (SC : Scalar F) (ray : Ray F) (s : Sphere F)
          (t : F) (n : Vec3 F),
      intersect_sphere ray s = Some (t, n) -> fltb t (flit 1 10000) = false)
  /\ (forall (F : Type) (SC : Scalar F) (ray : Ray F) (pl : Plane F)
             (t : F) (n : Vec3 F),
         intersect_plane ray pl = Some (t, n) ->
         n = pl_n pl
         /\ fltb t (flit 1 10000) = false
         /\ outside_room (vadd (ray_o ray) (vscale (ray_d ray) t)) = false)
  /\ (forall (ray : Ray R) (pl : Plane R) (t : R) (n : Vec3 R),
         intersect_plane ray pl = Some (t, n) ->
         (dot (pl_n pl) (vadd (ray_o ray) (vscale (ray_d ray) t)) + pl_d pl
          = 0)%R
         /\ (1 / 10000 <= t)%R)
  /\ (forall (ray : Ray R) (s : Sphere R) (t : R) (n : Vec3 R),
         (0 < dot (ray_d ray) (ray_d ray))%R ->
         (0 < s_radius s)%R ->
         (1 / 100000000 < s_radius s * s_radius s)%R ->
         intersect_sphere ray s = Some (t, n) ->
         let w := vsub (vadd (ray_o ray) (vscale (ray_d ray) t)) (s_center s) in
         dot w w = (s_radius s * s_radius s)%R
         /\ dot n w = s_radius s
         /\ (1 / 10000 <= t)%R).
Proof.
  split; [intros F SC ray s t n H; exact (sphere_hit_not_below ray s t n H)|].
  split.
  { intros F SC ray pl t n H.
    destruct (plane_hit_inside ray pl t n H) as (_ & A & B & _ & C). auto. }
  split; [exact real_plane_hit_on_plane|].
  intros ray s t n Ha Hr Hr2 H. cbv zeta.
  pose proof (sphere_hit_not_below ray s t n H) as Ht.
  apply real_fltb_false in Ht. unfold t_eps in Ht. cbn [flit real_arith] in Ht.
  destruct (real_sphere_normal ray s t n Ha Hr Hr2 H) as (_ & _ & En & Un).
  set (w := vsub (vadd (ray_o ray) (vscale (ray_d ray) t)) (s_center s)) in *.
  assert (Hw : dot w w = (s_radius s * s_radius s)%R).
  { revert Un. rewrite En. destruct w as [x y z]. cbn. intros Un.
    assert (E : ((x / s_radius s) * (x / s_radius s)
                 + (y / s_radius s) * (y / s_radius s)
                 + (z / s_radius s) * (z / s_radius s)
                 = (x * x + y * y + z * z) / (s_radius s * s_radius s))%R)
      by (field; lra).
    rewrite E in Un.
    apply (f_equal (fun q => (q * (s_radius s * s_radius s))%R)) in Un.
    field_simplify in Un; lra. }
  split; [exact Hw|]. split; [|exact Ht].
  rewrite En.
  transitivity ((dot w w) / s_radius s)%R.
  - destruct w as [x y z]. cbn. field. lra.
  - rewrite Hw. field. lra.
Qed.

Lemma hits_on_surface_witness :
  exists t n,
    intersect_sphere real_tangent_ray real_unit_sphere = Some (t, n)
    /\ dot n (vsub (vadd (ray_o real_tangent_ray)
                         (vscale (ray_d real_tangent_ray) t))
                   (s_center real_unit_sphere))
       = 1%R.
Proof.
  destruct real_tangent_hit as [n Hn]. exists 5%R, n. split; [exact Hn|].
  apply (proj2 (proj2 (proj2 hits_on_surface)) _ _ _ _) in Hn.
  - apply Hn.
  - cbv [real_tangent_ray ray_d dot v_x v_y v_z fmul fadd real_arith]. lra.
  - cbv [real_unit_sphere s_radius]. lra.
  - cbv [real_unit_sphere s_radius]. lra.
Defined.

(** X13. In exact arithmetic the offset of 1e-3 along the normal keeps a
    primitive from shadowing its own lit side: from a point of a plane
    (unit normal) or of a sphere (outward unit normal), a shadow ray whose
    direction L has dot(normal, L) >= 0 misses that plane or sphere. *)
Theorem no_self_shadow :
  (forall (pl : Plane R) (p L : Vec3 R),
      dot (pl_n pl) (pl_n pl) = 1%R ->
      (dot (pl_n pl) p + pl_d pl = 0)%R ->
      (0 <= dot (pl_n pl) L)%R ->
      intersect_plane (mkRay (vadd p (vscale (pl_n pl) (flit 1 1000))) L) pl
      = None)
  /\ (forall (s : Sphere R) (p n L : Vec3 R),
         (0 < s_radius s)%R ->
         vsub p (s_center s) = vscale n (s_radius s) ->
         dot n n = 1%R ->
         (0 < dot L L)%R ->
         (0 <= dot n L)%R ->
         intersect_sphere (mkRay (vadd p (vscale n (flit 1 1000))) L) s
         = None).
Proof.
  split; [exact real_plane_no_self_shadow | exact real_sphere_no_self_shadow].
Qed.

Lemma no_self_shadow_witness :
  intersect_plane
    (mkRay (vadd (mkVec3 1 0 1)%R
                 (vscale (mkVec3 0 1 0)%R (flit 1 1000)))
           (mkVec3 0 1 0)%R)
    (mkPlane (mkVec3 0 1 0)%R 0%R (mkVec3 1 1 1)%R)
  = None.
Proof.
  apply (proj1 no_self_shadow
           (mkPlane (mkVec3 0 1 0)%R 0%R (mkVec3 1 1 1)%R)
           (mkVec3 1 0 1)%R (mkVec3 0 1 0)%R).
  - cbn. lra.
  - cbn. lra.
  - cbn. lra.
Defined.

(** X14. In exact arithmetic, when the look-at point is away from the
    camera (squared distance above 1e-8), forward, right and up are of unit
    length and pairwise orthogonal, also for a vertical view, where the
    second up vector takes over; every primary ray starts at the camera
    with a direction of unit length. *)
Theorem camera_basis_orthonormal :
  forall sc : Scene R,
    (1 / 100000000
     < dot (vsub (g_camLook sc) (g_camPos sc))
           (vsub (g_camLook sc) (g_camPos sc)))%R ->
    (dot (cam_forward sc) (cam_forward sc) = 1%R
     /\ dot (cam_right sc) (cam_right sc) = 1%R
     /\ dot (cam_up sc) (cam_up sc) = 1%R
     /\ dot (cam_right sc) (cam_forward sc) = 0%R
     /\ dot (cam_up sc) (cam_forward sc) = 0%R
     /\ dot (cam_up sc) (cam_right sc) = 0%R)
    /\ forall (LM : Libm R) (x y : Z),
        ray_o (primary_ray sc x y) = g_camPos sc
        /\ dot (ray_d (primary_ray sc x y)) (ray_d (primary_ray sc x y))
           = 1%R.
Proof.
  intros sc H. split; [exact (real_camera_basis sc H)|].
  intros LM x y. exact (real_primary_ray_unit sc x y H).
Qed.

(** The camera straight above its look-at point. *)
Definition real_top_view : Scene R :=
  mkScene 800 600 (mkVec3 0 5 0)%R (mkVec3 0 0 0)%R (mkVec3 0 3 0)%R [] [].

Lemma camera_basis_orthonormal_witness :
  dot (cam_right real_top_view) (cam_right real_top_view) = 1%R
  /\ dot (cam_up real_top_view) (cam_forward real_top_view) = 0%R.
Proof.
  destruct (camera_basis_orthonormal real_top_view) as [(_ & A & _ & _ & B & _) _].
  - cbn. lra.
  - split; assumption.
Defined.
